(** * deep-sdf: data creation and latent synthesis

    A shallow embedding of [deep_sdf/src/synthesize.py] and
    [deep_sdf/src/data_creator.py].

    Conventions of the embedding.
    - Tensor and vertex entries are exact rationals ([Q]); tensors are
      compared entry-wise with [Qeq].  Rounding, infinities and NaN of the
      float32/float64 arithmetic are not represented.
    - A Python exception is a value [Raise e] of the [Result] type.
    - Every random draw ([random.Random(time.time())], [np.random]) is an
      explicit argument: the code reseeds from the clock at each draw, so a
      draw may be any value of its range.
    - The decoder network, the iso-surface extraction and the geometry
      kernels are collaborators outside this repository's sources; only what the
      code does with their results is modelled. *)

From Stdlib Require Import Ascii String DecimalString DecimalNat.
From Stdlib Require Import List Bool Arith ZArith Lia QArith Qminmax Qfield Lqa.
From Stdlib Require Import FinFun.
Import ListNotations.

Set Implicit Arguments.
Open Scope nat_scope.

(** ** Exceptions *)

Inductive PyError : Type :=
| AssertionError
| IndexError
| ValueError
| TypeError
| AttributeError
| ZeroDivisionError
| RuntimeError.

Inductive Result (A : Type) : Type :=
| Ok (a : A)
| Raise (e : PyError).

Arguments Ok {A} a.
Arguments Raise {A} e.

Definition bind {A B : Type} (r : Result A) (k : A -> Result B) : Result B :=
  match r with
  | Ok a => k a
  | Raise e => Raise e
  end.

Notation "x <- r ;; k" := (bind r (fun x => k))
  (at level 61, r at next level, right associativity).

(** ** Tensors (one-dimensional, as latent codes are) *)

Module Tensor.

Definition t : Type := list Q.

(** Entry-wise equality of values. *)
Definition eqv (a b : t) : Prop := Forall2 Qeq a b.

(** [tensor * scalar] *)
Definition scale (a : t) (s : Q) : t := map (fun x => (x * s)%Q) a.

Fixpoint zip_with (f : Q -> Q -> Q) (a b : t) : t :=
  match a, b with
  | x :: a', y :: b' => f x y :: zip_with f a' b'
  | _, _ => []
  end.

(** [a + b] and [a - b] on tensors of one shape.  Latent codes of one
    decoder all have its latent dimension; any other pair of shapes is
    reported as the shape error torch raises (its broadcasting of
    one-element tensors is outside the data model). *)
Definition binop (f : Q -> Q -> Q) (a b : t) : Result t :=
  if Nat.eqb (length a) (length b) then Ok (zip_with f a b)
  else Raise RuntimeError.

Definition add : t -> t -> Result t := binop Qplus.
Definition sub : t -> t -> Result t := binop Qminus.

Definition zeros (n : nat) : t := repeat 0%Q n.

End Tensor.

(** ** [SynthesizerHelper.interpolate] *)

(** The body of [for fi, f in enumerate(factors)], started at position
    [fi]. *)
Fixpoint interpolate_loop (latent_codes : list Tensor.t) (fi : nat)
    (factors : list Q) (interpolated : Tensor.t) : Result Tensor.t :=
  match factors with
  | [] => Ok interpolated
  | f :: rest =>
      match nth_error latent_codes (fi + 1) with
      | None => Raise IndexError
      | Some c =>
          next <- Tensor.add (Tensor.scale interpolated (1 - f)%Q)
                             (Tensor.scale c f) ;;
          interpolate_loop latent_codes (S fi) rest next
      end
  end.

Definition interpolate (latent_codes : list Tensor.t) (factors : list Q)
    : Result Tensor.t :=
  if negb (Z.eqb (Z.of_nat (length latent_codes) - 1)
                 (Z.of_nat (length factors)))
  then Raise AssertionError
  else
    match latent_codes with
    | [] => Raise IndexError
    | c0 :: _ =>
        if Nat.eqb (length latent_codes) 1 then Ok c0
        else interpolate_loop latent_codes 0 factors c0
    end.

(** The fold written in the specification: start from the first code and
    absorb the remaining codes one factor at a time. *)
Definition interpolate_spec_step (acc : Result Tensor.t) (cf : Tensor.t * Q)
    : Result Tensor.t :=
  r <- acc ;;
  Tensor.add (Tensor.scale r (1 - snd cf)%Q) (Tensor.scale (fst cf) (snd cf)).

Definition interpolate_spec (c0 : Tensor.t) (rest : list Tensor.t)
    (factors : list Q) : Result Tensor.t :=
  fold_left interpolate_spec_step (combine rest factors) (Ok c0).

(** ** Text helpers (Python [str], [int], [split], [replace]) *)

(** [str(n)] for a non-negative integer. *)
Definition str_of_nat (n : nat) : string :=
  NilZero.string_of_uint (Nat.to_uint n).

(** [int(s)] on a run of ASCII decimal digits; anything else is the
    [ValueError] of Python.  (Python also accepts a sign, surrounding blanks
    and single underscores between digits; the names written by the
    synthesis loop contain none of these inside a component.) *)
Definition py_int (s : string) : Result Z :=
  match NilZero.uint_of_string s with
  | Some d => Ok (Z.of_nat (Nat.of_uint d))
  | None => Raise ValueError
  end.

(** [s.split("__")]: cut at every leftmost, non-overlapping ["__"].
    [cur] is the component being read. *)
Fixpoint split_dunder_from (cur : string) (s : string) : list string :=
  match s with
  | EmptyString => [cur]
  | String "_" (String "_" rest) => cur :: split_dunder_from EmptyString rest
  | String c rest => split_dunder_from (cur ++ String c EmptyString) rest
  end.

Definition split_dunder (s : string) : list string :=
  split_dunder_from EmptyString s.

(** [s.replace(".obj", "")] *)
Fixpoint remove_obj (s : string) : string :=
  match s with
  | EmptyString => EmptyString
  | String "." (String "o" (String "b" (String "j" rest))) => remove_obj rest
  | String c rest => String c (remove_obj rest)
  end.

(** [s.replace(".", "-")] *)
Fixpoint dot_to_dash (s : string) : string :=
  match s with
  | EmptyString => EmptyString
  | String c rest =>
      String (if Ascii.eqb c "." then "-"%char else c) (dot_to_dash rest)
  end.

(** The character of the digit [d]. *)
Definition digit_char (d : nat) : ascii := ascii_of_nat (48 + d).

(** The decimals of [m / 1000] as [str] prints them: three digits without
    the trailing zeros, and ["0"] when there is no fractional part. *)
Definition milli_decimals (m : nat) : string :=
  let a := (m / 100) mod 10 in
  let b := (m / 10) mod 10 in
  let c := m mod 10 in
  if negb (Nat.eqb c 0) then
    String (digit_char a) (String (digit_char b) (String (digit_char c) ""))
  else if negb (Nat.eqb b 0) then
    String (digit_char a) (String (digit_char b) "")
  else String (digit_char a) "".

(** [str(x)] for the float [x = m / 1000], which is what
    [round(..., 3)] returns. *)
Definition str_of_milli (m : nat) : string :=
  str_of_nat (m / 1000) ++ "." ++ milli_decimals m.

(** Predicates on the characters of a text. *)
Definition first_char (s : string) : option ascii :=
  match s with
  | EmptyString => None
  | String c _ => Some c
  end.

Definition is_digit (c : ascii) : bool :=
  match c with
  | "0" | "1" | "2" | "3" | "4" | "5" | "6" | "7" | "8" | "9" => true
  | _ => false
  end%char.

Fixpoint no_char (x : ascii) (s : string) : bool :=
  match s with
  | EmptyString => true
  | String c rest => (negb (Ascii.eqb c x) && no_char x rest)%bool
  end.

(** [posixpath.join(a, b)] *)
Definition starts_with_slash (s : string) : bool :=
  match s with
  | String "/" _ => true
  | _ => false
  end.

Fixpoint ends_with_slash (s : string) : bool :=
  match s with
  | EmptyString => false
  | String c EmptyString => Ascii.eqb c "/"
  | String _ rest => ends_with_slash rest
  end.

Definition path_join (a b : string) : string :=
  if starts_with_slash b then b
  else if (String.eqb a "" || ends_with_slash a)%bool then a ++ b
  else a ++ "/" ++ b.

(** ** Synthesis records and the ledger *)

Inductive SynthesisType : Type := initial | interpolation | arithmetic.

Definition SynthesisType_eqb (a b : SynthesisType) : bool :=
  match a, b with
  | initial, initial | interpolation, interpolation
  | arithmetic, arithmetic => true
  | _, _ => false
  end.

(** The ["name"] entry is the integer [i] in a seeded record and a file
    name in a synthesized one. *)
Inductive Name : Type :=
| NameInt (i : nat)
| NameStr (s : string).

Record SynthesisRecord : Type := {
  name : Name;
  index : nat;
  synthesis_type : SynthesisType;
  latent_code : Tensor.t
}.

(** The seeded ledger: [enumerate(sdf_decoder.latent_codes)] from [i]. *)
Fixpoint seed_from (i : nat) (latent_codes : list Tensor.t)
    : list SynthesisRecord :=
  match latent_codes with
  | [] => []
  | c :: rest =>
      {| name := NameInt i; index := i; synthesis_type := initial;
         latent_code := c |} :: seed_from (S i) rest
  end.

Definition seed (latent_codes : list Tensor.t) : list SynthesisRecord :=
  seed_from 0 latent_codes.

(** ** Random selection *)

(** Removal of the element at position [j]. *)
Fixpoint remove_at {A : Type} (j : nat) (l : list A) : list A :=
  match l, j with
  | [], _ => []
  | _ :: l', 0 => l'
  | x :: l', S j' => x :: remove_at j' l'
  end.

(** The position, before the removal at [j], of what stands at [p]
    after it. *)
Definition lift_position (j p : nat) : nat := if Nat.ltb p j then p else S p.

(** [k] draws without replacement: the draw [r] takes the element at
    position [r mod n] of the [n] elements not taken yet. *)
Fixpoint draw {A : Type} (rs : list nat) (pool : list A) (k : nat) : list A :=
  match k with
  | 0 => []
  | S k' =>
      let j := hd 0 rs mod length pool in
      match nth_error pool j with
      | None => []
      | Some x => x :: draw (tl rs) (remove_at j pool) k'
      end
  end.

(** [random.Random(time.time()).sample(population, k)] *)
Definition random_sample {A : Type} (rs : list nat) (population : list A)
    (k : nat) : Result (list A) :=
  if Nat.ltb (length population) k then Raise ValueError
  else Ok (draw rs population k).

(** The draws of one selection: the coin [random() < 0.5] that restricts
    the pool to the trained codes, the draws of [sample], and the factor
    [round(0.25 + 0.5 * random(), 3)] in thousandths. *)
Record Selection : Type := {
  restrict_to_trained : bool;
  sample_draws : list nat;
  factor_milli : nat
}.

Definition candidate_pool (excluded : SynthesisType) (trained : nat)
    (restrict : bool) (data : list SynthesisRecord) : list SynthesisRecord :=
  let data_to_sample := if restrict then firstn trained data else data in
  filter (fun rd => negb (SynthesisType_eqb (synthesis_type rd) excluded))
         data_to_sample.

(** [random_interpolation_synthesis]; [trained] is
    [len(sdf_decoder.latent_codes)]. *)
Definition random_interpolation_synthesis (trained : nat)
    (data : list SynthesisRecord) (sel : Selection)
    : Result (string * nat * Tensor.t) :=
  let data_to_sample :=
    candidate_pool arithmetic trained (restrict_to_trained sel) data in
  picked <- random_sample (sample_draws sel) data_to_sample 2 ;;
  match picked with
  | [data_1; data_2] =>
      let selected_indices :=
        (str_of_nat (index data_1) ++ "__" ++ str_of_nat (index data_2))%string in
      let random_interpolation_factor := factor_milli sel in
      synthesized <- interpolate [latent_code data_1; latent_code data_2]
                       [(Z.of_nat random_interpolation_factor # 1000)%Q] ;;
      Ok (selected_indices, random_interpolation_factor, synthesized)
  | _ => Raise ValueError
  end.

(** The loop [for rdi, rd in enumerate(random_data[1:])]; [n_rest] is
    [len(random_data[1:])]. *)
Fixpoint arithmetic_loop (n_rest : nat) (rdi : nat)
    (rest : list SynthesisRecord) (selected_indices : string)
    (synthesized : Tensor.t) : Result (string * Tensor.t) :=
  match rest with
  | [] => Ok (selected_indices, synthesized)
  | rd :: rest' =>
      next <- (if negb (Z.eqb (Z.of_nat rdi) (Z.of_nat n_rest - 1))
               then Tensor.add synthesized (latent_code rd)
               else Tensor.sub synthesized (latent_code rd)) ;;
      arithmetic_loop n_rest (S rdi) rest'
        (selected_indices ++ "__" ++ str_of_nat (index rd))%string next
  end.

(** [random_arithmetic_operations_synthesis] *)
Definition random_arithmetic_operations_synthesis (trained : nat)
    (data : list SynthesisRecord) (sel : Selection)
    : Result (string * Tensor.t) :=
  let data_to_sample :=
    candidate_pool interpolation trained (restrict_to_trained sel) data in
  random_data <- random_sample (sample_draws sel) data_to_sample 3 ;;
  match random_data with
  | [] => Raise IndexError
  | rd0 :: rest =>
      arithmetic_loop (length rest) 0 rest (str_of_nat (index rd0))
        (latent_code rd0)
  end.

(** ** Meshes ([data_creator.py]) *)

Record Vec3 : Type := { vx : Q; vy : Q; vz : Q }.

Definition veq (a b : Vec3) : Prop :=
  (vx a == vx b /\ vy a == vy b /\ vz a == vz b)%Q.

Definition vadd (a b : Vec3) : Vec3 :=
  {| vx := vx a + vx b; vy := vy a + vy b; vz := vz a + vz b |}%Q.

Definition vsub (a b : Vec3) : Vec3 :=
  {| vx := vx a - vx b; vy := vy a - vy b; vz := vz a - vz b |}%Q.

Definition vmul (a b : Vec3) : Vec3 :=
  {| vx := vx a * vx b; vy := vy a * vy b; vz := vz a * vz b |}%Q.

Definition vscale (a : Vec3) (s : Q) : Vec3 :=
  {| vx := vx a * s; vy := vy a * s; vz := vz a * s |}%Q.

Definition vmin (a b : Vec3) : Vec3 :=
  {| vx := Qmin (vx a) (vx b); vy := Qmin (vy a) (vy b);
     vz := Qmin (vz a) (vz b) |}.

Definition vmax (a b : Vec3) : Vec3 :=
  {| vx := Qmax (vx a) (vx b); vy := Qmax (vy a) (vy b);
     vz := Qmax (vz a) (vz b) |}.

Definition vzero : Vec3 := {| vx := 0; vy := 0; vz := 0 |}%Q.

Record Mesh : Type := {
  vertices : list Vec3;
  faces : list (nat * nat * nat);
  path : option string
}.

Definition with_vertices (m : Mesh) (vs : list Vec3) : Mesh :=
  {| vertices := vs; faces := faces m; path := path m |}.

Definition with_path (m : Mesh) (p : string) : Mesh :=
  {| vertices := vertices m; faces := faces m; path := Some p |}.

(** [mesh.bounds]: the axis-aligned bounding box [(min, max)] of the
    vertices, [None] for a mesh without vertices.  (The library measures
    the vertices that faces refer to; a loaded mesh has no others.) *)
Definition bounds (m : Mesh) : option (Vec3 * Vec3) :=
  match vertices m with
  | [] => None
  | v :: vs => Some (fold_left vmin vs v, fold_left vmax vs v)
  end.

Definition vsum (vs : list Vec3) : Vec3 := fold_left vadd vs vzero.

(** [np.mean(vertices, axis=0)].  On an empty array NumPy yields NaN, which
    is then subtracted from no vertex at all; here the quotient by zero is
    [0], with the same (empty) result. *)
Definition vmean (vs : list Vec3) : Vec3 :=
  vscale (vsum vs) (1 / inject_Z (Z.of_nat (length vs)))%Q.

Definition MIN_BOUND : string := "min_bound".
Definition CENTER : string := "center".
Definition CENTER_WITHOUT_Z : string := "center_without_z".

(** The geometry library behind [load_mesh]: file loading (with the
    concatenation of a scene), normal fixing, the watertight test and
    repair, and the Euclidean norm of a vertex. *)
Record Geometry : Type := {
  trimesh_load : string -> Mesh;
  fix_normals : Mesh -> Mesh;
  is_watertight : Mesh -> bool;
  make_mesh_watertight : Mesh -> Mesh;
  linalg_norm : Vec3 -> Q
}.

(** [mesh.vertices[:, [1, 2]] = mesh.vertices[:, [2, 1]]] *)
Definition swap_yz (v : Vec3) : Vec3 :=
  {| vx := vx v; vy := vz v; vz := vy v |}.

(** The branch on [translate_mode] in [load_mesh]. *)
Definition translation_vector (translate_mode : string) (mesh : Mesh)
    : Result Vec3 :=
  if String.eqb translate_mode MIN_BOUND then
    match bounds mesh with
    | Some (lo, _) => Ok lo
    | None => Raise TypeError
    end
  else if String.eqb translate_mode CENTER then
    Ok (vmean (vertices mesh))
  else if String.eqb translate_mode CENTER_WITHOUT_Z then
    match bounds mesh with
    | Some (lo, hi) =>
        let vector := vscale (vadd lo hi) (1 # 2) in
        Ok {| vx := vx vector; vy := vy vector; vz := vz lo |}
    | None => Raise AttributeError
    end
  else Raise ValueError.

(** [mesh.vertices -= vector] *)
Definition translate (mesh : Mesh) (vector : Vec3) : Mesh :=
  with_vertices mesh (map (fun v => vsub v vector) (vertices mesh)).

(** [np.max(np.linalg.norm(mesh.vertices, axis=1))] *)
Definition max_norm (G : Geometry) (mesh : Mesh) : Result Q :=
  match map (linalg_norm G) (vertices mesh) with
  | [] => Raise ValueError
  | n :: ns => Ok (fold_left Qmax ns n)
  end.

(** [get_normalized_mesh].  A zero length raises for a Python float; for a
    NumPy scalar the factor would be infinite, which has no rational
    counterpart, and is reported the same way. *)
Definition get_normalized_mesh (G : Geometry) (_mesh : Mesh)
    (max_length : option Q) : Result Mesh :=
  let mesh := _mesh in
  length <- match max_length with
            | Some l => Ok l
            | None => max_norm G mesh
            end ;;
  if Qeq_bool length 0 then Raise ZeroDivisionError
  else Ok (with_vertices mesh
             (map (fun v => vscale v (1 / length)%Q) (vertices mesh))).

(** The first half of [load_mesh], up to the axis swap. *)
Definition load_and_repair (G : Geometry) (path : string)
    (map_z_to_y : bool) (check_watertight : bool) : Mesh :=
  let mesh := fix_normals G (trimesh_load G path) in
  let mesh :=
    if (check_watertight && negb (is_watertight G mesh))%bool
    then make_mesh_watertight G mesh else mesh in
  if map_z_to_y then with_vertices mesh (map swap_yz (vertices mesh))
  else mesh.

(** [load_mesh] *)
Definition load_mesh (G : Geometry) (path : string) (normalize : bool)
    (map_z_to_y : bool) (check_watertight : bool) (max_length : option Q)
    (translate_mode : string) : Result Mesh :=
  let mesh := load_and_repair G path map_z_to_y check_watertight in
  vector <- translation_vector translate_mode mesh ;;
  let mesh := translate mesh vector in
  mesh <- (if normalize then get_normalized_mesh G mesh max_length
           else Ok mesh) ;;
  Ok (with_path mesh path).

(** [load_mesh_and_compute_max_norm] (without the optional HTML dump). *)
Definition load_mesh_and_compute_max_norm (G : Geometry) (path : string)
    (map_z_to_y check_watertight : bool) (translate_mode : string)
    : Result (Mesh * Q) :=
  mesh <- load_mesh G path false map_z_to_y check_watertight None
            translate_mode ;;
  length <- max_norm G mesh ;;
  Ok (mesh, length).

(** Where a translated mesh stands relative to the origin. *)
Definition horizontal_centroid_at_origin (m : Mesh) : Prop :=
  (vx (vmean (vertices m)) == 0 /\ vy (vmean (vertices m)) == 0)%Q.

Definition centroid_at_origin (m : Mesh) : Prop :=
  veq (vmean (vertices m)) vzero.

Definition min_corner_at_origin (m : Mesh) : Prop :=
  exists lo hi, bounds m = Some (lo, hi) /\ veq lo vzero.

Definition min_z_is_zero (m : Mesh) : Prop :=
  exists lo hi, bounds m = Some (lo, hi) /\ (vz lo == 0)%Q.

Definition horizontal_box_centre_at_origin (m : Mesh) : Prop :=
  exists lo hi, bounds m = Some (lo, hi) /\
    (vx lo + vx hi == 0 /\ vy lo + vy hi == 0)%Q.

Definition same_positions (a b : Mesh) : Prop :=
  Forall2 veq (vertices a) (vertices b).

(** ** Point sampling *)

(** The random kernels of [sample_pts], threading the generator state
    [rng]: surface sampling, Gaussian noise of shape [(n, 3)], and [n] rows
    of three uniform draws from [[0, 1)]. *)
Record Sampler : Type := {
  rng : Type;
  sample_surface : Mesh -> nat -> rng -> list Vec3 * rng;
  random_normal : Q -> nat -> rng -> list Vec3 * rng;
  random_sample3 : nat -> rng -> list Vec3 * rng
}.

Definition in_unit_cube (p : Vec3) : Prop :=
  (0 <= vx p < 1 /\ 0 <= vy p < 1 /\ 0 <= vz p < 1)%Q.

(** The contract of the kernels: each returns as many rows as asked, and
    the uniform draws lie in [[0, 1)]. *)
Record sampler_ok (S : Sampler) : Prop := {
  sample_surface_count :
    forall m n s, length (fst (sample_surface S m n s)) = n;
  random_normal_count :
    forall sigma n s, length (fst (random_normal S sigma n s)) = n;
  random_sample3_count :
    forall n s, length (fst (random_sample3 S n s)) = n;
  random_sample3_range :
    forall n s, Forall in_unit_cube (fst (random_sample3 S n s))
}.

Fixpoint add_rows (a b : list Vec3) : list Vec3 :=
  match a, b with
  | x :: a', y :: b' => vadd x y :: add_rows a' b'
  | _, _ => []
  end.

(** [np.random.uniform(low, high, size=[n, 3])] *)
Definition random_uniform (S : Sampler) (low high : Vec3) (n : nat)
    (s : rng S) : list Vec3 * rng S :=
  let (u, s') := random_sample3 S n s in
  (map (fun r => vadd low (vmul (vsub high low) r)) u, s').

Record SampledBlocks (S : Sampler) : Type := {
  surface_block : list Vec3;
  bbox_block : list Vec3;
  volume_block : list Vec3;
  rng_after : rng S
}.

(** The three draws of [sample_pts], before the concatenation. *)
Definition sample_blocks (S : Sampler) (mesh : Mesh)
    (n_surface_sampling n_bbox_sampling n_volume_sampling : nat)
    (sigma : Q) (with_surface_points_noise : bool) (s : rng S)
    : Result (SampledBlocks S) :=
  let sigma := if negb with_surface_points_noise then 0%Q else sigma in
  let (surface_points_sampled, s1) :=
    sample_surface S mesh n_surface_sampling s in
  let (noise, s2) :=
    random_normal S sigma (length surface_points_sampled) s1 in
  let surface_points_sampled := add_rows surface_points_sampled noise in
  match bounds mesh with
  | None => Raise TypeError
  | Some (lo, hi) =>
      let (bbox_points_sampled, s3) :=
        random_uniform S lo hi n_bbox_sampling s2 in
      let (volume_points_sampled, s4) :=
        random_sample3 S n_volume_sampling s3 in
      Ok {| surface_block := surface_points_sampled;
            bbox_block := bbox_points_sampled;
            volume_block := volume_points_sampled;
            rng_after := s4 |}
  end.

(** [sample_pts] *)
Definition sample_pts (S : Sampler) (mesh : Mesh)
    (n_surface_sampling n_bbox_sampling n_volume_sampling : nat)
    (sigma : Q) (with_surface_points_noise : bool) (s : rng S)
    : Result (list Vec3 * rng S) :=
  b <- sample_blocks S mesh n_surface_sampling n_bbox_sampling
         n_volume_sampling sigma with_surface_points_noise s ;;
  Ok (surface_block b ++ bbox_block b ++ volume_block b, rng_after b).

(** A deterministic sampler for the examples: the generator state counts
    the rows drawn so far. *)
Definition tenth (k : nat) : Q := (Z.of_nat (k mod 10) # 10)%Q.

Definition counting_sampler : Sampler := {|
  rng := nat;
  sample_surface := fun m n s => (repeat (hd vzero (vertices m)) n, s + n);
  random_normal := fun sigma n s =>
    (repeat {| vx := sigma; vy := - sigma; vz := 0 |}%Q n, s + n);
  random_sample3 := fun n s =>
    (map (fun i => {| vx := tenth (s + i); vy := tenth (s + i + 3);
                      vz := tenth (s + i + 7) |}) (seq 0 n), s + n)
|}.

(** ** Files and collaborators of the synthesis *)

Inductive File : Type :=
| MeshFile (m : Mesh)
| LedgerFile (data : list SynthesisRecord).

(** The files on disk, by path. *)
Definition Disk : Type := string -> option File.

Definition path_exists (d : Disk) (p : string) : bool :=
  match d p with
  | Some _ => true
  | None => false
  end.

Definition write (p : string) (f : File) (d : Disk) : Disk :=
  fun q => if String.eqb q p then Some f else d q.

(** What a run can change outside its own variables: the disk, and how many
    times the decoder has been called. *)
Record World : Type := {
  disk : Disk;
  decoder_calls : nat
}.

(** [SDFdecoder]: the trained latent codes and the forward pass on a batch
    of rows [[latent, x, y, z]], one prediction per row. *)
Record SDFdecoder : Type := {
  latent_codes : list Tensor.t;
  forward : list Tensor.t -> list Q
}.

(** [ReconstructorHelper]: the grid generator, returning the coordinates
    and the grid size per axis, and the iso-surface extraction, which
    returns no mesh when there is no surface. *)
Record Reconstructor : Type := {
  get_volume_coords : nat -> list Vec3 * nat;
  extract_mesh : nat -> list Q -> bool -> bool -> bool -> option Mesh
}.

(** ** [Synthesizer.synthesize] *)

Fixpoint chunks {A : Type} (fuel : nat) (split_size : nat) (l : list A)
    : list (list A) :=
  match fuel with
  | 0 => []
  | S fuel' =>
      match l with
      | [] => []
      | _ => firstn split_size l
             :: chunks fuel' split_size (skipn split_size l)
      end
  end.

(** [torch.split(tensor, split_size)] along the first dimension: chunks of
    [split_size] rows, the last one possibly shorter; a zero [split_size]
    is accepted only for a tensor without rows ("split_size can only be 0
    if dimension size is 0"), and there is always at least one chunk. *)
Definition torch_split {A : Type} (l : list A) (split_size : nat)
    : Result (list (list A)) :=
  if (Nat.eqb split_size 0 && negb (Nat.eqb (length l) 0))%bool
  then Raise RuntimeError
  else
    match l with
    | [] => Ok [[]]
    | _ => Ok (chunks (length l) split_size l)
    end.

(** One row of [torch.cat([interpolated_repeat, coords_batch], dim=1)]. *)
Definition decoder_row (latent_code : Tensor.t) (p : Vec3) : Tensor.t :=
  latent_code ++ [vx p; vy p; vz p].

(** The predictions of the batches are stacked in order ([sdf] starts
    empty, takes the first prediction and is [vstack]ed with the others);
    [decoder_calls] counts one call per batch. *)
Definition synthesize (R : Reconstructor) (sdf_decoder : SDFdecoder)
    (latent_code : Tensor.t) (save_name : option string) (resolution : nat)
    (normalize map_z_to_y check_watertight : bool) (w : World)
    : Result (option Mesh * World) :=
  let (coords, grid_size_axis) := get_volume_coords R resolution in
  coords_batches <- torch_split coords (length coords / 1000) ;;
  let sdf :=
    flat_map (fun coords_batch =>
                forward sdf_decoder (map (decoder_row latent_code) coords_batch))
             coords_batches in
  let w := {| disk := disk w;
              decoder_calls := decoder_calls w + length coords_batches |} in
  let mesh :=
    extract_mesh R grid_size_axis sdf normalize map_z_to_y check_watertight in
  match mesh, save_name with
  | Some m, Some p =>
      Ok (mesh, {| disk := write p (MeshFile m) (disk w);
                   decoder_calls := decoder_calls w |})
  | _, _ => Ok (mesh, w)
  end.

(** ** [infinite_synthesis] *)

Definition synthesized_latent_codes_npz : string :=
  "infinite_synthesized_latent_codes.npz".

(** The draws of one iteration: the coin choosing the arithmetic path, and
    the draws of the selection that follows. *)
Record Draws : Type := {
  pick_arithmetic : bool;
  selection : Selection
}.

Inductive Outcome : Type := Skipped | Extended.

Record LoopState : Type := {
  ledger : list SynthesisRecord;
  world : World
}.

(** The selection at the head of the loop body: the type, the file name
    and the latent code of the candidate. *)
Definition candidate (sdf_decoder : SDFdecoder)
    (data : list SynthesisRecord) (d : Draws)
    : Result (SynthesisType * string * Tensor.t) :=
  let trained := length (latent_codes sdf_decoder) in
  if pick_arithmetic d then
    r <- random_arithmetic_operations_synthesis trained data (selection d) ;;
    let (selected_indices, synthesized_latent_code) := r in
    Ok (arithmetic, (selected_indices ++ ".obj")%string,
        synthesized_latent_code)
  else
    r <- random_interpolation_synthesis trained data (selection d) ;;
    let '(selected_indices, random_interpolation_factor,
          synthesized_latent_code) := r in
    Ok (interpolation,
        (selected_indices ++ "__"
           ++ dot_to_dash (str_of_milli random_interpolation_factor)
           ++ ".obj")%string,
        synthesized_latent_code).

(** One pass through the body of the [while] loop. *)
Definition iteration (R : Reconstructor) (sdf_decoder : SDFdecoder)
    (save_dir : string) (resolution : nat)
    (map_z_to_y check_watertight : bool) (d : Draws) (st : LoopState)
    : Result (Outcome * LoopState) :=
  let synthesized_latent_codes_path :=
    path_join save_dir synthesized_latent_codes_npz in
  c <- candidate sdf_decoder (ledger st) d ;;
  let '(type, file_name, synthesized_latent_code) := c in
  let save_name := path_join save_dir file_name in
  if path_exists (disk (world st)) save_name then Ok (Skipped, st)
  else
    r <- synthesize R sdf_decoder synthesized_latent_code (Some save_name)
           resolution true map_z_to_y check_watertight (world st) ;;
    let w := snd r in
    let synthesized_data :=
      {| name := NameStr file_name;
         index := length (ledger st);
         synthesis_type := type;
         latent_code := synthesized_latent_code |} in
    let data := ledger st ++ [synthesized_data] in
    Ok (Extended,
        {| ledger := data;
           world := {| disk := write synthesized_latent_codes_path
                                 (LedgerFile data) (disk w);
                       decoder_calls := decoder_calls w |} |}).

(** [len(data) < synthesis_count], where no count stands for [np.inf]. *)
Definition below_count (n : nat) (synthesis_count : option nat) : bool :=
  match synthesis_count with
  | None => true
  | Some c => Nat.ltb n c
  end.

(** The [while] loop on a finite supply of draws: it stops when the
    condition fails, when an iteration raises, or when the supply is used
    up, and reports the outcome of each iteration run. *)
Fixpoint synthesis_loop (R : Reconstructor) (sdf_decoder : SDFdecoder)
    (save_dir : string) (synthesis_count : option nat) (resolution : nat)
    (map_z_to_y check_watertight : bool) (draws : list Draws)
    (st : LoopState) : Result (list Outcome * LoopState) :=
  match draws with
  | [] => Ok ([], st)
  | d :: rest =>
      if below_count (length (ledger st)) synthesis_count then
        r <- iteration R sdf_decoder save_dir resolution map_z_to_y
               check_watertight d st ;;
        r' <- synthesis_loop R sdf_decoder save_dir synthesis_count
                resolution map_z_to_y check_watertight rest (snd r) ;;
        Ok (fst r :: fst r', snd r')
      else Ok ([], st)
  end.

Definition infinite_synthesis (R : Reconstructor) (sdf_decoder : SDFdecoder)
    (save_dir : string) (synthesis_count : option nat) (resolution : nat)
    (map_z_to_y check_watertight : bool) (draws : list Draws) (w : World)
    : Result (list Outcome * LoopState) :=
  let synthesized_latent_codes_path :=
    path_join save_dir synthesized_latent_codes_npz in
  data <- match disk w synthesized_latent_codes_path with
          | None => Ok (seed (latent_codes sdf_decoder))
          | Some (LedgerFile data) => Ok data
          | Some (MeshFile _) => Raise ValueError
          end ;;
  synthesis_loop R sdf_decoder save_dir synthesis_count resolution
    map_z_to_y check_watertight draws {| ledger := data; world := w |}.

Definition count_extended (os : list Outcome) : nat :=
  List.length (filter (fun o => match o with Extended => true | _ => false end) os).

(** Every record sits at the position its index names. *)
Definition index_is_position (data : list SynthesisRecord) : Prop :=
  forall k r, nth_error data k = Some r -> index r = k.

(** ** [trace_back_to_origin] *)

(** [a[i]] with Python's negative positions. *)
Definition py_index {A : Type} (l : list A) (i : Z) : Result A :=
  let n := Z.of_nat (length l) in
  let j := if (i <? 0)%Z then (i + n)%Z else i in
  if ((j <? 0) || (n <=? j))%Z%bool then Raise IndexError
  else
    match nth_error l (Z.to_nat j) with
    | Some x => Ok x
    | None => Raise IndexError
    end.

Fixpoint map_result {A B : Type} (f : A -> Result B) (l : list A)
    : Result (list B) :=
  match l with
  | [] => Ok []
  | x :: l' =>
      y <- f x ;;
      ys <- map_result f l' ;;
      Ok (y :: ys)
  end.

(** The list [indices] computed for a record that is not initial. *)
Definition parent_indices (current_data : SynthesisRecord)
    : Result (list Z) :=
  match synthesis_type current_data, name current_data with
  | initial, _ => Ok []
  | _, NameInt _ => Raise AttributeError
  | interpolation, NameStr s =>
      map_result py_int (removelast (split_dunder s))
  | arithmetic, NameStr s =>
      map_result (fun i => py_int (remove_obj i)) (split_dunder s)
  end.

(** The [while queue] loop; [None] when [fuel] iterations did not empty
    the queue. *)
Fixpoint trace_loop (fuel : nat) (latent_codes_data : list SynthesisRecord)
    (queue : list Z) (traced_data : list SynthesisRecord) {struct fuel}
    : option (Result (list SynthesisRecord)) :=
  match queue with
  | [] => Some (Ok traced_data)
  | current_index :: queue =>
      match fuel with
      | 0 => None
      | S fuel =>
          match py_index latent_codes_data current_index with
          | Raise e => Some (Raise e)
          | Ok current_data =>
              let traced_data := traced_data ++ [current_data] in
              match synthesis_type current_data with
              | initial =>
                  trace_loop fuel latent_codes_data queue traced_data
              | _ =>
                  match parent_indices current_data with
                  | Raise e => Some (Raise e)
                  | Ok indices =>
                      trace_loop fuel latent_codes_data (queue ++ indices)
                        traced_data
                  end
              end
          end
      end
  end.

Definition trace_back_to_origin (fuel : nat)
    (latent_codes_data : list SynthesisRecord) (index : Z)
    : option (Result (list SynthesisRecord)) :=
  trace_loop fuel latent_codes_data [index] [].

(** The traversal in the words of the specification: breadth first, level
    after level, every visit kept.  [record_parents] reads the parents of
    the record at position [i]. *)
Definition record_parents (data : list SynthesisRecord) (i : Z) : list Z :=
  match py_index data i with
  | Ok r =>
      match parent_indices r with
      | Ok ps => ps
      | Raise _ => []
      end
  | Raise _ => []
  end.

Fixpoint level_order (depth : nat) (data : list SynthesisRecord)
    (frontier : list Z) : list Z :=
  match depth with
  | 0 => []
  | S d =>
      frontier ++ level_order d data (flat_map (record_parents data) frontier)
  end.

Definition records_at (data : list SynthesisRecord) (idxs : list Z)
    : list SynthesisRecord :=
  flat_map (fun i => match py_index data i with
                     | Ok r => [r]
                     | Raise _ => []
                     end) idxs.

(** A ledger whose names parse, every parent standing before its child. *)
Definition provenance_ok (data : list SynthesisRecord) : Prop :=
  forall k r, nth_error data k = Some r ->
    exists ps, parent_indices r = Ok ps /\
               Forall (fun p => (0 <= p < Z.of_nat k)%Z) ps.

(** The names the loop gives to its files. *)
Definition interpolation_name (i1 i2 m : nat) : string :=
  (str_of_nat i1 ++ "__" ++ str_of_nat i2 ++ "__"
     ++ dot_to_dash (str_of_milli m) ++ ".obj")%string.

Definition arithmetic_name (i0 i1 i2 : nat) : string :=
  (str_of_nat i0 ++ "__" ++ str_of_nat i1 ++ "__" ++ str_of_nat i2
     ++ ".obj")%string.

(** ** Collaborators used in the examples *)

Definition magnitude (q : Q) : Q := Qmax q (- q)%Q.

(** A geometry library whose loader returns the given mesh, taken as
    watertight.  Its norm agrees with the Euclidean one on vectors along an
    axis, the only ones the examples measure. *)
Definition geometry_of (m : Mesh) : Geometry := {|
  trimesh_load := fun _ => m;
  fix_normals := fun x => x;
  is_watertight := fun _ => true;
  make_mesh_watertight := fun x => x;
  linalg_norm := fun v => (magnitude (vx v) + magnitude (vy v) + magnitude (vz v))%Q
|}.

Definition mesh_of (vs : list Vec3) : Mesh :=
  {| vertices := vs; faces := []; path := None |}.

(** Three vertices on the x axis, two of them at the origin. *)
Definition lopsided : Mesh :=
  mesh_of [ {| vx := 0; vy := 0; vz := 0 |};
            {| vx := 0; vy := 0; vz := 0 |};
            {| vx := 4; vy := 0; vz := 0 |} ]%Q.

Definition arrow : Mesh :=
  mesh_of [ {| vx := 2; vy := 0; vz := 0 |} ]%Q.

Definition first_three : Selection :=
  {| restrict_to_trained := false; sample_draws := [0; 0; 0];
     factor_milli := 500 |}.

Definition empty_disk : Disk := fun _ => None.

Definition fresh_world : World := {| disk := empty_disk; decoder_calls := 0 |}.

Definition lattice_axis (r : nat) : list Q :=
  map (fun i => (Z.of_nat i # Pos.of_nat r)%Q) (seq 0 r).

Definition lattice (r : nat) : list Vec3 :=
  flat_map (fun x =>
    flat_map (fun y =>
      map (fun z => {| vx := x; vy := y; vz := z |}) (lattice_axis r))
      (lattice_axis r))
    (lattice_axis r).

Definition unit_tetrahedron : Mesh := {|
  vertices := [ {| vx := 0; vy := 0; vz := 0 |};
                {| vx := 1; vy := 0; vz := 0 |};
                {| vx := 0; vy := 1; vz := 0 |};
                {| vx := 0; vy := 0; vz := 1 |} ]%Q;
  faces := [(0, 1, 2); (0, 1, 3); (0, 2, 3); (1, 2, 3)];
  path := None
|}.

Definition is_negative (q : Q) : bool :=
  match Qcompare q 0 with
  | Lt => true
  | _ => false
  end.

(** A lattice of [r^3] points, and an extraction that finds a surface
    exactly when the predictions change sign. *)
Definition lattice_reconstructor : Reconstructor := {|
  get_volume_coords := fun r => (lattice r, r);
  extract_mesh := fun _ sdf _ _ _ =>
    if (existsb is_negative sdf && existsb (fun q => negb (is_negative q)) sdf)%bool
    then Some unit_tetrahedron else None
|}.

(** A decoder whose prediction is the distance-like value
    [x + y + z - 1 + first latent entry]. *)
Definition plane_decoder (codes : list Tensor.t) : SDFdecoder := {|
  latent_codes := codes;
  forward := map (fun row =>
    (hd 0 row + nth 1 (rev row) 0 + nth 2 (rev row) 0 + hd 0 (rev row) - 1)%Q)
|}.

Definition three_codes : list Tensor.t :=
  [[0; 0]; [2; 2]; [1; 3]]%Q.

(** What [candidate] returns: a type that is not initial, and a file name
    built from the indices of records of the ledger. *)
Inductive candidate_of (data : list SynthesisRecord)
    : SynthesisType -> string -> list nat -> Prop :=
| candidate_arithmetic e0 e1 e2 :
    In e0 data -> In e1 data -> In e2 data ->
    candidate_of data arithmetic
      (arithmetic_name (index e0) (index e1) (index e2))
      [index e0; index e1; index e2]
| candidate_interpolation e1 e2 m :
    In e1 data -> In e2 data ->
    candidate_of data interpolation
      (interpolation_name (index e1) (index e2) m)
      [index e1; index e2].

(** A ledger in which record 2 is reached twice from record 4: once
    directly and once through record 3. *)
Definition diamond : list SynthesisRecord :=
  seed [[0; 0]; [2; 2]]%Q ++
  [ {| name := NameStr (interpolation_name 0 1 500); index := 2;
       synthesis_type := interpolation; latent_code := [1; 1]%Q |};
    {| name := NameStr (interpolation_name 0 2 250); index := 3;
       synthesis_type := interpolation; latent_code := [1 # 4; 1 # 4]%Q |};
    {| name := NameStr (arithmetic_name 3 2 0); index := 4;
       synthesis_type := arithmetic; latent_code := [5 # 4; 5 # 4]%Q |} ].

(** Draws used in the examples. *)
Definition arithmetic_201 : Draws :=
  {| pick_arithmetic := true;
     selection := {| restrict_to_trained := false; sample_draws := [2; 0; 0];
                     factor_milli := 500 |} |}.

Definition arithmetic_012 : Draws :=
  {| pick_arithmetic := true; selection := first_three |}.

Definition blend_01 : Draws :=
  {| pick_arithmetic := false;
     selection := {| restrict_to_trained := true; sample_draws := [0; 0];
                     factor_milli := 500 |} |}.

Definition fresh_state : LoopState :=
  {| ledger := seed three_codes; world := fresh_world |}.

(** The state of a run that already holds the file ["out/2__0__1.obj"]. *)
Definition state_with_file : LoopState :=
  {| ledger := seed three_codes;
     world := {| disk := write "out/2__0__1.obj" (MeshFile unit_tetrahedron)
                           empty_disk;
                 decoder_calls := 0 |} |}.

(** ** Further definitions *)

(** The ledger file and the ledger in memory agree: the file holds the
    ledger, or there is no file yet and the ledger is the seed. *)
Definition ledger_in_sync (sdf_decoder : SDFdecoder) (save_dir : string)
    (st : LoopState) : Prop :=
  match disk (world st) (path_join save_dir synthesized_latent_codes_npz) with
  | Some (LedgerFile data) => data = ledger st
  | Some (MeshFile _) => False
  | None => ledger st = seed (latent_codes sdf_decoder)
  end.

(** ** [visualize_traced_data_as_graph] *)

(** Decimal digits only: the text that [int] reads as a number. *)
Fixpoint all_digits (s : string) : bool :=
  match s with
  | EmptyString => true
  | String c rest => (is_digit c && all_digits rest)%bool
  end.

(** The characters of a string are the code points below 256.  Among
    them [str.isdigit] accepts, besides the ten decimal digits, the
    superscripts two, three and one (code points 178, 179 and 185), which
    [int] does not read. *)
Definition superscript_two : ascii := ascii_of_nat 178.
Definition superscript_three : ascii := ascii_of_nat 179.
Definition superscript_one : ascii := ascii_of_nat 185.

Definition is_superscript_digit (c : ascii) : bool :=
  (Ascii.eqb c superscript_two || Ascii.eqb c superscript_three
   || Ascii.eqb c superscript_one)%bool.

Fixpoint all_isdigit (s : string) : bool :=
  match s with
  | EmptyString => true
  | String c rest =>
      ((is_digit c || is_superscript_digit c) && all_isdigit rest)%bool
  end.

(** [s.isdigit()]: not empty, and every character a digit. *)
Definition isdigit (s : string) : bool :=
  match s with
  | EmptyString => false
  | _ => all_isdigit s
  end.

(** [networkx.DiGraph] as far as the code uses it: the nodes in insertion
    order, each with its ["label"] attribute if it was given one, and the
    edges in insertion order. *)
Record DiGraph : Type := {
  nodes : list (Z * option Z);
  edges : list (Z * Z)
}.

Definition empty_graph : DiGraph := {| nodes := []; edges := [] |}.

Definition has_node (g : DiGraph) (n : Z) : bool :=
  existsb (fun p => Z.eqb (fst p) n) (nodes g).

Definition has_edge (g : DiGraph) (u v : Z) : bool :=
  existsb (fun e => (Z.eqb (fst e) u && Z.eqb (snd e) v)%bool) (edges g).

(** [graph.add_node(n, label=label)]: a new node is appended; a node
    already there keeps its place and takes the attribute. *)
Definition add_node (g : DiGraph) (n label : Z) : DiGraph :=
  if has_node g n then
    {| nodes := map (fun p => if Z.eqb (fst p) n then (n, Some label) else p)
                    (nodes g);
       edges := edges g |}
  else {| nodes := nodes g ++ [(n, Some label)]; edges := edges g |}.

(** [graph.add_edge(u, v)]: both ends become nodes if they are not yet,
    first [u] then [v]; an edge already there is not added again. *)
Definition add_edge (g : DiGraph) (u v : Z) : DiGraph :=
  let with_u := if has_node g u then nodes g else nodes g ++ [(u, None)] in
  let with_v :=
    if existsb (fun p => Z.eqb (fst p) v) with_u then with_u
    else with_u ++ [(v, None)] in
  {| nodes := with_v;
     edges := if has_edge g u v then edges g else edges g ++ [(u, v)] |}.

(** The list [indices] of the graph: the components of the name that are
    numbers once [".obj"] is removed. *)
Definition graph_indices (data : SynthesisRecord) : Result (list Z) :=
  match name data with
  | NameInt _ => Raise AttributeError
  | NameStr s =>
      map_result (fun i => py_int (remove_obj i))
        (filter (fun i => isdigit (remove_obj i)) (split_dunder s))
  end.

(** The loop [for data in traced_data]. *)
Fixpoint build_graph (traced_data : list SynthesisRecord) (graph : DiGraph)
    : Result DiGraph :=
  match traced_data with
  | [] => Ok graph
  | data :: rest =>
      let current_index := Z.of_nat (index data) in
      let graph := add_node graph current_index current_index in
      match synthesis_type data with
      | initial => build_graph rest graph
      | _ =>
          indices <- graph_indices data ;;
          build_graph rest
            (fold_left (fun g idx => add_edge g idx current_index)
                       indices graph)
      end
  end.

(** What is handed to the drawing routine. *)
Record Drawing : Type := {
  drawn_graph : DiGraph;
  labels : list (Z * Z);
  node_colors : list string;
  node_sizes : list nat
}.

Definition node_base_size : nat := 300.

(** [visualize_traced_data_as_graph], up to the call of [nx.draw]. *)
Definition visualize_traced_data_as_graph (fuel : nat)
    (latent_codes_data : list SynthesisRecord) (index : Z)
    : option (Result Drawing) :=
  match trace_back_to_origin fuel latent_codes_data index with
  | None => None
  | Some (Raise e) => Some (Raise e)
  | Some (Ok traced_data) =>
      Some (graph <- build_graph traced_data empty_graph ;;
            Ok {| drawn_graph := graph;
                  labels :=
                    flat_map (fun p => match snd p with
                                       | Some l => [(fst p, l)]
                                       | None => []
                                       end) (nodes graph);
                  node_colors :=
                    map (fun p => if Z.eqb (fst p) index
                                  then "red"%string else "gray"%string)
                        (nodes graph);
                  node_sizes :=
                    map (fun p => if Z.eqb (fst p) index
                                  then node_base_size * 2
                                  else node_base_size)
                        (nodes graph) |})
  end.

(** The structure a graph keeps: no node twice, no edge twice, and every
    edge between two nodes. *)
Definition graph_ok (g : DiGraph) : Prop :=
  NoDup (map fst (nodes g)) /\
  NoDup (edges g) /\
  forall u v, In (u, v) (edges g) ->
    In u (map fst (nodes g)) /\ In v (map fst (nodes g)).

(** ** The corpus ([DataCreator]) *)

(** A point inside a box, bounds included. *)
Definition within_box (lo hi p : Vec3) : Prop :=
  (vx lo <= vx p <= vx hi /\ vy lo <= vy p <= vy hi /\
   vz lo <= vz p <= vz hi)%Q.

(** What the scaling relies on in [np.linalg.norm]: it is not negative and
    follows a scaling by a factor that is not negative. *)
Record norm_ok (G : Geometry) : Prop := {
  norm_nonneg : forall v, (0 <= linalg_norm G v)%Q;
  norm_scale : forall v s, (0 <= s)%Q ->
    (linalg_norm G (vscale v s) == linalg_norm G v * s)%Q
}.

(** [s.endswith(suffix)]: some tail of [s] is the suffix. *)
Fixpoint ends_with (suffix s : string) : bool :=
  (String.eqb s suffix
   || match s with
      | EmptyString => false
      | String _ rest => ends_with suffix rest
      end)%bool.

(** [_load_meshes_and_compute_max_norm]; [listing] is what [os.listdir]
    returns.  The pool maps the tasks in their order; unpacking the
    transposed results fails when there is no result. *)
Definition load_meshes_and_compute_max_norm (G : Geometry)
    (listing : list string) (raw_data_path : string)
    (map_z_to_y check_watertight : bool) (translate_mode : string)
    : Result (list Mesh * Q) :=
  let paths :=
    map (fun file => path_join raw_data_path file)
        (filter (ends_with ".obj") listing) in
  results <- map_result
               (fun path => load_mesh_and_compute_max_norm G path map_z_to_y
                              check_watertight translate_mode) paths ;;
  match results with
  | [] => Raise ValueError
  | (_, l) :: rest =>
      Ok (map fst results, fold_left Qmax (map snd rest) l)
  end.

(** [os.path.basename(p)]: what follows the last ["/"]. *)
Fixpoint basename_from (cur : string) (p : string) : string :=
  match p with
  | EmptyString => cur
  | String c rest =>
      if Ascii.eqb c "/" then basename_from EmptyString rest
      else basename_from (cur ++ String c EmptyString) rest
  end.

Definition basename (p : string) : string := basename_from EmptyString p.

(** [s.split(".")[0]]: what precedes the first ["."]. *)
Fixpoint before_first_dot (s : string) : string :=
  match s with
  | EmptyString => EmptyString
  | String c rest =>
      if Ascii.eqb c "." then EmptyString
      else String c (before_first_dot rest)
  end.

(** One training archive, as [np.savez] receives it. *)
Record Archive : Type := {
  xyz : list Vec3;
  sdf : list Q;
  cls : nat;
  cls_name : string
}.

(** The collaborators of [create]: the signed distance kernel (one
    distance per point) and the sampling policy of the configuration. *)
Record Corpus : Type := {
  signed_distance_to_mesh : list Vec3 -> Mesh -> list Q;
  get_dynamic_sampling_size : nat -> nat * nat * nat
}.

Definition distance_ok (C : Corpus) : Prop :=
  forall points mesh,
    length (signed_distance_to_mesh C points mesh) = length points.

(** The fields of a [DataCreator]. *)
Record DataCreator : Type := {
  n_surface_sampling : nat;
  n_bbox_sampling : nat;
  n_volume_sampling : nat;
  raw_data_path : string;
  save_path : string;
  translate_mode : string;
  dynamic_sampling : bool
}.

Definition with_sampling (self : DataCreator) (sizes : nat * nat * nat)
    : DataCreator :=
  {| n_surface_sampling := fst (fst sizes);
     n_bbox_sampling := snd (fst sizes);
     n_volume_sampling := snd sizes;
     raw_data_path := raw_data_path self;
     save_path := save_path self;
     translate_mode := translate_mode self;
     dynamic_sampling := dynamic_sampling self |}.

(** The state of the loop of [create]: the creator with its current
    sampling sizes, the generator, the counter [cls], and the calls of
    [np.savez] made so far, each with its path. *)
Record CreateState (S : Sampler) : Type := {
  creator : DataCreator;
  generator : rng S;
  next_cls : nat;
  saved : list (string * Archive)
}.

(** The body of [for mesh in meshes]. *)
Definition create_step (G : Geometry) (S : Sampler) (C : Corpus)
    (max_length : Q) (st : CreateState S) (mesh : Mesh)
    : Result (CreateState S) :=
  normalized_mesh <- get_normalized_mesh G mesh (Some max_length) ;;
  let centralized_mesh :=
    with_vertices normalized_mesh
      (map (fun v => vadd v {| vx := 1 # 2; vy := 1 # 2; vz := 0 |})
           (vertices normalized_mesh)) in
  let self :=
    if dynamic_sampling (creator st)
    then with_sampling (creator st)
           (get_dynamic_sampling_size C (length (vertices mesh)))
    else creator st in
  r <- sample_pts S centralized_mesh (n_surface_sampling self)
         (n_bbox_sampling self) (n_volume_sampling self) (1 # 100) true
         (generator st) ;;
  let (points, s') := r in
  let distances := signed_distance_to_mesh C points centralized_mesh in
  match path mesh with
  | None => Raise AttributeError
  | Some p =>
      let name := before_first_dot (basename p) in
      Ok {| creator := self;
            generator := s';
            next_cls := next_cls st + 1;
            saved := saved st ++
                     [ (path_join (save_path self) (name ++ ".npz"),
                        {| xyz := points; sdf := distances;
                           cls := next_cls st; cls_name := name |}) ] |}
  end.

Fixpoint create_loop (G : Geometry) (S : Sampler) (C : Corpus)
    (max_length : Q) (meshes : list Mesh) (st : CreateState S)
    : Result (CreateState S) :=
  match meshes with
  | [] => Ok st
  | mesh :: rest =>
      st' <- create_step G C max_length st mesh ;;
      create_loop G C max_length rest st'
  end.

(** [DataCreator.create]; the directory [save_path] is made when it is
    missing, which no later step observes. *)
Definition create (G : Geometry) (S : Sampler) (C : Corpus)
    (self : DataCreator) (listing : list string) (s : rng S)
    : Result (CreateState S) :=
  r <- load_meshes_and_compute_max_norm G listing (raw_data_path self)
         true true (translate_mode self) ;;
  let (meshes, max_length) := r in
  create_loop G C max_length meshes
    {| creator := self; generator := s; next_cls := 0; saved := [] |}.

(** The sizes an archive is sampled with. *)
Definition sampling_total (C : Corpus) (self : DataCreator) (mesh : Mesh)
    : nat :=
  if dynamic_sampling self then
    let sizes := get_dynamic_sampling_size C (length (vertices mesh)) in
    fst (fst sizes) + snd (fst sizes) + snd sizes
  else n_surface_sampling self + n_bbox_sampling self
       + n_volume_sampling self.

(** What [create] is to save for the mesh at position [k] of the corpus:
    an archive named after the text of the file name before its first dot,
    with class [k], and one distance per sampled point. *)
Definition archived (C : Corpus) (self : DataCreator) (k : nat)
    (mesh : Mesh) (w : string * Archive) : Prop :=
  exists p,
    path mesh = Some p /\
    fst w = path_join (save_path self)
              (before_first_dot (basename p) ++ ".npz") /\
    cls (snd w) = k /\
    cls_name (snd w) = before_first_dot (basename p) /\
    length (xyz (snd w)) = sampling_total C self mesh /\
    length (sdf (snd w)) = length (xyz (snd w)).

(** A corpus for the examples: a directory of two meshes, distances read
    off the height of a point, and a sampling policy that grows with the
    mesh. *)
Definition two_meshes : Geometry := {|
  trimesh_load := fun p =>
    if String.eqb p "raw/a.obj" then lopsided else arrow;
  fix_normals := fun x => x;
  is_watertight := fun _ => true;
  make_mesh_watertight := fun x => x;
  linalg_norm := fun v =>
    (magnitude (vx v) + magnitude (vy v) + magnitude (vz v))%Q
|}.

Definition height_corpus : Corpus := {|
  signed_distance_to_mesh := fun points _ => map vz points;
  get_dynamic_sampling_size := fun n => (n, 2 * n, 1)
|}.

Definition raw_listing : list string :=
  ["a.obj"; "notes.txt"; "b.obj"]%string.

Definition small_creator (dynamic : bool) : DataCreator := {|
  n_surface_sampling := 2;
  n_bbox_sampling := 1;
  n_volume_sampling := 3;
  raw_data_path := "raw";
  save_path := "out";
  translate_mode := MIN_BOUND;
  dynamic_sampling := dynamic
|}.

(** * Properties *)

Unset Implicit Arguments.

(** ** Tensors *)

Lemma bind_ok {A B : Type} (r : Result A) (k : A -> Result B) (b : B) :
  bind r k = Ok b -> exists a, r = Ok a /\ k a = Ok b.
Proof.
  destruct r as [a | e]; simpl; intros H; [ eauto | discriminate ].
Qed.

Lemma eqv_refl (a : Tensor.t) : Tensor.eqv a a.
Proof.
  induction a; constructor; [ reflexivity | assumption ].
Qed.

Lemma scale_length (a : Tensor.t) (s : Q) :
  length (Tensor.scale a s) = length a.
Proof. apply length_map. Qed.

Lemma zip_with_length (f : Q -> Q -> Q) (a b : Tensor.t) :
  length a = length b -> length (Tensor.zip_with f a b) = length a.
Proof.
  revert b; induction a as [| x a IH]; intros [| y b] H; simpl in *;
    try discriminate; auto.
Qed.

Lemma binop_same_shape (f : Q -> Q -> Q) (a b : Tensor.t) :
  length a = length b -> Tensor.binop f a b = Ok (Tensor.zip_with f a b).
Proof.
  intros H. unfold Tensor.binop. rewrite H, Nat.eqb_refl. reflexivity.
Qed.

(** Blending with factor [0] keeps the left tensor, with factor [1] the
    right one. *)
Lemma blend_zero (a b : Tensor.t) :
  length a = length b ->
  Tensor.eqv (Tensor.zip_with Qplus (Tensor.scale a (1 - 0)%Q)
                                    (Tensor.scale b 0%Q)) a.
Proof.
  revert b; induction a as [| x a IH]; intros [| y b] H; simpl in *;
    try discriminate; constructor.
  - ring.
  - apply IH. congruence.
Qed.

Lemma blend_one (a b : Tensor.t) :
  length a = length b ->
  Tensor.eqv (Tensor.zip_with Qplus (Tensor.scale a (1 - 1)%Q)
                                    (Tensor.scale b 1%Q)) b.
Proof.
  revert b; induction a as [| x a IH]; intros [| y b] H; simpl in *;
    try discriminate; constructor.
  - ring.
  - apply IH. congruence.
Qed.

(** ** [interpolate] *)

Lemma interpolate_spec_raise (e : PyError) (l : list (Tensor.t * Q)) :
  fold_left interpolate_spec_step l (Raise e) = Raise e.
Proof.
  induction l as [| cf l IH]; simpl; auto.
Qed.

(** The indexed loop of the code, started at position [fi], is the fold
    over the codes that follow that position. *)
Lemma interpolate_loop_fold (codes : list Tensor.t) :
  forall (factors : list Q) (fi : nat) (acc : Tensor.t) (rest : list Tensor.t),
    skipn (fi + 1) codes = rest ->
    length rest = length factors ->
    interpolate_loop codes fi factors acc
    = fold_left interpolate_spec_step (combine rest factors) (Ok acc).
Proof.
  induction factors as [| f factors IH]; intros fi acc rest Hskip Hlen.
  - destruct rest; reflexivity.
  - destruct rest as [| c rest]; [ discriminate |].
    simpl in Hlen. injection Hlen as Hlen.
    assert (Hnth : nth_error codes (fi + 1) = Some c).
    { rewrite <- (firstn_skipn (fi + 1) codes) at 1.
      assert (Hl : length (firstn (fi + 1) codes) = fi + 1).
      { apply firstn_length_le.
        assert (length (skipn (fi + 1) codes) = S (length rest))
          by (rewrite Hskip; reflexivity).
        rewrite length_skipn in H. lia. }
      rewrite nth_error_app2 by lia.
      rewrite Hl, Nat.sub_diag, Hskip. reflexivity. }
    cbn [interpolate_loop]. rewrite Hnth.
    cbn [combine fold_left]. unfold interpolate_spec_step at 2.
    cbn [bind fst snd].
    destruct (Tensor.add (Tensor.scale acc (1 - f)) (Tensor.scale c f))
      as [next | e]; cbn [bind].
    + apply IH; [| assumption ].
      replace (S fi + 1) with (S (fi + 1)) by lia.
      rewrite <- (Nat.add_1_l (fi + 1)), <- skipn_skipn, Hskip.
      reflexivity.
    + symmetry. apply interpolate_spec_raise.
Qed.

(** C2.  [interpolate([a], [])] is [a]; for two codes of one dimension,
    factor [0.0] gives the values of the first code and factor [1.0] those
    of the second; and for [k+1] codes and [k] factors the result is the
    left fold [result := result*(1-f_i) + codes[i+1]*f_i] from
    [codes[0]]. *)
Theorem interpolate_identities :
  (forall a : Tensor.t, interpolate [a] [] = Ok a) /\
  (forall a b : Tensor.t, length a = length b ->
     exists r, interpolate [a; b] [0%Q] = Ok r /\ Tensor.eqv r a) /\
  (forall a b : Tensor.t, length a = length b ->
     exists r, interpolate [a; b] [1%Q] = Ok r /\ Tensor.eqv r b) /\
  (forall (c0 : Tensor.t) (rest : list Tensor.t) (factors : list Q),
     length rest = length factors ->
     interpolate (c0 :: rest) factors = interpolate_spec c0 rest factors).
Proof.
  repeat split.
  - intros a b H. eexists. split.
    + unfold interpolate. cbn -[Tensor.add Tensor.scale Qminus].
      unfold Tensor.add. rewrite binop_same_shape
        by (rewrite !scale_length; assumption).
      reflexivity.
    + apply blend_zero. assumption.
  - intros a b H. eexists. split.
    + unfold interpolate. cbn -[Tensor.add Tensor.scale Qminus].
      unfold Tensor.add. rewrite binop_same_shape
        by (rewrite !scale_length; assumption).
      reflexivity.
    + apply blend_one. assumption.
  - intros c0 rest factors H. unfold interpolate, interpolate_spec.
    assert (Hz : Z.eqb (Z.of_nat (length (c0 :: rest)) - 1)
                       (Z.of_nat (length factors)) = true).
    { apply Z.eqb_eq. simpl length. lia. }
    rewrite Hz. cbn [negb].
    destruct (Nat.eqb (length (c0 :: rest)) 1) eqn:E.
    + apply Nat.eqb_eq in E. simpl in E.
      destruct rest; [| discriminate ].
      destruct factors; [ reflexivity | discriminate ].
    + apply interpolate_loop_fold; [ reflexivity | assumption ].
Qed.

Lemma interpolate_identities_witness :
  (exists r, interpolate [[1; 2]; [3; 4]]%Q [0%Q] = Ok r
             /\ Tensor.eqv r [1; 2]%Q) /\
  (exists r, interpolate [[1; 2]; [3; 4]]%Q [1%Q] = Ok r
             /\ Tensor.eqv r [3; 4]%Q) /\
  interpolate [[0; 0]; [2; 2]; [4; 0]]%Q [1 # 2; 1 # 4]%Q
  = interpolate_spec [0; 0]%Q [[2; 2]; [4; 0]]%Q [1 # 2; 1 # 4]%Q.
Proof.
  destruct interpolate_identities as (_ & H0 & H1 & Hfold).
  split; [| split ].
  - apply (H0 [1; 2]%Q [3; 4]%Q). reflexivity.
  - apply (H1 [1; 2]%Q [3; 4]%Q). reflexivity.
  - apply (Hfold [0; 0]%Q [[2; 2]; [4; 0]]%Q [1 # 2; 1 # 4]%Q). reflexivity.
Defined.

(** A count of factors other than the count of codes minus one is
    refused. *)
Lemma interpolate_count_mismatch (codes : list Tensor.t) (factors : list Q) :
  length codes <> S (length factors) ->
  interpolate codes factors = Raise AssertionError.
Proof.
  intros H. unfold interpolate.
  destruct (Z.eqb_spec (Z.of_nat (length codes) - 1)
                       (Z.of_nat (length factors))) as [E | _];
    [ lia | reflexivity ].
Qed.

(** The scenario of the specification: halfway between [[0,0]] and
    [[2,2]] lies [[1,1]]. *)
Example interpolate_halfway :
  exists r, interpolate [[0; 0]; [2; 2]]%Q [1 # 2]%Q = Ok r
            /\ Tensor.eqv r [1; 1]%Q.
Proof.
  eexists. split; [ reflexivity |].
  repeat constructor; reflexivity.
Qed.

(** ** Drawing without replacement *)

Lemma lift_position_neq (j p : nat) : lift_position j p <> j.
Proof.
  unfold lift_position. destruct (Nat.ltb_spec p j); lia.
Qed.

Lemma lift_position_inj (j p q : nat) :
  lift_position j p = lift_position j q -> p = q.
Proof.
  unfold lift_position.
  destruct (Nat.ltb_spec p j), (Nat.ltb_spec q j); lia.
Qed.

Lemma nth_error_remove_at {A : Type} (l : list A) :
  forall j p, nth_error (remove_at j l) p = nth_error l (lift_position j p).
Proof.
  induction l as [| x l IH]; intros j p.
  - destruct j; simpl; rewrite !nth_error_nil; reflexivity.
  - destruct j as [| j].
    + reflexivity.
    + destruct p as [| p]; [ reflexivity |].
      simpl. rewrite IH. unfold lift_position.
      change (Nat.ltb (S p) (S j)) with (Nat.ltb p j).
      destruct (Nat.ltb p j); reflexivity.
Qed.

Lemma remove_at_length {A : Type} (l : list A) :
  forall j, j < length l -> length (remove_at j l) = pred (length l).
Proof.
  induction l as [| x l IH]; intros j Hj; simpl in *; [ lia |].
  destruct j as [| j]; [ reflexivity |].
  simpl. rewrite IH by lia. lia.
Qed.

(** The draws are entries of the pool at pairwise distinct positions. *)
Lemma draw_distinct_positions {A : Type} :
  forall (k : nat) (rs : list nat) (pool : list A),
    exists ps, NoDup ps /\
               Forall2 (fun p x => nth_error pool p = Some x) ps
                       (draw rs pool k).
Proof.
  induction k as [| k IH]; intros rs pool.
  - exists []. split; constructor.
  - cbn [draw].
    destruct (nth_error pool (hd 0 rs mod length pool)) as [x |] eqn:E.
    + destruct (IH (tl rs) (remove_at (hd 0 rs mod length pool) pool))
        as (ps & Hnd & Hall).
      exists (hd 0 rs mod length pool
              :: map (lift_position (hd 0 rs mod length pool)) ps).
      split.
      * constructor.
        -- intros Hin. apply in_map_iff in Hin.
           destruct Hin as (p & Hp & _).
           exact (@lift_position_neq _ _ Hp).
        -- apply Injective_map_NoDup; [| assumption ].
           intros p q. apply lift_position_inj.
      * constructor; [ assumption |].
        clear - Hall. induction Hall as [| p y ps' ys Hp _ IHall];
          constructor; [| assumption ].
        rewrite <- nth_error_remove_at. assumption.
    + exists []. split; constructor.
Qed.

Lemma draw_length {A : Type} :
  forall (k : nat) (rs : list nat) (pool : list A),
    k <= length pool -> length (draw rs pool k) = k.
Proof.
  induction k as [| k IH]; intros rs pool Hk; [ reflexivity |].
  cbn [draw].
  assert (Hj : hd 0 rs mod length pool < length pool)
    by (apply Nat.mod_upper_bound; lia).
  destruct (nth_error pool (hd 0 rs mod length pool)) as [x |] eqn:E.
  - simpl. rewrite IH; [ reflexivity |].
    rewrite remove_at_length by assumption. lia.
  - apply nth_error_None in E. lia.
Qed.

(** Conversely, every selection of pairwise distinct positions, in any
    order, is the outcome of some draws. *)
Lemma lower_positions (p : nat) (ps : list nat) (bound : nat) :
  NoDup ps -> ~ In p ps -> Forall (fun q => q < S bound) ps -> p < S bound ->
  NoDup (map (fun q => if Nat.ltb q p then q else pred q) ps) /\
  Forall (fun q => q < bound)
         (map (fun q => if Nat.ltb q p then q else pred q) ps) /\
  Forall (fun q => lift_position p (if Nat.ltb q p then q else pred q) = q)
         ps.
Proof.
  intros Hnd Hp Hlt Hpb.
  assert (Hback : Forall (fun q => lift_position p
                                     (if Nat.ltb q p then q else pred q) = q)
                         ps).
  { apply Forall_forall. intros q Hq.
    assert (q <> p) by (intros ->; contradiction).
    unfold lift_position.
    destruct (Nat.ltb_spec q p) as [Hqp | Hqp].
    - destruct (Nat.ltb_spec q p); lia.
    - destruct (Nat.ltb_spec (pred q) p); lia. }
  split; [| split; [| exact Hback ] ].
  - clear Hlt Hp. induction Hnd as [| q ps Hq Hnd IH]; cbn [map];
      [ constructor |].
    inversion Hback as [| ? ? Eq Hback']; subst.
    constructor; [| exact (IH Hback') ].
    intros Hin. apply in_map_iff in Hin. destruct Hin as (q' & E & Hq').
    apply Hq. replace q with q'; [ exact Hq' |].
    rewrite Forall_forall in Hback'. rewrite <- (Hback' _ Hq'), E. exact Eq.
  - apply Forall_map. rewrite Forall_forall in *. intros q Hq.
    specialize (Hlt _ Hq).
    assert (q <> p) by (intros ->; contradiction).
    destruct (Nat.ltb_spec q p); lia.
Qed.

Lemma draw_reaches_every_selection {A : Type} (k : nat) :
  forall (ps : list nat) (pool : list A),
    length ps = k ->
    NoDup ps -> Forall (fun p => p < length pool) ps ->
    exists rs, Forall2 (fun p x => nth_error pool p = Some x) ps
                       (draw rs pool k).
Proof.
  induction k as [| k IH]; intros ps pool Hk Hnd Hlt.
  - destruct ps; [| discriminate ]. exists []. constructor.
  - destruct ps as [| p ps]; [ discriminate |]. injection Hk as Hk.
    inversion Hnd as [| ? ? Hp Hnd']; subst.
    inversion Hlt as [| ? ? Hpl Hlt']; subst.
    destruct (nth_error pool p) as [x |] eqn:Ex;
      [| apply nth_error_None in Ex; lia ].
    destruct (length pool) as [| bound] eqn:El; [ lia |].
    destruct (lower_positions p ps bound Hnd' Hp Hlt' Hpl)
      as (Hnd2 & Hlt2 & Hback).
    destruct (IH (map (fun q => if Nat.ltb q p then q else pred q) ps)
                 (remove_at p pool)) as (rs & Hrs).
    + apply length_map.
    + exact Hnd2.
    + rewrite remove_at_length by lia. rewrite El. exact Hlt2.
    + exists (p :: rs). cbn [draw hd tl]. rewrite El.
      rewrite Nat.mod_small by exact Hpl. rewrite Ex.
      constructor; [ exact Ex |].
      clear - Hrs Hback. revert Hrs Hback.
      generalize (draw rs (remove_at p pool) (length ps)).
      induction ps as [| q ps IHps]; intros xs Hrs Hback.
      * inversion Hrs. constructor.
      * cbn [map] in Hrs. inversion Hrs as [| ? y ? ys Hq Hrest]; subst.
        inversion Hback as [| ? ? Eq Hback']; subst.
        constructor; [| exact (IHps _ Hrest Hback') ].
        rewrite nth_error_remove_at, Eq in Hq. exact Hq.
Qed.

(** ** Candidate pools *)

Lemma SynthesisType_eqb_eq (a b : SynthesisType) :
  SynthesisType_eqb a b = true <-> a = b.
Proof.
  destruct a, b; simpl; split; intros H; congruence.
Qed.

Lemma in_firstn {A : Type} (n : nat) (l : list A) (x : A) :
  In x (firstn n l) -> In x l.
Proof.
  intros H. rewrite <- (firstn_skipn n l). apply in_or_app. left. exact H.
Qed.

Lemma candidate_pool_excludes (excluded : SynthesisType) (trained : nat)
    (restrict : bool) (data : list SynthesisRecord) (rd : SynthesisRecord) :
  In rd (candidate_pool excluded trained restrict data) ->
  synthesis_type rd <> excluded /\ In rd data.
Proof.
  unfold candidate_pool. intros H. apply filter_In in H.
  destruct H as [Hin Hty]. split.
  - intros Heq. apply SynthesisType_eqb_eq in Heq.
    rewrite Heq in Hty. discriminate.
  - destruct restrict; [ eapply in_firstn; eassumption | assumption ].
Qed.

Lemma zip_with_zeros_plus (n : nat) :
  Tensor.zip_with Qplus (Tensor.zeros n) (Tensor.zeros n) = Tensor.zeros n.
Proof.
  induction n as [| n IH]; simpl; [ reflexivity |].
  unfold Tensor.zeros in IH. rewrite IH. reflexivity.
Qed.

Lemma zip_with_zeros_minus (n : nat) :
  Tensor.zip_with Qminus (Tensor.zeros n) (Tensor.zeros n) = Tensor.zeros n.
Proof.
  induction n as [| n IH]; simpl; [ reflexivity |].
  unfold Tensor.zeros in IH. rewrite IH. reflexivity.
Qed.

(** ** Distinct positions, distinct indices *)

Lemma indices_nodup (data : list SynthesisRecord) :
  index_is_position data -> NoDup (map index data).
Proof.
  intros Hi. apply NoDup_nth_error. intros i j Hlt E.
  rewrite length_map in Hlt. rewrite !nth_error_map in E.
  destruct (nth_error data i) as [r |] eqn:Ei;
    [| apply nth_error_None in Ei; lia ].
  destruct (nth_error data j) as [r' |] eqn:Ej; [| discriminate ].
  cbn in E. injection E as E.
  rewrite <- (Hi _ _ Ei), <- (Hi _ _ Ej). exact E.
Qed.

Lemma filtered_indices_nodup (keep : SynthesisRecord -> bool)
    (data : list SynthesisRecord) :
  NoDup (map index data) -> NoDup (map index (filter keep data)).
Proof.
  induction data as [| rd data IH]; cbn [filter map]; intros Hnd;
    [ constructor |].
  apply NoDup_cons_iff in Hnd. destruct Hnd as [Hfresh Hrest].
  destruct (keep rd); cbn [map]; [| exact (IH Hrest) ].
  apply NoDup_cons; [| exact (IH Hrest) ].
  contradict Hfresh.
  apply in_map_iff in Hfresh. destruct Hfresh as (other & Hsame & Hkept).
  apply filter_In in Hkept. apply in_map_iff. exists other. tauto.
Qed.

Lemma leading_indices_nodup (n : nat) (data : list SynthesisRecord) :
  NoDup (map index data) -> NoDup (map index (firstn n data)).
Proof.
  intros Hnd. rewrite <- (firstn_skipn n data), map_app in Hnd.
  exact (NoDup_app_remove_r _ _ Hnd).
Qed.

Lemma candidate_pool_indices_nodup (excluded : SynthesisType)
    (trained : nat) (restrict : bool) (data : list SynthesisRecord) :
  index_is_position data ->
  NoDup (map index (candidate_pool excluded trained restrict data)).
Proof.
  intros Hi. unfold candidate_pool. apply filtered_indices_nodup.
  destruct restrict; [ apply leading_indices_nodup |]; apply indices_nodup, Hi.
Qed.

Lemma distinct_positions_distinct_values {A B : Type} (f : A -> B)
    (l : list A) (ps : list nat) (xs : list A) :
  NoDup (map f l) -> NoDup ps ->
  Forall2 (fun p x => nth_error l p = Some x) ps xs ->
  NoDup (map f xs).
Proof.
  intros Hl Hps Hall. induction Hall as [| p x ps xs Hp Hall IH];
    cbn; [ constructor |].
  inversion Hps as [| ? ? Hnotin Hps']; subst.
  constructor; [| exact (IH Hps') ].
  intros Hin. apply in_map_iff in Hin. destruct Hin as (y & Hfy & Hy).
  apply Hnotin. clear IH Hnotin Hps Hps'.
  induction Hall as [| q z qs zs Hq Hall IH]; [ contradiction |].
  destruct Hy as [-> | Hy]; [ left | right; exact (IH Hy) ].
  apply (proj1 (NoDup_nth_error (map f l)) Hl).
  - rewrite length_map. apply nth_error_Some. congruence.
  - rewrite !nth_error_map, Hp, Hq. cbn. congruence.
Qed.

(** ** [random_arithmetic_operations_synthesis] *)

Lemma string_app_assoc (a b c : string) :
  ((a ++ b) ++ c = a ++ (b ++ c))%string.
Proof.
  induction a as [| x a IH]; simpl; [ reflexivity | rewrite IH; reflexivity ].
Qed.

(** C5.  The pool of the arithmetic synthesis holds no record of type
    interpolation; with fewer than three candidates the draw fails; with
    three or more, three entries at pairwise distinct positions of the pool
    are drawn (with pairwise distinct indices, on a ledger whose indices are
    the positions), the identifier is their indices joined by ["__"] in
    drawing order, and (for codes of one dimension) the code is
    [entry0 + entry1 - entry2], which is the zero vector on three zero
    vectors. *)
Theorem arithmetic_synthesis (trained : nat) (data : list SynthesisRecord)
    (sel : Selection) :
  let pool :=
    candidate_pool interpolation trained (restrict_to_trained sel) data in
  Forall (fun rd => synthesis_type rd <> interpolation /\ In rd data) pool /\
  (length pool < 3 ->
   random_arithmetic_operations_synthesis trained data sel
   = Raise ValueError) /\
  (3 <= length pool ->
   exists p0 p1 p2 e0 e1 e2,
     NoDup [p0; p1; p2] /\
     nth_error pool p0 = Some e0 /\ nth_error pool p1 = Some e1 /\
     nth_error pool p2 = Some e2 /\
     (index_is_position data -> NoDup [index e0; index e1; index e2]) /\
     (length (latent_code e1) = length (latent_code e0) ->
      length (latent_code e2) = length (latent_code e0) ->
      random_arithmetic_operations_synthesis trained data sel
      = Ok (String.concat "__" [str_of_nat (index e0); str_of_nat (index e1);
                                str_of_nat (index e2)],
            Tensor.zip_with Qminus
              (Tensor.zip_with Qplus (latent_code e0) (latent_code e1))
              (latent_code e2))) /\
     (forall n, latent_code e0 = Tensor.zeros n ->
                latent_code e1 = Tensor.zeros n ->
                latent_code e2 = Tensor.zeros n ->
      random_arithmetic_operations_synthesis trained data sel
      = Ok (String.concat "__" [str_of_nat (index e0); str_of_nat (index e1);
                                str_of_nat (index e2)],
            Tensor.zeros n))).
Proof.
  intros pool. split; [| split ].
  - apply Forall_forall. intros rd Hin.
    exact (candidate_pool_excludes _ _ _ _ _ Hin).
  - intros Hlt. unfold random_arithmetic_operations_synthesis, random_sample.
    fold pool. apply Nat.ltb_lt in Hlt. rewrite Hlt. reflexivity.
  - intros Hge.
    assert (Hlen := draw_length 3 (sample_draws sel) pool Hge).
    destruct (draw_distinct_positions 3 (sample_draws sel) pool)
      as (ps & Hnd & Hall).
    destruct (draw (sample_draws sel) pool 3)
      as [| e0 [| e1 [| e2 [| e3 rest]]]] eqn:Hdraw; try discriminate.
    inversion Hall as [| p0 x0 ps0 l0 H0 Hall0]; subst.
    inversion Hall0 as [| p1 x1 ps1 l1 H1 Hall1]; subst.
    inversion Hall1 as [| p2 x2 ps2 l2 H2 Hall2]; subst.
    inversion Hall2; subst.
    exists p0, p1, p2, e0, e1, e2.
    assert (Hrun :
      length (latent_code e1) = length (latent_code e0) ->
      length (latent_code e2) = length (latent_code e0) ->
      random_arithmetic_operations_synthesis trained data sel
      = Ok (String.concat "__" [str_of_nat (index e0); str_of_nat (index e1);
                                str_of_nat (index e2)],
            Tensor.zip_with Qminus
              (Tensor.zip_with Qplus (latent_code e0) (latent_code e1))
              (latent_code e2))).
    { intros L1 L2.
      unfold random_arithmetic_operations_synthesis, random_sample.
      fold pool.
      assert (Hnlt : Nat.ltb (length pool) 3 = false)
        by (apply Nat.ltb_ge; assumption).
      rewrite Hnlt. cbn [bind]. rewrite Hdraw.
      cbn [arithmetic_loop length Z.of_nat Z.eqb Z.sub Z.add Z.opp
           Z.pos_sub Pos.of_succ_nat Pos.succ negb Pos.pred_double Z.double].
      unfold Tensor.add, Tensor.sub.
      rewrite (binop_same_shape Qplus) by (symmetry; assumption).
      cbn [bind].
      rewrite (binop_same_shape Qminus)
        by (rewrite zip_with_length by (symmetry; assumption);
            symmetry; assumption).
      cbn [bind String.concat]. rewrite !string_app_assoc. reflexivity. }
    split; [ assumption |]. split; [ assumption |].
    split; [ assumption |]. split; [ assumption |].
    split.
    { intros Hi.
      apply (distinct_positions_distinct_values index pool [p0; p1; p2]
               [e0; e1; e2]);
        [ apply candidate_pool_indices_nodup; exact Hi | assumption
        | repeat constructor; assumption ]. }
    split; [ exact Hrun |].
    intros n Z0 Z1 Z2. rewrite Hrun.
    + rewrite Z0, Z1, Z2, zip_with_zeros_plus, zip_with_zeros_minus.
      reflexivity.
    + rewrite Z0, Z1. reflexivity.
    + rewrite Z0, Z2. reflexivity.
Qed.

Lemma arithmetic_synthesis_witness :
  3 <= length (candidate_pool interpolation 3
                 (restrict_to_trained first_three) (seed three_codes)) /\
  exists p0 p1 p2 e0 e1 e2,
    NoDup [p0; p1; p2] /\
    nth_error (candidate_pool interpolation 3
                 (restrict_to_trained first_three) (seed three_codes)) p0
    = Some e0 /\
    nth_error (candidate_pool interpolation 3
                 (restrict_to_trained first_three) (seed three_codes)) p1
    = Some e1 /\
    nth_error (candidate_pool interpolation 3
                 (restrict_to_trained first_three) (seed three_codes)) p2
    = Some e2 /\
    (index_is_position (seed three_codes) ->
     NoDup [index e0; index e1; index e2]) /\
    (length (latent_code e1) = length (latent_code e0) ->
     length (latent_code e2) = length (latent_code e0) ->
     random_arithmetic_operations_synthesis 3 (seed three_codes) first_three
     = Ok (String.concat "__" [str_of_nat (index e0); str_of_nat (index e1);
                               str_of_nat (index e2)],
           Tensor.zip_with Qminus
             (Tensor.zip_with Qplus (latent_code e0) (latent_code e1))
             (latent_code e2))) /\
    (forall n, latent_code e0 = Tensor.zeros n ->
               latent_code e1 = Tensor.zeros n ->
               latent_code e2 = Tensor.zeros n ->
     random_arithmetic_operations_synthesis 3 (seed three_codes) first_three
     = Ok (String.concat "__" [str_of_nat (index e0); str_of_nat (index e1);
                               str_of_nat (index e2)],
           Tensor.zeros n)).
Proof.
  split.
  - vm_compute. lia.
  - apply (proj2 (proj2 (arithmetic_synthesis 3 (seed three_codes)
                           first_three))).
    vm_compute. lia.
Defined.

Example arithmetic_on_three_codes :
  random_arithmetic_operations_synthesis 3 (seed three_codes) first_three
  = Ok ("0__1__2"%string, [1; -1]%Q).
Proof. reflexivity. Qed.

Example arithmetic_on_zero_vectors :
  random_arithmetic_operations_synthesis 3
    (seed [Tensor.zeros 2; Tensor.zeros 2; Tensor.zeros 2])
    {| restrict_to_trained := true; sample_draws := [2; 0; 0];
       factor_milli := 500 |}
  = Ok ("2__0__1"%string, Tensor.zeros 2).
Proof. reflexivity. Qed.

(** ** Bounding boxes and centroids *)

Lemma fold_vmin_x (vs : list Vec3) :
  forall v, vx (fold_left vmin vs v) = fold_left Qmin (map vx vs) (vx v).
Proof. induction vs as [| w vs IH]; intros v; simpl; [| rewrite IH ]; reflexivity. Qed.

Lemma fold_vmin_y (vs : list Vec3) :
  forall v, vy (fold_left vmin vs v) = fold_left Qmin (map vy vs) (vy v).
Proof. induction vs as [| w vs IH]; intros v; simpl; [| rewrite IH ]; reflexivity. Qed.

Lemma fold_vmin_z (vs : list Vec3) :
  forall v, vz (fold_left vmin vs v) = fold_left Qmin (map vz vs) (vz v).
Proof. induction vs as [| w vs IH]; intros v; simpl; [| rewrite IH ]; reflexivity. Qed.

Lemma fold_vmax_x (vs : list Vec3) :
  forall v, vx (fold_left vmax vs v) = fold_left Qmax (map vx vs) (vx v).
Proof. induction vs as [| w vs IH]; intros v; simpl; [| rewrite IH ]; reflexivity. Qed.

Lemma fold_vmax_y (vs : list Vec3) :
  forall v, vy (fold_left vmax vs v) = fold_left Qmax (map vy vs) (vy v).
Proof. induction vs as [| w vs IH]; intros v; simpl; [| rewrite IH ]; reflexivity. Qed.

Lemma fold_vadd_x (vs : list Vec3) :
  forall v, vx (fold_left vadd vs v) = fold_left Qplus (map vx vs) (vx v).
Proof. induction vs as [| w vs IH]; intros v; simpl; [| rewrite IH ]; reflexivity. Qed.

Lemma fold_vadd_y (vs : list Vec3) :
  forall v, vy (fold_left vadd vs v) = fold_left Qplus (map vy vs) (vy v).
Proof. induction vs as [| w vs IH]; intros v; simpl; [| rewrite IH ]; reflexivity. Qed.

Lemma fold_vadd_z (vs : list Vec3) :
  forall v, vz (fold_left vadd vs v) = fold_left Qplus (map vz vs) (vz v).
Proof. induction vs as [| w vs IH]; intros v; simpl; [| rewrite IH ]; reflexivity. Qed.

(** Shifting every number by [c] shifts the minimum, the maximum and the
    sum accordingly. *)
Lemma fold_min_shift (c : Q) (l : list Q) :
  forall a a' : Q, (a' == a - c)%Q ->
    (fold_left Qmin (map (fun x => x - c) l) a' == fold_left Qmin l a - c)%Q.
Proof.
  induction l as [| x l IH]; intros a a' H; simpl; [ exact H |].
  apply IH.
  destruct (Q.min_spec a' (x - c)) as [[? E1] | [? E1]],
           (Q.min_spec a x) as [[? E2] | [? E2]];
    rewrite E1, E2; lra.
Qed.

Lemma fold_max_shift (c : Q) (l : list Q) :
  forall a a' : Q, (a' == a - c)%Q ->
    (fold_left Qmax (map (fun x => x - c) l) a' == fold_left Qmax l a - c)%Q.
Proof.
  induction l as [| x l IH]; intros a a' H; simpl; [ exact H |].
  apply IH.
  destruct (Q.max_spec a' (x - c)) as [[? E1] | [? E1]],
           (Q.max_spec a x) as [[? E2] | [? E2]];
    rewrite E1, E2; lra.
Qed.

Lemma fold_plus_shift (c : Q) (l : list Q) :
  forall a a' d : Q, (a' == a - d)%Q ->
    (fold_left Qplus (map (fun x => x - c) l) a'
     == fold_left Qplus l a - inject_Z (Z.of_nat (length l)) * c - d)%Q.
Proof.
  induction l as [| x l IH]; intros a a' d H.
  - simpl. rewrite H. unfold inject_Z. ring.
  - cbn [map fold_left].
    rewrite (IH (a + x)%Q (a' + (x - c))%Q (d + c)%Q).
    + cbn [length]. rewrite Nat2Z.inj_succ. unfold Z.succ.
      rewrite inject_Z_plus. ring.
    + rewrite H. ring.
Qed.

Lemma mean_shift_zero (l : list Q) (m : nat) (c : Q) :
  l <> [] -> m = length l ->
  (c == fold_left Qplus l 0 * (1 / inject_Z (Z.of_nat m)))%Q ->
  (fold_left Qplus (map (fun x => x - c) l) 0
   * (1 / inject_Z (Z.of_nat m)) == 0)%Q.
Proof.
  intros Hne -> Hc.
  rewrite (fold_plus_shift c l 0%Q 0%Q 0%Q) by ring.
  assert (Hn : ~ (inject_Z (Z.of_nat (length l)) == 0)%Q).
  { destruct l as [| x l]; [ congruence |].
    cbn [length]. rewrite Nat2Z.inj_succ. unfold Z.succ.
    intros H. unfold Qeq, inject_Z in H. simpl in H. lia. }
  rewrite Hc. field. exact Hn.
Qed.

Ltac shifted_fold fold_lemma shift_lemma proj c :=
  rewrite !fold_lemma;
  match goal with
  | |- context [map proj (map ?f ?vs)] =>
      replace (map proj (map f vs))
        with (map (fun x => (x - proj c)%Q) (map proj vs))
        by (rewrite !map_map; reflexivity)
  end;
  apply shift_lemma; reflexivity.

Section Translation.

Variables (c v : Vec3) (vs : list Vec3).

Lemma shifted_min_x :
  (vx (fold_left vmin (map (fun w => vsub w c) vs) (vsub v c))
   == vx (fold_left vmin vs v) - vx c)%Q.
Proof. shifted_fold fold_vmin_x fold_min_shift vx c. Qed.

Lemma shifted_min_y :
  (vy (fold_left vmin (map (fun w => vsub w c) vs) (vsub v c))
   == vy (fold_left vmin vs v) - vy c)%Q.
Proof. shifted_fold fold_vmin_y fold_min_shift vy c. Qed.

Lemma shifted_min_z :
  (vz (fold_left vmin (map (fun w => vsub w c) vs) (vsub v c))
   == vz (fold_left vmin vs v) - vz c)%Q.
Proof. shifted_fold fold_vmin_z fold_min_shift vz c. Qed.

Lemma shifted_max_x :
  (vx (fold_left vmax (map (fun w => vsub w c) vs) (vsub v c))
   == vx (fold_left vmax vs v) - vx c)%Q.
Proof. shifted_fold fold_vmax_x fold_max_shift vx c. Qed.

Lemma shifted_max_y :
  (vy (fold_left vmax (map (fun w => vsub w c) vs) (vsub v c))
   == vy (fold_left vmax vs v) - vy c)%Q.
Proof. shifted_fold fold_vmax_y fold_max_shift vy c. Qed.

End Translation.

Lemma bounds_of_translate (m : Mesh) (c v : Vec3) (vs : list Vec3)
    (p : string) :
  vertices m = v :: vs ->
  bounds m = Some (fold_left vmin vs v, fold_left vmax vs v) /\
  bounds (with_path (translate m c) p)
  = Some (fold_left vmin (map (fun w => vsub w c) vs) (vsub v c),
          fold_left vmax (map (fun w => vsub w c) vs) (vsub v c)).
Proof.
  intros H. unfold bounds, with_path, translate, with_vertices. simpl.
  rewrite H. split; reflexivity.
Qed.

Lemma centroid_of_translate (m : Mesh) (p : string) :
  vertices m <> [] ->
  centroid_at_origin (with_path (translate m (vmean (vertices m))) p).
Proof.
  intros Hne. unfold centroid_at_origin, veq, with_path, translate,
    with_vertices. cbn [vertices].
  set (vs := vertices m) in *.
  set (c := vmean vs).
  unfold vmean, vsum, vscale. cbn [vx vy vz vzero].
  rewrite length_map.
  rewrite fold_vadd_x, fold_vadd_y, fold_vadd_z. cbn [vx vy vz vzero].
  replace (map vx (map (fun v => vsub v c) vs))
    with (map (fun x => (x - vx c)%Q) (map vx vs))
    by (rewrite !map_map; reflexivity).
  replace (map vy (map (fun v => vsub v c) vs))
    with (map (fun x => (x - vy c)%Q) (map vy vs))
    by (rewrite !map_map; reflexivity).
  replace (map vz (map (fun v => vsub v c) vs))
    with (map (fun x => (x - vz c)%Q) (map vz vs))
    by (rewrite !map_map; reflexivity).
  assert (Hx : map vx vs <> []) by (destruct vs; [ congruence | discriminate ]).
  assert (Hy : map vy vs <> []) by (destruct vs; [ congruence | discriminate ]).
  assert (Hz : map vz vs <> []) by (destruct vs; [ congruence | discriminate ]).
  split; [| split ]; apply mean_shift_zero;
    try assumption; try (rewrite length_map; reflexivity);
    subst c; unfold vmean, vsum, vscale; cbn [vx vy vz];
    rewrite ?fold_vadd_x, ?fold_vadd_y, ?fold_vadd_z; reflexivity.
Qed.

(** ** The translate modes of [load_mesh] *)

Lemma translate_modes_differ :
  MIN_BOUND <> CENTER /\ MIN_BOUND <> CENTER_WITHOUT_Z /\
  CENTER <> CENTER_WITHOUT_Z.
Proof. repeat split; intros H; vm_compute in H; discriminate. Qed.

(** C3 (amended).  For a mesh with at least one vertex, the translation of
    [load_mesh] succeeds in each of the three modes and leaves: in mode
    [min_bound] the minimum corner of the bounding box at the origin; in
    mode [center] the centroid of the vertices at the origin; in mode
    [center_without_z] the horizontal centre of the bounding box at the
    origin and the minimum Z at 0. *)
Theorem translate_mode_anchors (G : Geometry) (path : string)
    (map_z_to_y check_watertight : bool) (max_length : option Q)
    (translate_mode : string) :
  vertices (load_and_repair G path map_z_to_y check_watertight) <> [] ->
  translate_mode = MIN_BOUND \/ translate_mode = CENTER
    \/ translate_mode = CENTER_WITHOUT_Z ->
  exists mesh,
    load_mesh G path false map_z_to_y check_watertight max_length
      translate_mode = Ok mesh /\
    (translate_mode = MIN_BOUND -> min_corner_at_origin mesh) /\
    (translate_mode = CENTER -> centroid_at_origin mesh) /\
    (translate_mode = CENTER_WITHOUT_Z ->
     horizontal_box_centre_at_origin mesh /\ min_z_is_zero mesh).
Proof.
  intros Hne Hmode. unfold load_mesh.
  set (raw := load_and_repair G path map_z_to_y check_watertight) in *.
  destruct translate_modes_differ as (D1 & D2 & D3).
  destruct (vertices raw) as [| v vs] eqn:Hv; [ congruence |].
  destruct Hmode as [-> | [-> | ->]]; unfold translation_vector.
  - rewrite String.eqb_refl.
    destruct (bounds_of_translate raw (fold_left vmin vs v) v vs path Hv)
      as [Hb Hb']. rewrite Hb. cbn [bind].
    eexists. split; [ reflexivity |].
    split; [ intros _ | split; intros E; congruence ].
    eexists. eexists. split; [ exact Hb' |].
    unfold veq. cbn [vx vy vz vzero].
    rewrite shifted_min_x, shifted_min_y, shifted_min_z.
    repeat split; ring.
  - change (String.eqb CENTER MIN_BOUND) with false.
    rewrite String.eqb_refl. cbn [bind].
    eexists. split; [ reflexivity |].
    split; [ intros E; congruence |].
    split; [ intros _ | intros E; congruence ].
    apply centroid_of_translate. rewrite Hv. discriminate.
  - change (String.eqb CENTER_WITHOUT_Z MIN_BOUND) with false.
    change (String.eqb CENTER_WITHOUT_Z CENTER) with false.
    rewrite String.eqb_refl.
    set (lo := fold_left vmin vs v). set (hi := fold_left vmax vs v).
    set (c := {| vx := vx (vscale (vadd lo hi) (1 # 2));
                 vy := vy (vscale (vadd lo hi) (1 # 2));
                 vz := vz lo |}).
    destruct (bounds_of_translate raw c v vs path Hv) as [Hb Hb'].
    fold lo hi in Hb. rewrite Hb. cbn [bind]. fold c.
    eexists. split; [ reflexivity |].
    split; [ intros E; congruence |].
    split; [ intros E; congruence | intros _ ].
    split.
    + eexists. eexists. split; [ exact Hb' |].
      cbn [fst snd].
      rewrite shifted_min_x, shifted_min_y, shifted_max_x, shifted_max_y.
      fold lo hi. unfold c. cbn [vx vy vz vscale vadd].
      split; ring.
    + eexists. eexists. split; [ exact Hb' |].
      rewrite shifted_min_z. fold lo. unfold c. cbn [vz]. ring.
Qed.

Lemma translate_mode_anchors_witness :
  exists mesh,
    load_mesh (geometry_of lopsided) "lopsided.obj" false true true None
      CENTER_WITHOUT_Z = Ok mesh /\
    (CENTER_WITHOUT_Z = MIN_BOUND -> min_corner_at_origin mesh) /\
    (CENTER_WITHOUT_Z = CENTER -> centroid_at_origin mesh) /\
    (CENTER_WITHOUT_Z = CENTER_WITHOUT_Z ->
     horizontal_box_centre_at_origin mesh /\ min_z_is_zero mesh).
Proof.
  apply (translate_mode_anchors (geometry_of lopsided) "lopsided.obj"
           true true None CENTER_WITHOUT_Z).
  - vm_compute. discriminate.
  - right. right. reflexivity.
Defined.

(** In mode [center_without_z] the mean of the vertex abscissas need not
    be zero: the offset is the centre of the bounding box. *)
Lemma centre_without_z_is_not_the_centroid :
  exists mesh,
    load_mesh (geometry_of lopsided) "lopsided.obj" false false true None
      CENTER_WITHOUT_Z = Ok mesh /\
    min_z_is_zero mesh /\
    ~ horizontal_centroid_at_origin mesh.
Proof.
  eexists. split; [ reflexivity |]. split.
  - eexists. eexists. split; [ reflexivity |]. vm_compute. reflexivity.
  - intros [Hx _]. vm_compute in Hx. discriminate.
Qed.

Example centre_without_z_offset :
  translation_vector CENTER_WITHOUT_Z lopsided
  = Ok {| vx := 4 # 2; vy := 0 # 2; vz := 0 |}%Q.
Proof. reflexivity. Qed.

(** ** [get_normalized_mesh] *)

Lemma rescale_fixed_point (x L : Q) :
  ~ (L == 0)%Q ->
  ((x * (1 / L) == x * (1 / L) * (1 / L))%Q <-> (L == 1 \/ x == 0)%Q).
Proof.
  intros HL. split.
  - intros H.
    assert (E : (x * (L - 1) == (x * (1 / L) - x * (1 / L) * (1 / L)) * L * L)%Q)
      by (field; exact HL).
    remember (x * (1 / L))%Q as a. remember (a * (1 / L))%Q as b.
    assert (Z : (x * (L - 1) == 0)%Q) by (rewrite E, H; ring).
    apply Qmult_integral in Z. destruct Z as [Z | Z].
    + right. exact Z.
    + left. lra.
  - intros [H | H]; rewrite H.
    + field.
    + ring.
Qed.

Lemma get_normalized_mesh_given (G : Geometry) (m : Mesh) (L : Q) :
  ~ (L == 0)%Q ->
  get_normalized_mesh G m (Some L)
  = Ok (with_vertices m (map (fun v => vscale v (1 / L)%Q) (vertices m))).
Proof.
  intros HL. unfold get_normalized_mesh. cbn [bind].
  destruct (Qeq_bool L 0) eqn:E; [| reflexivity ].
  apply Qeq_bool_iff in E. contradiction.
Qed.

(** C4 (amended).  With a supplied [max_length = L], [L] not zero,
    [get_normalized_mesh] multiplies every vertex by [1/L] each time it is
    applied: after two applications a vertex [v] stands at [v/L^2].  The
    second application leaves the positions of the first unchanged exactly
    when [L = 1] or every vertex is the origin. *)
Theorem normalization_rescales_again (G : Geometry) (m : Mesh) (L : Q) :
  ~ (L == 0)%Q ->
  exists m1 m2,
    get_normalized_mesh G m (Some L) = Ok m1 /\
    get_normalized_mesh G m1 (Some L) = Ok m2 /\
    vertices m2
    = map (fun v => vscale (vscale v (1 / L)%Q) (1 / L)%Q) (vertices m) /\
    (same_positions m1 m2 <->
     (L == 1)%Q \/ Forall (fun v => veq v vzero) (vertices m)).
Proof.
  intros HL. eexists. eexists.
  split; [ apply get_normalized_mesh_given; exact HL |].
  split; [ apply get_normalized_mesh_given; exact HL |].
  cbn [vertices with_vertices]. split; [ apply map_map |].
  unfold same_positions. cbn [vertices with_vertices]. rewrite map_map.
  induction (vertices m) as [| v vs IH]; cbn [map].
  - split; intros _; [ right |]; constructor.
  - split.
    + intros H. inversion H as [| ? ? ? ? Hv Hvs]; subst.
      apply IH in Hvs. destruct (Qeq_dec L 1) as [E | NE]; [ left; exact E |].
      right. destruct Hvs as [E | Hvs]; [ contradiction |].
      constructor; [| exact Hvs ].
      destruct Hv as (Hx & Hy & Hz). cbn [vscale vx vy vz] in Hx, Hy, Hz.
      apply (rescale_fixed_point _ _ HL) in Hx, Hy, Hz.
      unfold veq. cbn [vzero vx vy vz]. tauto.
    + intros H. constructor.
      * unfold veq. cbn [vscale vx vy vz].
        assert (Hv : (L == 1)%Q \/ veq v vzero).
        { destruct H as [E | H]; [ left; exact E |].
          right. inversion H; assumption. }
        repeat split; apply (rescale_fixed_point _ _ HL);
          destruct Hv as [E | (Hx & Hy & Hz)]; auto.
      * apply IH. destruct H as [E | H]; [ left; exact E |].
        right. inversion H; assumption.
Qed.

Lemma normalization_rescales_again_witness :
  exists m1 m2,
    get_normalized_mesh (geometry_of arrow) arrow (Some 2%Q) = Ok m1 /\
    get_normalized_mesh (geometry_of arrow) m1 (Some 2%Q) = Ok m2 /\
    vertices m2
    = map (fun v => vscale (vscale v (1 / 2)%Q) (1 / 2)%Q) (vertices arrow) /\
    (same_positions m1 m2 <->
     (2 == 1)%Q \/ Forall (fun v => veq v vzero) (vertices arrow)).
Proof.
  apply (normalization_rescales_again (geometry_of arrow) arrow 2%Q).
  intros H. vm_compute in H. discriminate.
Defined.

(** Normalizing [(2, 0, 0)] with [max_length = 2] gives [(1, 0, 0)];
    normalizing that again with [max_length = 2] gives [(1/2, 0, 0)]. *)
Lemma normalization_is_not_idempotent :
  exists m1 m2,
    get_normalized_mesh (geometry_of arrow) arrow (Some 2%Q) = Ok m1 /\
    get_normalized_mesh (geometry_of arrow) m1 (Some 2%Q) = Ok m2 /\
    Forall2 veq (vertices m1) [ {| vx := 1; vy := 0; vz := 0 |} ]%Q /\
    Forall2 veq (vertices m2) [ {| vx := 1 # 2; vy := 0; vz := 0 |} ]%Q /\
    ~ same_positions m1 m2.
Proof.
  eexists. eexists.
  split; [ reflexivity |]. split; [ reflexivity |].
  split; [ repeat constructor |]. split; [ repeat constructor |].
  intros H. inversion H as [| ? ? ? ? (Hx & _) _]; subst.
  vm_compute in Hx. discriminate.
Qed.

(** ** [sample_pts] *)

Lemma add_rows_length (a b : list Vec3) :
  length a = length b -> length (add_rows a b) = length a.
Proof.
  revert b; induction a as [| x a IH]; intros [| y b] H; simpl in *;
    try discriminate; auto.
Qed.

Lemma bounds_nonempty (m : Mesh) :
  vertices m <> [] -> exists lo hi, bounds m = Some (lo, hi).
Proof.
  unfold bounds. destruct (vertices m); [ congruence | eauto ].
Qed.

Lemma counting_sampler_ok : sampler_ok counting_sampler.
Proof.
  constructor; cbn [counting_sampler sample_surface random_normal
                    random_sample3 fst]; intros.
  - apply repeat_length.
  - apply repeat_length.
  - rewrite length_map. apply length_seq.
  - apply Forall_forall. intros p Hp. apply in_map_iff in Hp.
    destruct Hp as (i & <- & _). unfold in_unit_cube, tenth. cbn [vx vy vz].
    assert (B : forall k, (0 <= Z.of_nat (k mod 10) # 10 < 1)%Q).
    { intros k. assert (k mod 10 < 10) by (apply Nat.mod_upper_bound; lia).
      unfold Qle, Qlt. cbn [Qnum Qden]. lia. }
    repeat split; apply B.
Qed.

(** On a mesh with a vertex the three blocks are drawn and concatenated in
    the order surface, bounding box, volume. *)
Lemma sample_pts_on_vertices (S : Sampler) (mesh : Mesh)
    (n_surface n_bbox n_volume : nat) (sigma : Q) (noise : bool)
    (s : rng S) :
  sampler_ok S ->
  vertices mesh <> [] ->
  exists xyz s' surface bbox volume,
    sample_pts S mesh n_surface n_bbox n_volume sigma noise s
    = Ok (xyz, s') /\
    xyz = surface ++ bbox ++ volume /\
    length surface = n_surface /\ length bbox = n_bbox /\
    length volume = n_volume /\
    length xyz = n_surface + n_bbox + n_volume /\
    firstn n_surface xyz = surface /\
    firstn n_bbox (skipn n_surface xyz) = bbox /\
    skipn (n_surface + n_bbox) xyz = volume /\
    (exists s1 s2 s3 lo hi,
       bounds mesh = Some (lo, hi) /\
       surface
       = add_rows (fst (sample_surface S mesh n_surface s))
           (fst (random_normal S (if noise then sigma else 0%Q)
                   n_surface s1)) /\
       bbox = fst (random_uniform S lo hi n_bbox s2) /\
       volume = fst (random_sample3 S n_volume s3)) /\
    Forall in_unit_cube volume.
Proof.
  intros HS Hne.
  destruct (bounds_nonempty mesh Hne) as (lo & hi & Hb).
  unfold sample_pts, sample_blocks.
  pose proof (sample_surface_count HS mesh n_surface s) as L1.
  destruct (sample_surface S mesh n_surface s) as [surf s1] eqn:E1.
  cbn [fst] in L1.
  set (sg := if negb noise then 0%Q else sigma).
  pose proof (random_normal_count HS sg (length surf) s1) as L2.
  destruct (random_normal S sg (length surf) s1) as [nz s2] eqn:E2.
  cbn [fst] in L2. rewrite Hb.
  pose proof (random_sample3_count HS n_bbox s2) as L3.
  unfold random_uniform at 1.
  destruct (random_sample3 S n_bbox s2) as [u s3] eqn:E3.
  cbn [fst] in L3.
  pose proof (random_sample3_count HS n_volume s3) as L4.
  pose proof (random_sample3_range HS n_volume s3) as R4.
  destruct (random_sample3 S n_volume s3) as [vol s4] eqn:E4.
  cbn [fst] in L4, R4. cbn [bind surface_block bbox_block volume_block
                            rng_after].
  set (surface := add_rows surf nz).
  set (bbox := map (fun r => vadd lo (vmul (vsub hi lo) r)) u).
  assert (Ls : length surface = n_surface).
  { unfold surface. rewrite add_rows_length; congruence. }
  assert (Lb : length bbox = n_bbox).
  { unfold bbox. rewrite length_map. exact L3. }
  exists (surface ++ bbox ++ vol), s4, surface, bbox, vol.
  split; [ reflexivity |]. split; [ reflexivity |].
  split; [ exact Ls |]. split; [ exact Lb |]. split; [ exact L4 |].
  split; [ rewrite !length_app; lia |].
  split.
  { rewrite <- Ls. rewrite firstn_app, Nat.sub_diag, firstn_all.
    cbn [firstn]. apply app_nil_r. }
  split.
  { rewrite <- Ls. rewrite skipn_app, Nat.sub_diag, skipn_all.
    cbn [skipn app]. rewrite <- Lb.
    rewrite firstn_app, Nat.sub_diag, firstn_all.
    cbn [firstn]. apply app_nil_r. }
  split.
  { rewrite app_assoc. rewrite <- Ls, <- Lb, <- length_app.
    rewrite skipn_app, Nat.sub_diag, skipn_all. reflexivity. }
  split; [| exact R4 ].
  exists s1, s2, s3, lo, hi. split; [ reflexivity |].
  split.
  { unfold surface. rewrite L1 in E2.
    replace (if noise then sigma else 0%Q) with sg
      by (unfold sg; destruct noise; reflexivity).
    rewrite E2. reflexivity. }
  split.
  { unfold random_uniform. rewrite E3. reflexivity. }
  rewrite E4. reflexivity.
Qed.

(** C6.  For a sampler honouring its contract, [sample_pts] on a mesh with
    at least one vertex returns [n_surface + n_bbox + n_volume] points:
    first the [n_surface] surface points with their noise, then the
    [n_bbox] points of the bounding box, then the [n_volume] points of the
    volume block, which are raw uniform draws and so lie in the unit cube
    whatever the mesh; a block of size zero is simply empty.  A mesh
    without vertices has no bounds, and the sampler raises instead of
    returning points. *)
Theorem sample_pts_layout (S : Sampler) (mesh : Mesh)
    (n_surface n_bbox n_volume : nat) (sigma : Q) (noise : bool)
    (s : rng S) :
  sampler_ok S ->
  (vertices mesh = [] ->
   sample_pts S mesh n_surface n_bbox n_volume sigma noise s
   = Raise TypeError) /\
  (vertices mesh <> [] ->
   exists xyz s' surface bbox volume,
     sample_pts S mesh n_surface n_bbox n_volume sigma noise s
     = Ok (xyz, s') /\
     xyz = surface ++ bbox ++ volume /\
     length surface = n_surface /\ length bbox = n_bbox /\
     length volume = n_volume /\
     length xyz = n_surface + n_bbox + n_volume /\
     firstn n_surface xyz = surface /\
     firstn n_bbox (skipn n_surface xyz) = bbox /\
     skipn (n_surface + n_bbox) xyz = volume /\
     (exists s1 s2 s3 lo hi,
        bounds mesh = Some (lo, hi) /\
        surface
        = add_rows (fst (sample_surface S mesh n_surface s))
            (fst (random_normal S (if noise then sigma else 0%Q)
                    n_surface s1)) /\
        bbox = fst (random_uniform S lo hi n_bbox s2) /\
        volume = fst (random_sample3 S n_volume s3)) /\
     Forall in_unit_cube volume).
Proof.
  intros HS. split.
  - intros Hnil. unfold sample_pts, sample_blocks, bounds. rewrite Hnil.
    destruct (sample_surface S mesh n_surface s) as [surf s1].
    destruct (random_normal S _ (length surf) s1) as [nz s2].
    reflexivity.
  - intros Hne. apply sample_pts_on_vertices; assumption.
Qed.

Lemma sample_pts_layout_witness :
  exists xyz s' surface bbox volume,
    sample_pts counting_sampler lopsided 2 0 3 (1 # 100)%Q true 0
    = Ok (xyz, s') /\
    xyz = surface ++ bbox ++ volume /\
    length surface = 2 /\ length bbox = 0 /\ length volume = 3 /\
    length xyz = 2 + 0 + 3 /\
    firstn 2 xyz = surface /\
    firstn 0 (skipn 2 xyz) = bbox /\
    skipn (2 + 0) xyz = volume /\
    (exists s1 s2 s3 lo hi,
       bounds lopsided = Some (lo, hi) /\
       surface
       = add_rows (fst (sample_surface counting_sampler lopsided 2 0))
           (fst (random_normal counting_sampler
                   (if true then (1 # 100)%Q else 0%Q) 2 s1)) /\
       bbox = fst (random_uniform counting_sampler lo hi 0 s2) /\
       volume = fst (random_sample3 counting_sampler 3 s3)) /\
    Forall in_unit_cube volume.
Proof.
  apply (proj2 (sample_pts_layout counting_sampler lopsided 2 0 3
                  (1 # 100)%Q true 0 counting_sampler_ok)).
  vm_compute. discriminate.
Defined.

(** The mesh [lopsided] reaches [x = 4], outside the unit cube; the volume
    block stays inside it. *)
Example sample_pts_on_lopsided :
  sample_pts counting_sampler lopsided 1 1 1 0%Q false 0
  = Ok ([ {| vx := 0 + 0; vy := 0 + - 0; vz := 0 + 0 |};
          {| vx := 0 + (4 - 0) * (2 # 10); vy := 0 + (0 - 0) * (5 # 10);
             vz := 0 + (0 - 0) * (9 # 10) |};
          {| vx := 3 # 10; vy := 6 # 10; vz := 0 # 10 |} ]%Q, 4).
Proof. vm_compute. reflexivity. Qed.

(** ** [torch.split] and [synthesize] *)

Lemma chunks_nil {A : Type} (fuel s : nat) : chunks fuel s (@nil A) = [].
Proof. destruct fuel; reflexivity. Qed.

Lemma chunks_spec {A : Type} (s : nat) :
  0 < s ->
  forall (fuel : nat) (l : list A),
    length l <= fuel ->
    concat (chunks fuel s l) = l /\
    Forall (fun c => 0 < length c <= s) (chunks fuel s l) /\
    Forall (fun c => length c = s) (removelast (chunks fuel s l)).
Proof.
  intros Hs. induction fuel as [| fuel IH]; intros l Hl.
  - destruct l; [| simpl in Hl; lia ]. repeat split; constructor.
  - destruct l as [| x l]; [ repeat split; constructor |].
    cbn [chunks].
    assert (Hskip : length (skipn s (x :: l)) <= fuel)
      by (rewrite length_skipn; cbn [length] in *; lia).
    destruct (IH _ Hskip) as (Hc & Hall & Hfull).
    split; [| split ].
    + cbn [concat]. rewrite Hc. apply firstn_skipn.
    + constructor; [| exact Hall ].
      rewrite length_firstn. cbn [length]. lia.
    + destruct (chunks fuel s (skipn s (x :: l))) as [| c rest] eqn:E.
      * constructor.
      * change (removelast (firstn s (x :: l) :: c :: rest))
          with (firstn s (x :: l) :: removelast (c :: rest)).
        constructor; [| exact Hfull ].
        rewrite length_firstn.
        destruct (Nat.le_gt_cases (length (x :: l)) s) as [Hle | Hgt];
          [| lia ].
        rewrite skipn_all2 in E by exact Hle.
        rewrite chunks_nil in E. discriminate.
Qed.

(** C10.  [synthesize] cuts the [N] points of the grid into batches of
    [N // 1000] rows.  Below 1000 points that size is zero, and on a grid
    with points the split then fails, and [synthesize] with it.  From 1000
    points on the split succeeds: the batches, concatenated, are the grid,
    each holds between 1 and [N // 1000] rows, and all but the last hold
    exactly [N // 1000]; the decoder is called once per batch and
    [synthesize] returns.  So on a grid with points [synthesize] returns
    only when [N >= 1000]. *)
Theorem synthesize_batches (R : Reconstructor) (sdf_decoder : SDFdecoder)
    (latent_code : Tensor.t) (save_name : option string) (resolution : nat)
    (normalize map_z_to_y check_watertight : bool) (w : World) :
  let coords := fst (get_volume_coords R resolution) in
  let N := length coords in
  let run := synthesize R sdf_decoder latent_code save_name resolution
               normalize map_z_to_y check_watertight w in
  (N < 1000 -> N / 1000 = 0) /\
  (0 < N < 1000 ->
   torch_split coords (N / 1000) = Raise RuntimeError /\
   run = Raise RuntimeError) /\
  (1000 <= N ->
   exists batches mesh w',
     torch_split coords (N / 1000) = Ok batches /\
     concat batches = coords /\
     Forall (fun b => 0 < length b <= N / 1000) batches /\
     Forall (fun b => length b = N / 1000) (removelast batches) /\
     run = Ok (mesh, w') /\
     decoder_calls w' = decoder_calls w + length batches) /\
  (0 < N -> (exists r, run = Ok r) -> 1000 <= N).
Proof.
  intros coords N run. subst run. unfold synthesize.
  destruct (get_volume_coords R resolution) as [cs g] eqn:E.
  cbn [fst] in coords. subst coords. fold N.
  assert (Hsmall : N < 1000 -> N / 1000 = 0) by (apply Nat.div_small).
  assert (Hfail : 0 < N < 1000 -> torch_split cs (N / 1000) = Raise RuntimeError).
  { intros [Hpos Hlt]. unfold torch_split. rewrite (Hsmall Hlt). fold N.
    destruct N; [ lia | reflexivity ]. }
  assert (Hbig : 1000 <= N ->
    exists batches, torch_split cs (N / 1000) = Ok batches /\
      concat batches = cs /\
      Forall (fun b => 0 < length b <= N / 1000) batches /\
      Forall (fun b => length b = N / 1000) (removelast batches)).
  { intros Hge.
    assert (Hs : 0 < N / 1000)
      by (apply Nat.div_str_pos; lia).
    unfold torch_split.
    destruct (Nat.eqb_spec (N / 1000) 0) as [Hz | _]; [ lia |].
    cbn [andb].
    destruct cs as [| c cs']; [ simpl in N; lia |].
    eexists. split; [ reflexivity |].
    apply chunks_spec; [ exact Hs | apply Nat.le_refl ]. }
  split; [ exact Hsmall |].
  split; [ intros H; split; [ exact (Hfail H) | rewrite (Hfail H); reflexivity ] |].
  split.
  - intros Hge. destruct (Hbig Hge) as (batches & Hsplit & Hcat & Hall & Hfull).
    rewrite Hsplit. cbn [bind].
    exists batches.
    destruct (extract_mesh R g _ normalize map_z_to_y check_watertight)
      as [m |]; destruct save_name as [p |];
      eexists; eexists; repeat split; eauto.
  - intros Hpos [r Hr].
    destruct (Nat.le_gt_cases 1000 N) as [Hge | Hlt]; [ exact Hge |].
    rewrite Hfail in Hr by lia. discriminate.
Qed.

Lemma synthesize_batches_witness :
  torch_split (fst (get_volume_coords lattice_reconstructor 2))
    (length (fst (get_volume_coords lattice_reconstructor 2)) / 1000)
  = Raise RuntimeError /\
  synthesize lattice_reconstructor (plane_decoder three_codes) [0; 0]%Q
    None 2 true false false fresh_world = Raise RuntimeError.
Proof.
  apply (synthesize_batches lattice_reconstructor (plane_decoder three_codes)
           [0; 0]%Q None 2 true false false fresh_world).
  vm_compute. lia.
Defined.

(** ** Texts: decimal numbers, splitting, paths *)

Lemma to_uint_nonnil (n : nat) : Nat.to_uint n <> Decimal.Nil.
Proof.
  rewrite <- (DecimalNat.Unsigned.of_to n) at 1.
  rewrite DecimalNat.Unsigned.to_of.
  apply DecimalFacts.unorm_nonnil.
Qed.

Lemma str_of_nat_digits (n : nat) :
  str_of_nat n = NilEmpty.string_of_uint (Nat.to_uint n).
Proof.
  unfold str_of_nat, NilZero.string_of_uint.
  pose proof (to_uint_nonnil n) as H.
  destruct (Nat.to_uint n); [ congruence | reflexivity .. ].
Qed.

Lemma py_int_str_of_nat (n : nat) : py_int (str_of_nat n) = Ok (Z.of_nat n).
Proof.
  unfold py_int, str_of_nat.
  rewrite NilZero.usu by apply to_uint_nonnil.
  rewrite DecimalNat.Unsigned.of_to. reflexivity.
Qed.

Lemma no_char_uint (x : ascii) :
  is_digit x = false ->
  forall d, no_char x (NilEmpty.string_of_uint d) = true.
Proof.
  intros Hx. induction d; cbn [NilEmpty.string_of_uint no_char];
    [ reflexivity | rewrite IHd, andb_true_r .. ];
    apply negb_true_iff, Ascii.eqb_neq; intros <-; discriminate.
Qed.

Lemma no_char_str_of_nat (x : ascii) (n : nat) :
  is_digit x = false -> no_char x (str_of_nat n) = true.
Proof.
  intros Hx. rewrite str_of_nat_digits. apply no_char_uint. exact Hx.
Qed.

Lemma first_char_str_of_nat (n : nat) :
  exists c, first_char (str_of_nat n) = Some c /\ is_digit c = true.
Proof.
  rewrite str_of_nat_digits. pose proof (to_uint_nonnil n) as H.
  destruct (Nat.to_uint n); [ congruence | .. ];
    eexists; (split; [ reflexivity | reflexivity ]).
Qed.

Lemma no_char_app (x : ascii) (a b : string) :
  no_char x (a ++ b) = (no_char x a && no_char x b)%bool.
Proof.
  induction a as [| c a IH]; cbn [append no_char]; [ reflexivity |].
  rewrite IH. apply andb_assoc.
Qed.

Lemma first_char_app (a b : string) (c : ascii) :
  first_char a = Some c -> first_char (a ++ b) = Some c.
Proof. destruct a; [ discriminate | exact (fun H => H) ]. Qed.

Lemma string_app_nil_r (a : string) : (a ++ "")%string = a.
Proof. induction a as [| c a IH]; simpl; [| rewrite IH ]; reflexivity. Qed.

Lemma string_app_cancel_l (p a b : string) :
  (p ++ a = p ++ b)%string -> a = b.
Proof.
  induction p as [| c p IH]; simpl; intros H; [ exact H |].
  injection H as H. exact (IH H).
Qed.

(** A component without underscore is read up to the next ["__"]. *)
Lemma split_dunder_component (a : string) :
  no_char "_" a = true ->
  forall cur rest,
    split_dunder_from cur (a ++ "__" ++ rest)
    = (cur ++ a)%string :: split_dunder_from "" rest.
Proof.
  induction a as [| c a IH]; intros Ha cur rest.
  - cbn. rewrite string_app_nil_r. reflexivity.
  - cbn [no_char] in Ha. apply andb_true_iff in Ha. destruct Ha as [Hc Ha].
    apply negb_true_iff, Ascii.eqb_neq in Hc.
    change (String c a ++ "__" ++ rest)%string
      with (String c (a ++ "__" ++ rest))%string.
    assert (Hstep : forall t, split_dunder_from cur (String c t)
                              = split_dunder_from (cur ++ String c "") t).
    { intros t. cbn [split_dunder_from].
      destruct c as [[] [] [] [] [] [] [] []]; try reflexivity.
      congruence. }
    rewrite Hstep, (IH Ha), string_app_assoc. reflexivity.
Qed.

Lemma split_dunder_last (a : string) :
  no_char "_" a = true ->
  forall cur, split_dunder_from cur a = [(cur ++ a)%string].
Proof.
  induction a as [| c a IH]; intros Ha cur.
  - cbn. rewrite string_app_nil_r. reflexivity.
  - cbn [no_char] in Ha. apply andb_true_iff in Ha. destruct Ha as [Hc Ha].
    apply negb_true_iff, Ascii.eqb_neq in Hc.
    assert (Hstep : split_dunder_from cur (String c a)
                    = split_dunder_from (cur ++ String c "") a).
    { cbn [split_dunder_from].
      destruct c as [[] [] [] [] [] [] [] []]; try reflexivity.
      congruence. }
    rewrite Hstep, (IH Ha), string_app_assoc. reflexivity.
Qed.

Lemma remove_obj_plain (a : string) :
  no_char "." a = true ->
  remove_obj a = a /\ remove_obj (a ++ ".obj") = a.
Proof.
  induction a as [| c a IH]; intros Ha.
  - split; reflexivity.
  - cbn [no_char] in Ha. apply andb_true_iff in Ha. destruct Ha as [Hc Ha].
    apply negb_true_iff, Ascii.eqb_neq in Hc.
    destruct (IH Ha) as [IH1 IH2].
    assert (Hstep : forall t, remove_obj (String c t)
                              = String c (remove_obj t)).
    { intros t. cbn [remove_obj].
      destruct c as [[] [] [] [] [] [] [] []]; try reflexivity.
      congruence. }
    cbn [append]. rewrite !Hstep, IH1, IH2. split; reflexivity.
Qed.

Lemma digit_char_is_digit (k : nat) : k < 10 -> is_digit (digit_char k) = true.
Proof.
  intros H. do 10 (destruct k as [| k]; [ reflexivity |]). lia.
Qed.

Lemma digit_is_not (x c : ascii) :
  is_digit x = false -> is_digit c = true -> negb (Ascii.eqb c x) = true.
Proof.
  intros Hx Hc. apply negb_true_iff, Ascii.eqb_neq. intros <-. congruence.
Qed.

Lemma no_char_milli_decimals (x : ascii) (m : nat) :
  is_digit x = false -> no_char x (milli_decimals m) = true.
Proof.
  intros Hx. unfold milli_decimals.
  assert (D : forall k, negb (Ascii.eqb (digit_char (k mod 10)) x) = true).
  { intros k. apply digit_is_not; [ exact Hx |].
    apply digit_char_is_digit, Nat.mod_upper_bound. lia. }
  destruct (negb (Nat.eqb (m mod 10) 0));
    [| destruct (negb (Nat.eqb ((m / 10) mod 10) 0)) ];
    cbn [no_char]; rewrite ?D; reflexivity.
Qed.

Lemma no_underscore_dot_to_dash (s : string) :
  no_char "_" s = true -> no_char "_" (dot_to_dash s) = true.
Proof.
  induction s as [| c s IH]; cbn [no_char dot_to_dash]; [ reflexivity |].
  intros H. apply andb_true_iff in H. destruct H as [Hc Hs].
  rewrite (IH Hs), andb_true_r.
  destruct (Ascii.eqb c "."); [ reflexivity | exact Hc ].
Qed.

Lemma no_underscore_factor_tail (m : nat) :
  no_char "_" (dot_to_dash (str_of_milli m) ++ ".obj") = true.
Proof.
  rewrite no_char_app, no_underscore_dot_to_dash; [ reflexivity |].
  unfold str_of_milli. rewrite !no_char_app.
  rewrite no_char_str_of_nat, no_char_milli_decimals; reflexivity.
Qed.

Lemma split_interpolation_name (i1 i2 m : nat) :
  split_dunder (interpolation_name i1 i2 m)
  = [str_of_nat i1; str_of_nat i2;
     (dot_to_dash (str_of_milli m) ++ ".obj")%string].
Proof.
  unfold split_dunder, interpolation_name.
  rewrite split_dunder_component by (apply no_char_str_of_nat; reflexivity).
  rewrite split_dunder_component by (apply no_char_str_of_nat; reflexivity).
  rewrite split_dunder_last by apply no_underscore_factor_tail.
  reflexivity.
Qed.

Lemma split_arithmetic_name (i0 i1 i2 : nat) :
  split_dunder (arithmetic_name i0 i1 i2)
  = [str_of_nat i0; str_of_nat i1; (str_of_nat i2 ++ ".obj")%string].
Proof.
  unfold split_dunder, arithmetic_name.
  rewrite split_dunder_component by (apply no_char_str_of_nat; reflexivity).
  rewrite split_dunder_component by (apply no_char_str_of_nat; reflexivity).
  rewrite split_dunder_last
    by (rewrite no_char_app, no_char_str_of_nat; reflexivity).
  reflexivity.
Qed.

(** The parents read back from a name are the indices it was built from. *)
Lemma parents_of_interpolation_name (i1 i2 m k : nat) (code : Tensor.t) :
  parent_indices {| name := NameStr (interpolation_name i1 i2 m);
                    index := k; synthesis_type := interpolation;
                    latent_code := code |}
  = Ok [Z.of_nat i1; Z.of_nat i2].
Proof.
  unfold parent_indices. cbn [synthesis_type name].
  rewrite split_interpolation_name.
  cbn [removelast map_result]. rewrite !py_int_str_of_nat. reflexivity.
Qed.

Lemma parents_of_arithmetic_name (i0 i1 i2 k : nat) (code : Tensor.t) :
  parent_indices {| name := NameStr (arithmetic_name i0 i1 i2);
                    index := k; synthesis_type := arithmetic;
                    latent_code := code |}
  = Ok [Z.of_nat i0; Z.of_nat i1; Z.of_nat i2].
Proof.
  unfold parent_indices. cbn [synthesis_type name].
  rewrite split_arithmetic_name. cbn [map_result].
  destruct (remove_obj_plain (str_of_nat i0)) as [E0 _];
    [ apply no_char_str_of_nat; reflexivity |].
  destruct (remove_obj_plain (str_of_nat i1)) as [E1 _];
    [ apply no_char_str_of_nat; reflexivity |].
  destruct (remove_obj_plain (str_of_nat i2)) as [_ E2];
    [ apply no_char_str_of_nat; reflexivity |].
  rewrite E0, E1, E2, !py_int_str_of_nat. reflexivity.
Qed.

(** ** The candidate of an iteration *)

Lemma draw_in {A : Type} (k : nat) (rs : list nat) (pool : list A) (x : A) :
  In x (draw rs pool k) -> In x pool.
Proof.
  destruct (draw_distinct_positions k rs pool) as (ps & _ & Hall).
  induction Hall as [| p y ps' ys Hp _ IH]; intros Hin; [ contradiction |].
  destruct Hin as [<- | Hin]; [| exact (IH Hin) ].
  eapply nth_error_In. exact Hp.
Qed.

Lemma random_sample_ok {A : Type} (rs : list nat) (pool : list A) (k : nat)
    (picked : list A) :
  random_sample rs pool k = Ok picked ->
  length picked = k /\ Forall (fun x => In x pool) picked.
Proof.
  unfold random_sample. destruct (Nat.ltb_spec (length pool) k) as [| Hk];
    [ discriminate |].
  intros H. injection H as <-. split.
  - apply draw_length. exact Hk.
  - apply Forall_forall. intros x. apply draw_in.
Qed.

Lemma arithmetic_selection_ok (trained : nat) (data : list SynthesisRecord)
    (sel : Selection) (id : string) (code : Tensor.t) :
  random_arithmetic_operations_synthesis trained data sel = Ok (id, code) ->
  exists e0 e1 e2,
    In e0 data /\ In e1 data /\ In e2 data /\
    (id ++ ".obj")%string
    = arithmetic_name (index e0) (index e1) (index e2).
Proof.
  unfold random_arithmetic_operations_synthesis. intros H.
  apply bind_ok in H. destruct H as (picked & Hs & H).
  apply random_sample_ok in Hs. destruct Hs as [Hlen Hin].
  destruct picked as [| e0 [| e1 [| e2 [| e3 rest]]]]; try discriminate.
  inversion Hin as [| ? ? H0 Hin0]; subst.
  inversion Hin0 as [| ? ? H1 Hin1]; subst.
  inversion Hin1 as [| ? ? H2 _]; subst.
  apply candidate_pool_excludes in H0, H1, H2.
  cbn [arithmetic_loop length] in H.
  apply bind_ok in H. destruct H as (n1 & _ & H).
  apply bind_ok in H. destruct H as (n2 & _ & H).
  injection H as <- _.
  exists e0, e1, e2. repeat split; try tauto.
  unfold arithmetic_name. rewrite !string_app_assoc. reflexivity.
Qed.

Lemma interpolation_selection_ok (trained : nat)
    (data : list SynthesisRecord) (sel : Selection) (id : string)
    (m : nat) (code : Tensor.t) :
  random_interpolation_synthesis trained data sel = Ok (id, m, code) ->
  exists e1 e2,
    In e1 data /\ In e2 data /\ m = factor_milli sel /\
    (id ++ "__" ++ dot_to_dash (str_of_milli m) ++ ".obj")%string
    = interpolation_name (index e1) (index e2) m.
Proof.
  unfold random_interpolation_synthesis. intros H.
  apply bind_ok in H. destruct H as (picked & Hs & H).
  apply random_sample_ok in Hs. destruct Hs as [Hlen Hin].
  destruct picked as [| e1 [| e2 [| e3 rest]]]; try discriminate.
  inversion Hin as [| ? ? H1 Hin1]; subst.
  inversion Hin1 as [| ? ? H2 _]; subst.
  apply candidate_pool_excludes in H1, H2.
  apply bind_ok in H. destruct H as (c & _ & H).
  injection H as <- <- _.
  exists e1, e2. repeat split; try tauto.
  unfold interpolation_name. rewrite !string_app_assoc. reflexivity.
Qed.

Lemma candidate_ok (sdf_decoder : SDFdecoder) (data : list SynthesisRecord)
    (d : Draws) (type : SynthesisType) (file_name : string)
    (code : Tensor.t) :
  candidate sdf_decoder data d = Ok (type, file_name, code) ->
  exists parents, candidate_of data type file_name parents.
Proof.
  unfold candidate. destruct (pick_arithmetic d); intros H;
    apply bind_ok in H; destruct H as (r & Hr & H).
  - destruct r as [id c]. injection H as <- <- _.
    apply arithmetic_selection_ok in Hr.
    destruct Hr as (e0 & e1 & e2 & H0 & H1 & H2 & Hn).
    exists [index e0; index e1; index e2].
    change (candidate_of data arithmetic (id ++ ".obj")%string
              [index e0; index e1; index e2]).
    rewrite Hn. constructor; assumption.
  - destruct r as [[id m] c]. injection H as <- <- _.
    apply interpolation_selection_ok in Hr.
    destruct Hr as (e1 & e2 & H1 & H2 & _ & Hn).
    exists [index e1; index e2].
    change (candidate_of data interpolation
              (id ++ "__" ++ dot_to_dash (str_of_milli m) ++ ".obj")%string
              [index e1; index e2]).
    rewrite Hn. constructor; assumption.
Qed.

Lemma candidate_of_parents (data : list SynthesisRecord)
    (type : SynthesisType) (file_name : string) (parents : list nat)
    (k : nat) (code : Tensor.t) :
  candidate_of data type file_name parents ->
  parent_indices {| name := NameStr file_name; index := k;
                    synthesis_type := type; latent_code := code |}
  = Ok (map Z.of_nat parents) /\
  type <> initial /\
  Forall (fun p => exists e, In e data /\ index e = p) parents.
Proof.
  intros [e0 e1 e2 H0 H1 H2 | e1 e2 m H1 H2].
  - split; [ apply parents_of_arithmetic_name |].
    split; [ discriminate |]. repeat constructor; eauto.
  - split; [ apply parents_of_interpolation_name |].
    split; [ discriminate |]. repeat constructor; eauto.
Qed.

Lemma candidate_of_first_char (data : list SynthesisRecord)
    (type : SynthesisType) (file_name : string) (parents : list nat) :
  candidate_of data type file_name parents ->
  exists c, first_char file_name = Some c /\ is_digit c = true.
Proof.
  intros [e0 e1 e2 _ _ _ | e1 e2 m _ _].
  - destruct (first_char_str_of_nat (index e0)) as (c & Hc & Hd).
    exists c. split; [| exact Hd ].
    unfold arithmetic_name. apply first_char_app. exact Hc.
  - destruct (first_char_str_of_nat (index e1)) as (c & Hc & Hd).
    exists c. split; [| exact Hd ].
    unfold interpolation_name. apply first_char_app. exact Hc.
Qed.

(** ** Paths of the run *)

Lemma digit_first_char_relative (s : string) (c : ascii) :
  first_char s = Some c -> is_digit c = true ->
  starts_with_slash s = false /\ s <> synthesized_latent_codes_npz.
Proof.
  intros Hc Hd. destruct s as [| x s]; [ discriminate |].
  injection Hc as ->. split.
  - cbn. destruct c as [[] [] [] [] [] [] [] []]; try reflexivity.
    discriminate.
  - intros E. unfold synthesized_latent_codes_npz in E.
    injection E as -> _. discriminate.
Qed.

Lemma path_join_relative_inj (dir a b : string) :
  starts_with_slash a = false -> starts_with_slash b = false ->
  path_join dir a = path_join dir b -> a = b.
Proof.
  unfold path_join. intros -> ->.
  destruct (String.eqb dir "" || ends_with_slash dir)%bool; intros H.
  - exact (string_app_cancel_l _ _ _ H).
  - apply string_app_cancel_l in H. injection H as H. exact H.
Qed.

(** The file of a candidate is never the ledger file. *)
Lemma candidate_path_is_not_the_ledger (data : list SynthesisRecord)
    (type : SynthesisType) (file_name : string) (parents : list nat)
    (save_dir : string) :
  candidate_of data type file_name parents ->
  path_join save_dir file_name
  <> path_join save_dir synthesized_latent_codes_npz.
Proof.
  intros Hc E. destruct (candidate_of_first_char _ _ _ _ Hc) as (c & Hf & Hd).
  destruct (digit_first_char_relative _ _ Hf Hd) as [Hrel Hne].
  apply Hne. eapply path_join_relative_inj; [ exact Hrel | reflexivity | exact E ].
Qed.

Lemma write_other (p q : string) (f : File) (d : Disk) :
  q <> p -> write p f d q = d q.
Proof.
  intros H. unfold write. destruct (String.eqb_spec q p); [ contradiction | reflexivity ].
Qed.

Lemma write_same (p : string) (f : File) (d : Disk) : write p f d p = Some f.
Proof. unfold write. rewrite String.eqb_refl. reflexivity. Qed.

(** ** [synthesize] and the disk *)

Lemma synthesize_disk (R : Reconstructor) (sdf_decoder : SDFdecoder)
    (latent_code : Tensor.t) (save_name : option string) (resolution : nat)
    (normalize map_z_to_y check_watertight : bool) (w w' : World)
    (mesh : option Mesh) :
  synthesize R sdf_decoder latent_code save_name resolution normalize
    map_z_to_y check_watertight w = Ok (mesh, w') ->
  disk w' = match mesh, save_name with
            | Some m, Some p => write p (MeshFile m) (disk w)
            | _, _ => disk w
            end.
Proof.
  unfold synthesize.
  destruct (get_volume_coords R resolution) as [cs g].
  intros H. apply bind_ok in H. destruct H as (batches & _ & H).
  destruct (extract_mesh R g _ normalize map_z_to_y check_watertight)
    as [m |]; destruct save_name as [p |];
    injection H as <- <-; reflexivity.
Qed.

(** ** One iteration *)

Section Iteration.

Variables (R : Reconstructor) (sdf_decoder : SDFdecoder)
          (save_dir : string) (resolution : nat)
          (map_z_to_y check_watertight : bool).

Lemma iteration_skips (d : Draws) (st : LoopState) (type : SynthesisType)
    (file_name : string) (code : Tensor.t) :
  candidate sdf_decoder (ledger st) d = Ok (type, file_name, code) ->
  path_exists (disk (world st)) (path_join save_dir file_name) = true ->
  iteration R sdf_decoder save_dir resolution map_z_to_y check_watertight
    d st = Ok (Skipped, st).
Proof.
  intros Hc He. unfold iteration. rewrite Hc. cbn [bind].
  rewrite He. reflexivity.
Qed.

Lemma iteration_extends (d : Draws) (st : LoopState) (type : SynthesisType)
    (file_name : string) (code : Tensor.t) (mesh : option Mesh)
    (w : World) :
  candidate sdf_decoder (ledger st) d = Ok (type, file_name, code) ->
  path_exists (disk (world st)) (path_join save_dir file_name) = false ->
  synthesize R sdf_decoder code (Some (path_join save_dir file_name))
    resolution true map_z_to_y check_watertight (world st)
  = Ok (mesh, w) ->
  iteration R sdf_decoder save_dir resolution map_z_to_y check_watertight
    d st
  = Ok (Extended,
        let data := ledger st ++
                    [ {| name := NameStr file_name;
                         index := length (ledger st);
                         synthesis_type := type;
                         latent_code := code |} ] in
        {| ledger := data;
           world := {| disk := write
                               (path_join save_dir
                                  synthesized_latent_codes_npz)
                               (LedgerFile data) (disk w);
                       decoder_calls := decoder_calls w |} |}).
Proof.
  intros Hc He Hs. unfold iteration. rewrite Hc. cbn [bind].
  rewrite He, Hs. reflexivity.
Qed.

(** Every iteration that returns either skips, leaving the state as it
    was, or appends one record built from the candidate. *)
Lemma iteration_cases (d : Draws) (st st' : LoopState) (o : Outcome) :
  iteration R sdf_decoder save_dir resolution map_z_to_y check_watertight
    d st = Ok (o, st') ->
  exists type file_name code,
    candidate sdf_decoder (ledger st) d = Ok (type, file_name, code) /\
    ((o = Skipped /\ st' = st /\
      path_exists (disk (world st)) (path_join save_dir file_name) = true)
     \/
     (o = Extended /\
      path_exists (disk (world st)) (path_join save_dir file_name) = false
      /\ ledger st'
         = ledger st ++ [ {| name := NameStr file_name;
                             index := length (ledger st);
                             synthesis_type := type;
                             latent_code := code |} ])).
Proof.
  unfold iteration. intros H.
  apply bind_ok in H. destruct H as ([[type file_name] code] & Hc & H).
  exists type, file_name, code. split; [ exact Hc |].
  destruct (path_exists (disk (world st)) (path_join save_dir file_name)).
  - injection H as <- <-. left. auto.
  - apply bind_ok in H. destruct H as (r & _ & H).
    injection H as <- <-. right. auto.
Qed.

End Iteration.

(** ** The ledger along the loop *)

Lemma seed_from_nth (codes : list Tensor.t) :
  forall i k r, nth_error (seed_from i codes) k = Some r ->
    index r = i + k /\ synthesis_type r = initial.
Proof.
  induction codes as [| c codes IH]; intros i k r H.
  - destruct k; discriminate.
  - destruct k as [| k]; cbn in H.
    + injection H as <-. cbn. split; [ lia | reflexivity ].
    + apply IH in H. cbn in H. split; [ lia | tauto ].
Qed.

Lemma seed_length (codes : list Tensor.t) : length (seed codes) = length codes.
Proof.
  unfold seed. generalize 0. induction codes as [| c codes IH]; intros i;
    cbn; [ reflexivity | rewrite IH; reflexivity ].
Qed.

Lemma seed_index_is_position (codes : list Tensor.t) :
  index_is_position (seed codes).
Proof. intros k r H. apply seed_from_nth in H. tauto. Qed.

Lemma index_is_position_snoc (data : list SynthesisRecord)
    (r : SynthesisRecord) :
  index_is_position data -> index r = length data ->
  index_is_position (data ++ [r]).
Proof.
  intros Hd Hr k x Hx.
  destruct (Nat.lt_ge_cases k (length data)) as [Hlt | Hge].
  - rewrite nth_error_app1 in Hx by exact Hlt. exact (Hd _ _ Hx).
  - rewrite nth_error_app2 in Hx by exact Hge.
    destruct (k - length data) as [| j] eqn:E; cbn in Hx.
    + injection Hx as <-. lia.
    + destruct j; discriminate.
Qed.

Lemma count_extended_cons (o : Outcome) (os : list Outcome) :
  count_extended (o :: os)
  = (match o with Extended => 1 | Skipped => 0 end) + count_extended os.
Proof. destruct o; reflexivity. Qed.

Section Loop.

Variables (R : Reconstructor) (sdf_decoder : SDFdecoder)
          (save_dir : string) (synthesis_count : option nat)
          (resolution : nat) (map_z_to_y check_watertight : bool).

(** Along the loop the ledger only grows at its end, by one record per
    extending iteration, each carrying its position as index. *)
Lemma synthesis_loop_appends (draws : list Draws) :
  forall (st st' : LoopState) (outcomes : list Outcome),
    synthesis_loop R sdf_decoder save_dir synthesis_count resolution
      map_z_to_y check_watertight draws st = Ok (outcomes, st') ->
    exists appended,
      ledger st' = ledger st ++ appended /\
      length appended = count_extended outcomes /\
      (index_is_position (ledger st) -> index_is_position (ledger st')).
Proof.
  induction draws as [| d rest IH]; intros st st' outcomes H.
  - injection H as <- <-. exists []. rewrite app_nil_r. auto.
  - cbn [synthesis_loop] in H.
    destruct (below_count (length (ledger st)) synthesis_count).
    + apply bind_ok in H. destruct H as ([o st1] & Hstep & H).
      apply bind_ok in H. destruct H as ([os st2] & Hrest & H).
      cbn [fst snd] in *. injection H as <- <-.
      destruct (IH _ _ _ Hrest) as (app2 & E2 & L2 & I2).
      apply iteration_cases in Hstep.
      destruct Hstep as (ty & fn & code & _ & [(-> & -> & _) | (-> & _ & E1)]).
      * exists app2. rewrite count_extended_cons. auto.
      * exists ({| name := NameStr fn; index := length (ledger st);
                   synthesis_type := ty; latent_code := code |} :: app2).
        rewrite count_extended_cons. split; [| split ].
        -- rewrite E2, E1, <- app_assoc. reflexivity.
        -- cbn [length]. rewrite L2. reflexivity.
        -- intros Hi. apply I2. rewrite E1.
           apply index_is_position_snoc; [ exact Hi | reflexivity ].
    + injection H as <- <-. exists []. rewrite app_nil_r. auto.
Qed.

End Loop.

(** C1.  Started without a ledger file, the run seeds the ledger with one
    initial record per trained latent code; however many iterations have
    run, the ledger is the seed followed by one record per extending
    (non-skipped) iteration, so its length is the initial length plus their
    number, and the record at each position [k] has index [k]. *)
Theorem ledger_append_invariant (R : Reconstructor) (sdf_decoder : SDFdecoder)
    (save_dir : string) (synthesis_count : option nat) (resolution : nat)
    (map_z_to_y check_watertight : bool) (draws : list Draws) (w : World)
    (outcomes : list Outcome) (st' : LoopState) :
  disk w (path_join save_dir synthesized_latent_codes_npz) = None ->
  infinite_synthesis R sdf_decoder save_dir synthesis_count resolution
    map_z_to_y check_watertight draws w = Ok (outcomes, st') ->
  index_is_position (seed (latent_codes sdf_decoder)) /\
  length (seed (latent_codes sdf_decoder)) = length (latent_codes sdf_decoder) /\
  (exists appended,
     ledger st' = seed (latent_codes sdf_decoder) ++ appended /\
     length appended = count_extended outcomes) /\
  length (ledger st')
  = length (latent_codes sdf_decoder) + count_extended outcomes /\
  index_is_position (ledger st').
Proof.
  intros Hfresh H. unfold infinite_synthesis in H. rewrite Hfresh in H.
  cbn [bind] in H. apply synthesis_loop_appends in H.
  destruct H as (appended & E & L & I). cbn [ledger] in *.
  split; [ apply seed_index_is_position |].
  split; [ apply seed_length |].
  split; [ exists appended; auto |].
  split.
  - rewrite E, length_app, seed_length, L. reflexivity.
  - apply I, seed_index_is_position.
Qed.

Lemma ledger_append_invariant_witness :
  exists outcomes st',
    infinite_synthesis lattice_reconstructor (plane_decoder three_codes)
      "out" None 10 true true
      [arithmetic_201; arithmetic_201; blend_01; arithmetic_012] fresh_world
    = Ok (outcomes, st') /\
    outcomes = [Extended; Skipped; Extended; Extended] /\
    length (ledger st') = 3 + count_extended outcomes /\
    index_is_position (ledger st').
Proof.
  destruct (infinite_synthesis lattice_reconstructor
              (plane_decoder three_codes) "out" None 10 true true
              [arithmetic_201; arithmetic_201; blend_01; arithmetic_012]
              fresh_world) as [[outcomes st'] | e] eqn:E.
  - exists outcomes, st'. split; [ reflexivity |].
    split.
    + assert (Ho : fst (outcomes, st')
                   = [Extended; Skipped; Extended; Extended])
        by (rewrite <- (f_equal
                          (fun r => match r with
                                    | Ok p => fst p
                                    | Raise _ => []
                                    end) E); vm_compute; reflexivity).
      exact Ho.
    + apply (ledger_append_invariant lattice_reconstructor
               (plane_decoder three_codes) "out" None 10 true true
               [arithmetic_201; arithmetic_201; blend_01; arithmetic_012]
               fresh_world outcomes st'); [ reflexivity | exact E ].
  - vm_compute in E. discriminate.
Defined.

(** ** Skipping an existing target *)

(** C7.  In an iteration whose target file already exists the body stops
    at the test: the iteration is a skip, the ledger, the disk (so also the
    ledger file) and the count of decoder calls are what they were, and the
    loop goes on with the next iteration from that same state. *)
Theorem existing_target_is_skipped (R : Reconstructor)
    (sdf_decoder : SDFdecoder) (save_dir : string)
    (synthesis_count : option nat) (resolution : nat)
    (map_z_to_y check_watertight : bool) (d : Draws) (rest : list Draws)
    (st : LoopState) (type : SynthesisType) (file_name : string)
    (code : Tensor.t) :
  below_count (length (ledger st)) synthesis_count = true ->
  candidate sdf_decoder (ledger st) d = Ok (type, file_name, code) ->
  path_exists (disk (world st)) (path_join save_dir file_name) = true ->
  exists st',
    iteration R sdf_decoder save_dir resolution map_z_to_y check_watertight
      d st = Ok (Skipped, st') /\
    ledger st' = ledger st /\
    disk (world st') = disk (world st) /\
    decoder_calls (world st') = decoder_calls (world st) /\
    synthesis_loop R sdf_decoder save_dir synthesis_count resolution
      map_z_to_y check_watertight (d :: rest) st
    = (r <- synthesis_loop R sdf_decoder save_dir synthesis_count resolution
              map_z_to_y check_watertight rest st' ;;
       Ok (Skipped :: fst r, snd r)).
Proof.
  intros Hb Hc He. exists st.
  pose proof (iteration_skips R sdf_decoder save_dir resolution map_z_to_y
                check_watertight d st type file_name code Hc He) as Hs.
  repeat split; try exact Hs.
  cbn [synthesis_loop]. rewrite Hb, Hs. reflexivity.
Qed.

Lemma existing_target_is_skipped_witness :
  exists st',
    iteration lattice_reconstructor (plane_decoder three_codes) "out" 10
      true true arithmetic_201 state_with_file = Ok (Skipped, st') /\
    ledger st' = ledger state_with_file /\
    disk (world st') = disk (world state_with_file) /\
    decoder_calls (world st') = decoder_calls (world state_with_file) /\
    synthesis_loop lattice_reconstructor (plane_decoder three_codes) "out"
      None 10 true true (arithmetic_201 :: [blend_01]) state_with_file
    = (r <- synthesis_loop lattice_reconstructor (plane_decoder three_codes)
              "out" None 10 true true [blend_01] st' ;;
       Ok (Skipped :: fst r, snd r)).
Proof.
  apply (existing_target_is_skipped lattice_reconstructor
           (plane_decoder three_codes) "out" None 10 true true
           arithmetic_201 [blend_01] state_with_file arithmetic
           "2__0__1.obj" [-1; 1]%Q); reflexivity.
Defined.

(** ** An iteration without surface *)

(** C9.  In an iteration that is not skipped and whose extraction finds no
    surface, the record of the candidate is appended with the ledger length
    as index, the ledger file is rewritten with the extended ledger, every
    other path of the disk is as before, and no file exists under the name
    the new record carries. *)
Theorem missing_surface_is_recorded (R : Reconstructor)
    (sdf_decoder : SDFdecoder) (save_dir : string) (resolution : nat)
    (map_z_to_y check_watertight : bool) (d : Draws) (st : LoopState)
    (type : SynthesisType) (file_name : string) (code : Tensor.t)
    (w : World) :
  candidate sdf_decoder (ledger st) d = Ok (type, file_name, code) ->
  path_exists (disk (world st)) (path_join save_dir file_name) = false ->
  synthesize R sdf_decoder code (Some (path_join save_dir file_name))
    resolution true map_z_to_y check_watertight (world st) = Ok (None, w) ->
  exists st',
    iteration R sdf_decoder save_dir resolution map_z_to_y check_watertight
      d st = Ok (Extended, st') /\
    ledger st'
    = ledger st ++ [ {| name := NameStr file_name;
                        index := length (ledger st);
                        synthesis_type := type;
                        latent_code := code |} ] /\
    disk (world st') (path_join save_dir synthesized_latent_codes_npz)
    = Some (LedgerFile (ledger st')) /\
    (forall p, p <> path_join save_dir synthesized_latent_codes_npz ->
               disk (world st') p = disk (world st) p) /\
    path_exists (disk (world st')) (path_join save_dir file_name) = false.
Proof.
  intros Hc He Hs.
  pose proof (iteration_extends R sdf_decoder save_dir resolution map_z_to_y
                check_watertight d st type file_name code None w Hc He Hs)
    as Hstep.
  eexists. split; [ exact Hstep |].
  cbn [ledger world disk]. apply synthesize_disk in Hs. cbn in Hs.
  split; [ reflexivity |].
  split; [ apply write_same |].
  assert (Hother : forall p,
            p <> path_join save_dir synthesized_latent_codes_npz ->
            write (path_join save_dir synthesized_latent_codes_npz)
              (LedgerFile
                 (ledger st ++ [ {| name := NameStr file_name;
                                    index := length (ledger st);
                                    synthesis_type := type;
                                    latent_code := code |} ]))
              (disk w) p = disk (world st) p).
  { intros p Hp. rewrite write_other by exact Hp. rewrite Hs. reflexivity. }
  split; [ exact Hother |].
  unfold path_exists in *. rewrite Hother; [ exact He |].
  destruct (candidate_ok _ _ _ _ _ _ Hc) as (parents & Hof).
  exact (candidate_path_is_not_the_ledger _ _ _ _ save_dir Hof).
Qed.

Lemma missing_surface_is_recorded_witness :
  exists st',
    iteration lattice_reconstructor (plane_decoder three_codes) "out" 10
      true true arithmetic_012 fresh_state = Ok (Extended, st') /\
    ledger st'
    = ledger fresh_state ++ [ {| name := NameStr "0__1__2.obj";
                                 index := length (ledger fresh_state);
                                 synthesis_type := arithmetic;
                                 latent_code := [1; -1]%Q |} ] /\
    disk (world st') (path_join "out" synthesized_latent_codes_npz)
    = Some (LedgerFile (ledger st')) /\
    (forall p, p <> path_join "out" synthesized_latent_codes_npz ->
               disk (world st') p = disk (world fresh_state) p) /\
    path_exists (disk (world st')) (path_join "out" "0__1__2.obj") = false.
Proof.
  apply (missing_surface_is_recorded lattice_reconstructor
           (plane_decoder three_codes) "out" 10 true true arithmetic_012
           fresh_state arithmetic "0__1__2.obj" [1; -1]%Q
           {| disk := empty_disk; decoder_calls := 1000 |});
    vm_compute; reflexivity.
Defined.

(** ** [trace_back_to_origin] *)

Lemma trace_loop_done (fuel : nat) (data traced : list SynthesisRecord) :
  trace_loop fuel data [] traced = Some (Ok traced).
Proof. destruct fuel; reflexivity. Qed.

Lemma py_index_in_range {A : Type} (l : list A) (i : Z) :
  (0 <= i < Z.of_nat (length l))%Z ->
  exists x, py_index l i = Ok x /\ nth_error l (Z.to_nat i) = Some x.
Proof.
  intros H. unfold py_index.
  destruct (Z.ltb_spec i 0) as [| _]; [ lia |].
  destruct (Z.ltb_spec i 0) as [| _]; [ lia |].
  destruct (Z.leb_spec (Z.of_nat (length l)) i) as [| _]; [ lia |].
  cbn [orb].
  destruct (nth_error l (Z.to_nat i)) as [x |] eqn:E; [ eauto |].
  apply nth_error_None in E. lia.
Qed.

Lemma parent_indices_initial (r : SynthesisRecord) :
  synthesis_type r = initial -> parent_indices r = Ok [].
Proof. unfold parent_indices. intros ->. reflexivity. Qed.

(** One visit: the record is appended to the output and, unless it is
    initial, its parents join the back of the queue. *)
Lemma trace_loop_visit (fuel : nat) (data : list SynthesisRecord) (i : Z)
    (queue : list Z) (traced : list SynthesisRecord) (r : SynthesisRecord)
    (ps : list Z) :
  py_index data i = Ok r ->
  parent_indices r = Ok ps ->
  trace_loop (S fuel) data (i :: queue) traced
  = trace_loop fuel data (queue ++ ps) (traced ++ [r]).
Proof.
  intros Hi Hp. cbn [trace_loop]. rewrite Hi.
  destruct (synthesis_type r) eqn:E.
  - rewrite (parent_indices_initial r E) in Hp. injection Hp as <-.
    rewrite app_nil_r. reflexivity.
  - rewrite Hp. reflexivity.
  - rewrite Hp. reflexivity.
Qed.

Lemma record_parents_ok (data : list SynthesisRecord) (i : Z)
    (r : SynthesisRecord) (ps : list Z) :
  py_index data i = Ok r -> parent_indices r = Ok ps ->
  record_parents data i = ps.
Proof. intros Hi Hp. unfold record_parents. rewrite Hi, Hp. reflexivity. Qed.

Lemma records_at_app (data : list SynthesisRecord) (a b : list Z) :
  records_at data (a ++ b) = records_at data a ++ records_at data b.
Proof. apply flat_map_app. Qed.

Lemma level_order_nil (data : list SynthesisRecord) (depth : nat) :
  level_order depth data [] = [].
Proof. induction depth as [| d IH]; cbn; [ reflexivity | exact IH ]. Qed.

Section Tracing.

Variable data : list SynthesisRecord.
Hypothesis Hdata : provenance_ok data.

Lemma provenance_at (i : Z) :
  (0 <= i < Z.of_nat (length data))%Z ->
  exists r ps, py_index data i = Ok r /\ parent_indices r = Ok ps /\
               Forall (fun p => (0 <= p < i)%Z) ps.
Proof.
  intros H. destruct (py_index_in_range data i H) as (r & Hi & Hn).
  destruct (Hdata _ _ Hn) as (ps & Hp & Hall).
  exists r, ps. repeat split; try assumption.
  rewrite Z2Nat.id in Hall by lia. exact Hall.
Qed.

(** The queue is served in order: once a whole frontier has been
    visited, what waits is what waited behind it, then the parents of
    its members in their order. *)
Lemma trace_loop_frontier (a : list Z) :
  Forall (fun i => (0 <= i < Z.of_nat (length data))%Z) a ->
  forall (b : list Z) (traced : list SynthesisRecord) (fuel : nat),
    trace_loop (length a + fuel) data (a ++ b) traced
    = trace_loop fuel data (b ++ flat_map (record_parents data) a)
        (traced ++ records_at data a).
Proof.
  induction 1 as [| i a Hi _ IH]; intros b traced fuel.
  - cbn. rewrite !app_nil_r. reflexivity.
  - destruct (provenance_at i Hi) as (r & ps & Hr & Hp & _).
    cbn [length Nat.add app].
    rewrite (trace_loop_visit _ _ _ _ _ _ _ Hr Hp).
    rewrite <- app_assoc, IH.
    cbn [flat_map records_at]. rewrite (record_parents_ok _ _ _ _ Hr Hp).
    rewrite Hr. fold (records_at data a).
    rewrite <- !app_assoc. reflexivity.
Qed.

Lemma next_frontier_below (bound : Z) (frontier : list Z) :
  (bound <= Z.of_nat (length data))%Z ->
  Forall (fun p => (0 <= p < bound)%Z) frontier ->
  Forall (fun p => (0 <= p < bound - 1)%Z)
         (flat_map (record_parents data) frontier).
Proof.
  intros Hb. induction 1 as [| i a Hi _ IH]; [ constructor |].
  cbn [flat_map]. apply Forall_app. split; [| exact IH ].
  destruct (provenance_at i) as (r & ps & Hr & Hp & Hall); [ lia |].
  rewrite (record_parents_ok _ _ _ _ Hr Hp).
  eapply Forall_impl; [| exact Hall ]. cbn. intros p; lia.
Qed.

(** The output of the loop is the level order of the derivation, every
    visit kept. *)
Lemma trace_loop_level_order (depth : nat) :
  forall (bound : Z) (frontier : list Z),
    (bound <= Z.of_nat (length data))%Z ->
    Forall (fun p => (0 <= p < bound)%Z) frontier ->
    Z.to_nat bound <= depth ->
    exists fuel, forall traced,
      trace_loop fuel data frontier traced
      = Some (Ok (traced
                  ++ records_at data (level_order depth data frontier))).
Proof.
  induction depth as [| d IH]; intros bound frontier Hb Hall Hd.
  - destruct frontier as [| i rest].
    + exists 0. intros traced. cbn. rewrite app_nil_r. reflexivity.
    + inversion Hall; subst. lia.
  - destruct frontier as [| i rest] eqn:Ef.
    + exists 0. intros traced. cbn [level_order flat_map app].
      rewrite level_order_nil. cbn. rewrite app_nil_r. reflexivity.
    + rewrite <- Ef in *.
      assert (Hpos : (0 < bound)%Z)
        by (rewrite Ef in Hall; inversion Hall; subst; lia).
      destruct (IH (bound - 1)%Z (flat_map (record_parents data) frontier))
        as (fuel & Hfuel);
        [ lia | apply next_frontier_below; assumption | lia |].
      exists (length frontier + fuel). intros traced.
      rewrite <- (app_nil_r frontier) at 2.
      rewrite trace_loop_frontier.
      * cbn [app level_order]. rewrite Hfuel, records_at_app, app_assoc.
        reflexivity.
      * eapply Forall_impl; [| exact Hall ]. cbn. intros p; lia.
Qed.

End Tracing.

(** More fuel does not change a result. *)
Lemma trace_loop_more_fuel (data : list SynthesisRecord) (fuel : nat) :
  forall (queue : list Z) (traced : list SynthesisRecord)
         (res : Result (list SynthesisRecord)) (extra : nat),
    trace_loop fuel data queue traced = Some res ->
    trace_loop (fuel + extra) data queue traced = Some res.
Proof.
  induction fuel as [| fuel IH]; intros queue traced res extra H.
  - destruct queue; [| discriminate ].
    rewrite trace_loop_done. exact H.
  - destruct queue as [| i queue]; [ exact H |].
    cbn [trace_loop Nat.add] in *.
    destruct (py_index data i) as [r | e]; [| exact H ].
    destruct (synthesis_type r); [ apply IH; exact H | | ];
      (destruct (parent_indices r); [ apply IH; exact H | exact H ]).
Qed.

(** ** The ledgers of the loop can be traced *)

Lemma seed_provenance_ok (codes : list Tensor.t) : provenance_ok (seed codes).
Proof.
  intros k r H. apply seed_from_nth in H. destruct H as [_ Hty].
  exists []. split; [ apply parent_indices_initial; exact Hty | constructor ].
Qed.

Lemma provenance_ok_snoc (data : list SynthesisRecord) (type : SynthesisType)
    (file_name : string) (parents : list nat) (code : Tensor.t) :
  index_is_position data -> provenance_ok data ->
  candidate_of data type file_name parents ->
  provenance_ok (data ++ [ {| name := NameStr file_name;
                              index := length data;
                              synthesis_type := type;
                              latent_code := code |} ]).
Proof.
  intros Hi Hp Hc k r Hr.
  destruct (Nat.lt_ge_cases k (length data)) as [Hlt | Hge].
  - rewrite nth_error_app1 in Hr by exact Hlt. exact (Hp _ _ Hr).
  - rewrite nth_error_app2 in Hr by exact Hge.
    destruct (k - length data) as [| j] eqn:E; cbn in Hr;
      [| destruct j; discriminate ].
    injection Hr as <-.
    destruct (candidate_of_parents _ _ _ _ (length data) code Hc)
      as (Hpar & _ & Hall).
    exists (map Z.of_nat parents). split; [ exact Hpar |].
    apply Forall_map. eapply Forall_impl; [| exact Hall ].
    cbn. intros p (e & He & <-).
    apply In_nth_error in He. destruct He as (n & Hn).
    rewrite (Hi _ _ Hn).
    assert (n < length data) by (apply nth_error_Some; congruence).
    lia.
Qed.

Lemma synthesis_loop_provenance (R : Reconstructor)
    (sdf_decoder : SDFdecoder) (save_dir : string)
    (synthesis_count : option nat) (resolution : nat)
    (map_z_to_y check_watertight : bool) (draws : list Draws) :
  forall (st st' : LoopState) (outcomes : list Outcome),
    synthesis_loop R sdf_decoder save_dir synthesis_count resolution
      map_z_to_y check_watertight draws st = Ok (outcomes, st') ->
    index_is_position (ledger st) /\ provenance_ok (ledger st) ->
    index_is_position (ledger st') /\ provenance_ok (ledger st').
Proof.
  induction draws as [| d rest IH]; intros st st' outcomes H Hinv.
  - injection H as _ <-. exact Hinv.
  - cbn [synthesis_loop] in H.
    destruct (below_count (length (ledger st)) synthesis_count).
    + apply bind_ok in H. destruct H as ([o st1] & Hstep & H).
      apply bind_ok in H. destruct H as ([os st2] & Hrest & H).
      cbn [fst snd] in *. injection H as _ <-.
      apply (IH _ _ _ Hrest).
      apply iteration_cases in Hstep.
      destruct Hstep as (ty & fn & code & Hc & [(_ & -> & _) | (_ & _ & E1)]);
        [ exact Hinv |].
      rewrite E1. destruct Hinv as [Hi Hp].
      destruct (candidate_ok _ _ _ _ _ _ Hc) as (parents & Hof).
      split.
      * apply index_is_position_snoc; [ exact Hi | reflexivity ].
      * eapply provenance_ok_snoc; eassumption.
    + injection H as _ <-. exact Hinv.
Qed.

(** Every ledger a run builds from the seed can be traced: its names parse
    and every parent stands before its child. *)
Lemma infinite_synthesis_provenance (R : Reconstructor)
    (sdf_decoder : SDFdecoder) (save_dir : string)
    (synthesis_count : option nat) (resolution : nat)
    (map_z_to_y check_watertight : bool) (draws : list Draws) (w : World)
    (outcomes : list Outcome) (st' : LoopState) :
  disk w (path_join save_dir synthesized_latent_codes_npz) = None ->
  infinite_synthesis R sdf_decoder save_dir synthesis_count resolution
    map_z_to_y check_watertight draws w = Ok (outcomes, st') ->
  provenance_ok (ledger st').
Proof.
  intros Hfresh H. unfold infinite_synthesis in H. rewrite Hfresh in H.
  cbn [bind] in H. apply synthesis_loop_provenance in H; [ tauto |].
  cbn [ledger]. split;
    [ apply seed_index_is_position | apply seed_provenance_ok ].
Qed.

(** C8.  On a ledger [data]: (1) called on an initial record, the trace is
    that record alone; (2) a visit appends the record to the output and its
    parents to the back of the queue, which is served from the front;
    (3) the parents of an interpolation record named by the loop are
    exactly its two parent indices, and (4) those of an arithmetic record
    are all three of its parent indices, read back from the name; (5) on a
    ledger whose names parse with parents before children, the trace
    returns, given enough fuel, the records in level order from the given
    index, with one entry per visit and no deduplication. *)
Theorem trace_back_to_origin_bfs (data : list SynthesisRecord) :
  (forall (fuel : nat) (i : Z) (r : SynthesisRecord),
     py_index data i = Ok r -> synthesis_type r = initial ->
     trace_back_to_origin (S fuel) data i = Some (Ok [r])) /\
  (forall (fuel : nat) (i : Z) (queue : list Z)
          (traced : list SynthesisRecord) (r : SynthesisRecord) (ps : list Z),
     py_index data i = Ok r -> parent_indices r = Ok ps ->
     trace_loop (S fuel) data (i :: queue) traced
     = trace_loop fuel data (queue ++ ps) (traced ++ [r])) /\
  (forall (i1 i2 m k : nat) (code : Tensor.t),
     parent_indices {| name := NameStr (interpolation_name i1 i2 m);
                       index := k; synthesis_type := interpolation;
                       latent_code := code |}
     = Ok [Z.of_nat i1; Z.of_nat i2]) /\
  (forall (i0 i1 i2 k : nat) (code : Tensor.t),
     parent_indices {| name := NameStr (arithmetic_name i0 i1 i2);
                       index := k; synthesis_type := arithmetic;
                       latent_code := code |}
     = Ok [Z.of_nat i0; Z.of_nat i1; Z.of_nat i2]) /\
  (provenance_ok data ->
   forall i : Z, (0 <= i < Z.of_nat (length data))%Z ->
     exists enough, forall fuel, enough <= fuel ->
       trace_back_to_origin fuel data i
       = Some (Ok (records_at data
                     (level_order (S (Z.to_nat i)) data [i])))).
Proof.
  split; [| split; [| split; [| split ] ] ].
  - intros fuel i r Hi Hty. unfold trace_back_to_origin.
    rewrite (trace_loop_visit _ _ _ _ _ _ _ Hi (parent_indices_initial r Hty)).
    apply trace_loop_done.
  - intros. apply trace_loop_visit; assumption.
  - apply parents_of_interpolation_name.
  - apply parents_of_arithmetic_name.
  - intros Hdata i Hi.
    destruct (trace_loop_level_order data Hdata (S (Z.to_nat i)) (i + 1)%Z [i])
      as (enough & Henough).
    + lia.
    + constructor; [ lia | constructor ].
    + lia.
    + exists enough. intros fuel Hfuel. unfold trace_back_to_origin.
      replace fuel with (enough + (fuel - enough)) by lia.
      apply trace_loop_more_fuel. apply (Henough []).
Qed.

Lemma diamond_provenance_ok : provenance_ok diamond.
Proof.
  intros k r H.
  do 5 (destruct k as [| k];
        [ injection H as <-; eexists;
          (split; [ vm_compute; reflexivity | repeat constructor; lia ]) |]).
  destruct k; discriminate.
Qed.

Lemma trace_back_to_origin_bfs_witness :
  trace_back_to_origin 1 diamond 0
  = Some (Ok [ {| name := NameInt 0; index := 0; synthesis_type := initial;
                  latent_code := [0; 0]%Q |} ]) /\
  exists enough, forall fuel, enough <= fuel ->
    trace_back_to_origin fuel diamond 4
    = Some (Ok (records_at diamond (level_order 5 diamond [4%Z]))).
Proof.
  destruct (trace_back_to_origin_bfs diamond) as (Hinit & _ & _ & _ & Hbfs).
  split.
  - apply (Hinit 0 0%Z); reflexivity.
  - apply (Hbfs diamond_provenance_ok 4%Z). vm_compute. split; congruence.
Defined.

(** From record 4 of [diamond] the visits are 4; 3, 2, 0; 0, 2, 0, 1; 0, 1:
    record 2 is met twice and record 0 four times. *)
Example trace_of_diamond :
  option_map (fun res => match res with
                         | Ok rs => map index rs
                         | Raise _ => []
                         end)
             (trace_back_to_origin 10 diamond 4)
  = Some [4; 3; 2; 0; 0; 2; 0; 1; 0; 1] /\
  level_order 5 diamond [4%Z] = [4; 3; 2; 0; 0; 2; 0; 1; 0; 1]%Z /\
  trace_back_to_origin 9 diamond 4 = None.
Proof. repeat split; vm_compute; reflexivity. Qed.

(** The last record of a ledger can be asked for as [-1]. *)
Example trace_from_the_end :
  option_map (fun res => match res with
                         | Ok rs => map index rs
                         | Raise _ => []
                         end)
             (trace_back_to_origin 10 diamond (-1))
  = Some [4; 3; 2; 0; 0; 2; 0; 1; 0; 1].
Proof. vm_compute. reflexivity. Qed.

(** * Further properties of the sources *)

(** ** [random_interpolation_synthesis] *)

(** X1.  The pool of the interpolation synthesis holds no record of type
    arithmetic; with fewer than two candidates the draw fails; with two or
    more, two entries at distinct positions of the pool are drawn (with
    distinct indices, on a ledger whose indices are the positions), the
    identifier is their indices joined by ["__"], the factor returned is
    the one drawn, and for codes of one dimension the code is
    [entry1 * (1 - f) + entry2 * f]. *)
Theorem interpolation_synthesis (trained : nat) (data : list SynthesisRecord)
    (sel : Selection) :
  let pool :=
    candidate_pool arithmetic trained (restrict_to_trained sel) data in
  let f := (Z.of_nat (factor_milli sel) # 1000)%Q in
  Forall (fun rd => synthesis_type rd <> arithmetic /\ In rd data) pool /\
  (length pool < 2 ->
   random_interpolation_synthesis trained data sel = Raise ValueError) /\
  (2 <= length pool ->
   exists p1 p2 e1 e2,
     p1 <> p2 /\
     nth_error pool p1 = Some e1 /\ nth_error pool p2 = Some e2 /\
     (index_is_position data -> index e1 <> index e2) /\
     (length (latent_code e1) = length (latent_code e2) ->
      random_interpolation_synthesis trained data sel
      = Ok ((str_of_nat (index e1) ++ "__" ++ str_of_nat (index e2))%string,
            factor_milli sel,
            Tensor.zip_with Qplus
              (Tensor.scale (latent_code e1) (1 - f)%Q)
              (Tensor.scale (latent_code e2) f)))).
Proof.
  intros pool f. split; [| split ].
  - apply Forall_forall. intros rd Hin.
    exact (candidate_pool_excludes _ _ _ _ _ Hin).
  - intros Hlt. unfold random_interpolation_synthesis, random_sample.
    fold pool. apply Nat.ltb_lt in Hlt. rewrite Hlt. reflexivity.
  - intros Hge.
    assert (Hlen := draw_length 2 (sample_draws sel) pool Hge).
    destruct (draw_distinct_positions 2 (sample_draws sel) pool)
      as (ps & Hnd & Hall).
    destruct (draw (sample_draws sel) pool 2)
      as [| e1 [| e2 [| e3 rest]]] eqn:Hdraw; try discriminate.
    inversion Hall as [| p1 x1 ps1 l1 H1 Hall1]; subst.
    inversion Hall1 as [| p2 x2 ps2 l2 H2 Hall2]; subst.
    inversion Hall2; subst.
    exists p1, p2, e1, e2.
    split.
    { inversion Hnd as [| ? ? Hnotin _]; subst. intros ->.
      apply Hnotin. left. reflexivity. }
    split; [ assumption |]. split; [ assumption |].
    split.
    { intros Hi E.
      pose proof (distinct_positions_distinct_values index pool [p1; p2]
                    [e1; e2]
                    (candidate_pool_indices_nodup _ _ _ _ Hi) Hnd Hall)
        as Hd.
      cbn [map] in Hd. inversion Hd as [| ? ? Hnotin _]; subst.
      apply Hnotin. left. symmetry. exact E. }
    intros L.
    unfold random_interpolation_synthesis, random_sample. fold pool.
    assert (Hnlt : Nat.ltb (length pool) 2 = false)
      by (apply Nat.ltb_ge; assumption).
    rewrite Hnlt. cbn [bind]. rewrite Hdraw.
    unfold interpolate.
    cbn [length Z.of_nat Z.eqb Z.sub Z.add Z.opp Z.pos_sub Pos.of_succ_nat
         Pos.succ negb Pos.pred_double Z.double Nat.eqb interpolate_loop
         Nat.add nth_error].
    unfold Tensor.add. rewrite binop_same_shape
      by (rewrite !scale_length; exact L).
    reflexivity.
Qed.

Lemma interpolation_synthesis_witness :
  exists p1 p2 e1 e2,
    p1 <> p2 /\
    nth_error (candidate_pool arithmetic 3 true (seed three_codes)) p1
    = Some e1 /\
    nth_error (candidate_pool arithmetic 3 true (seed three_codes)) p2
    = Some e2 /\
    (index_is_position (seed three_codes) -> index e1 <> index e2) /\
    (length (latent_code e1) = length (latent_code e2) ->
     random_interpolation_synthesis 3 (seed three_codes) (selection blend_01)
     = Ok ((str_of_nat (index e1) ++ "__" ++ str_of_nat (index e2))%string,
           500,
           Tensor.zip_with Qplus
             (Tensor.scale (latent_code e1) (1 - (500 # 1000))%Q)
             (Tensor.scale (latent_code e2) (500 # 1000)%Q))).
Proof.
  apply (proj2 (proj2 (interpolation_synthesis 3 (seed three_codes)
                         (selection blend_01)))).
  vm_compute. lia.
Defined.

(** ** More on [interpolate] *)

Lemma blend_between (a b : Tensor.t) (f : Q) :
  length a = length b -> (0 <= f <= 1)%Q ->
  forall k x y,
    nth_error a k = Some x -> nth_error b k = Some y ->
    exists z,
      nth_error (Tensor.zip_with Qplus (Tensor.scale a (1 - f)%Q)
                                       (Tensor.scale b f)) k = Some z /\
      (Qmin x y <= z <= Qmax x y)%Q.
Proof.
  intros Hlen Hf. revert b Hlen.
  induction a as [| x0 a IH]; intros [| y0 b] Hlen k x y Hx Hy;
    try discriminate; try (destruct k; discriminate).
  destruct k as [| k]; cbn in Hx, Hy.
  - injection Hx as ->. injection Hy as ->.
    eexists. split; [ reflexivity |].
    destruct (Q.min_spec x y) as [[? E1] | [? E1]],
             (Q.max_spec x y) as [[? E2] | [? E2]];
      rewrite E1, E2; nra.
  - cbn in Hlen. injection Hlen as Hlen.
    exact (IH b Hlen k x y Hx Hy).
Qed.

(** X2.  For two codes of one dimension and a factor between 0 and 1,
    [interpolate] returns a code of that dimension whose every entry lies
    between the corresponding entries of the two codes. *)
Theorem interpolate_stays_between (a b : Tensor.t) (f : Q) :
  length a = length b -> (0 <= f <= 1)%Q ->
  exists r,
    interpolate [a; b] [f] = Ok r /\
    length r = length a /\
    forall k x y,
      nth_error a k = Some x -> nth_error b k = Some y ->
      exists z, nth_error r k = Some z /\ (Qmin x y <= z <= Qmax x y)%Q.
Proof.
  intros Hlen Hf. eexists. split; [| split ].
  - unfold interpolate. cbn -[Tensor.add Tensor.scale Qminus].
    unfold Tensor.add. rewrite binop_same_shape
      by (rewrite !scale_length; exact Hlen).
    reflexivity.
  - rewrite zip_with_length; rewrite !scale_length; auto.
  - apply blend_between; assumption.
Qed.

Lemma interpolate_stays_between_witness :
  exists r,
    interpolate [[0; 4]; [2; 2]]%Q [1 # 4]%Q = Ok r /\
    length r = 2 /\
    forall k x y,
      nth_error [0; 4]%Q k = Some x -> nth_error [2; 2]%Q k = Some y ->
      exists z, nth_error r k = Some z /\ (Qmin x y <= z <= Qmax x y)%Q.
Proof.
  apply (interpolate_stays_between [0; 4]%Q [2; 2]%Q (1 # 4)%Q).
  - reflexivity.
  - split; vm_compute; discriminate.
Defined.

Lemma blend_swap (a b : Tensor.t) (f : Q) :
  length a = length b ->
  Tensor.eqv
    (Tensor.zip_with Qplus (Tensor.scale a (1 - f)%Q) (Tensor.scale b f))
    (Tensor.zip_with Qplus (Tensor.scale b (1 - (1 - f))%Q)
                           (Tensor.scale a (1 - f)%Q)).
Proof.
  revert b; induction a as [| x a IH]; intros [| y b] H; simpl in *;
    try discriminate; constructor.
  - ring.
  - apply IH. congruence.
Qed.

(** X3.  Interpolating from [a] to [b] with factor [f] gives the values
    of interpolating from [b] to [a] with factor [1 - f]. *)
Theorem interpolate_reversed (a b : Tensor.t) (f : Q) :
  length a = length b ->
  exists r r',
    interpolate [a; b] [f] = Ok r /\
    interpolate [b; a] [(1 - f)%Q] = Ok r' /\
    Tensor.eqv r r'.
Proof.
  intros Hlen. eexists. eexists. split; [| split ].
  - unfold interpolate. cbn -[Tensor.add Tensor.scale Qminus].
    unfold Tensor.add. rewrite binop_same_shape
      by (rewrite !scale_length; exact Hlen).
    reflexivity.
  - unfold interpolate. cbn -[Tensor.add Tensor.scale Qminus].
    unfold Tensor.add. rewrite binop_same_shape
      by (rewrite !scale_length; symmetry; exact Hlen).
    reflexivity.
  - apply blend_swap. exact Hlen.
Qed.

Lemma interpolate_reversed_witness :
  exists r r',
    interpolate [[0; 4]; [2; 2]]%Q [1 # 4]%Q = Ok r /\
    interpolate [[2; 2]; [0; 4]]%Q [(1 - (1 # 4))%Q] = Ok r' /\
    Tensor.eqv r r'.
Proof.
  apply (interpolate_reversed [0; 4]%Q [2; 2]%Q (1 # 4)%Q). reflexivity.
Defined.

Lemma interpolate_loop_dimension (codes : list Tensor.t) (d : nat) :
  Forall (fun c => length c = d) codes ->
  forall (factors : list Q) (fi : nat) (acc : Tensor.t),
    length acc = d ->
    fi + length factors < length codes ->
    exists r, interpolate_loop codes fi factors acc = Ok r /\ length r = d.
Proof.
  intros Hall. induction factors as [| f factors IH]; intros fi acc Hacc Hfi.
  - exists acc. split; [ reflexivity | exact Hacc ].
  - cbn [length] in Hfi. cbn [interpolate_loop].
    destruct (nth_error codes (fi + 1)) as [c |] eqn:E;
      [| apply nth_error_None in E; lia ].
    assert (Hc : length c = d).
    { rewrite Forall_forall in Hall. apply Hall.
      eapply nth_error_In. exact E. }
    unfold Tensor.add. rewrite binop_same_shape
      by (rewrite !scale_length; congruence).
    cbn [bind]. apply IH.
    + rewrite zip_with_length; rewrite !scale_length; congruence.
    + lia.
Qed.

(** X4.  Given [k + 1] codes of one dimension and [k] factors,
    [interpolate] returns, and its result has that dimension. *)
Theorem interpolate_dimension (codes : list Tensor.t) (factors : list Q)
    (d : nat) :
  Forall (fun c => length c = d) codes ->
  length codes = S (length factors) ->
  exists r, interpolate codes factors = Ok r /\ length r = d.
Proof.
  intros Hall Hlen. unfold interpolate.
  assert (Hz : Z.eqb (Z.of_nat (length codes) - 1)
                     (Z.of_nat (length factors)) = true)
    by (apply Z.eqb_eq; lia).
  rewrite Hz. cbn [negb].
  destruct codes as [| c0 rest]; [ discriminate |].
  inversion Hall as [| ? ? Hc0 Hrest]; subst.
  destruct (Nat.eqb (length (c0 :: rest)) 1).
  - exists c0. split; reflexivity.
  - apply interpolate_loop_dimension; [ exact Hall | reflexivity |].
    cbn [length] in *. lia.
Qed.

Lemma interpolate_dimension_witness :
  exists r,
    interpolate [[0; 0]; [2; 2]; [4; 0]]%Q [1 # 2; 1 # 4]%Q = Ok r /\
    length r = 2.
Proof.
  apply (interpolate_dimension [[0; 0]; [2; 2]; [4; 0]]%Q [1 # 2; 1 # 4]%Q 2).
  - repeat constructor.
  - reflexivity.
Defined.

(** ** File names and derivations *)

Lemma str_of_nat_inj (a b : nat) : str_of_nat a = str_of_nat b -> a = b.
Proof.
  intros E. apply (f_equal py_int) in E.
  rewrite !py_int_str_of_nat in E. injection E as E. lia.
Qed.

Lemma str_of_nat_obj_inj (a b : nat) :
  (str_of_nat a ++ ".obj")%string = (str_of_nat b ++ ".obj")%string -> a = b.
Proof.
  intros E. apply (f_equal remove_obj) in E.
  destruct (remove_obj_plain (str_of_nat a)) as [_ Ea];
    [ apply no_char_str_of_nat; reflexivity |].
  destruct (remove_obj_plain (str_of_nat b)) as [_ Eb];
    [ apply no_char_str_of_nat; reflexivity |].
  rewrite Ea, Eb in E. apply str_of_nat_inj. exact E.
Qed.

Lemma dot_to_dash_app (a b : string) :
  dot_to_dash (a ++ b) = (dot_to_dash a ++ dot_to_dash b)%string.
Proof.
  induction a as [| c a IH]; cbn [append dot_to_dash];
    [ reflexivity | rewrite IH; reflexivity ].
Qed.

Lemma dash_in_factor_tail (m : nat) :
  no_char "-" (dot_to_dash (str_of_milli m) ++ ".obj") = false.
Proof.
  unfold str_of_milli. rewrite !dot_to_dash_app, !no_char_app.
  change (no_char "-" (dot_to_dash ".")) with false.
  rewrite andb_false_r, andb_false_l. reflexivity.
Qed.

Lemma digit_char_inj (a b : nat) :
  a < 10 -> b < 10 -> digit_char a = digit_char b -> a = b.
Proof.
  unfold digit_char. intros Ha Hb E.
  apply (f_equal nat_of_ascii) in E.
  rewrite !nat_ascii_embedding in E by lia. lia.
Qed.

Lemma milli_decimals_inj (m m' : nat) :
  m < 1000 -> m' < 1000 -> milli_decimals m = milli_decimals m' -> m = m'.
Proof.
  intros Hm Hm'. unfold milli_decimals.
  assert (D : forall n, n < 1000 ->
            n = 100 * ((n / 100) mod 10) + 10 * ((n / 10) mod 10) + n mod 10).
  { intros n Hn.
    rewrite (Nat.mod_small (n / 100) 10)
      by (apply Nat.Div0.div_lt_upper_bound; lia).
    pose proof (Nat.div_mod_eq n 10) as E1.
    pose proof (Nat.div_mod_eq (n / 10) 10) as E2.
    rewrite Nat.Div0.div_div in E2. change (10 * 10) with 100 in E2. lia. }
  pose proof (D m Hm) as Dm. pose proof (D m' Hm') as Dm'.
  assert (B : forall n, n mod 10 < 10)
    by (intros n; apply Nat.mod_upper_bound; lia).
  pose proof (B (m / 100)) as Ba. pose proof (B (m / 10)) as Bb.
  pose proof (B m) as Bc. pose proof (B (m' / 100)) as Ba'.
  pose proof (B (m' / 10)) as Bb'. pose proof (B m') as Bc'.
  remember ((m / 100) mod 10) as a. remember ((m / 10) mod 10) as b.
  remember (m mod 10) as c. remember ((m' / 100) mod 10) as a'.
  remember ((m' / 10) mod 10) as b'. remember (m' mod 10) as c'.
  clear Heqa Heqb Heqc Heqa' Heqb' Heqc' D B.
  destruct (Nat.eqb_spec c 0), (Nat.eqb_spec c' 0),
           (Nat.eqb_spec b 0), (Nat.eqb_spec b' 0);
    cbn [negb]; intros E; try discriminate;
    repeat match goal with
           | H : String _ _ = String _ _ |- _ =>
               injection H; clear H; intros
           end;
    repeat match goal with
           | H : digit_char _ = digit_char _ |- _ =>
               apply digit_char_inj in H; [| assumption | assumption ]
           end;
    lia.
Qed.

Lemma dot_to_dash_inj (a b : string) :
  no_char "-" a = true -> no_char "-" b = true ->
  dot_to_dash a = dot_to_dash b -> a = b.
Proof.
  revert b. induction a as [| x a IH]; intros [| y b] Ha Hb E;
    try discriminate; [ reflexivity |].
  cbn [no_char dot_to_dash] in *.
  apply andb_true_iff in Ha. destruct Ha as [Hx Ha].
  apply andb_true_iff in Hb. destruct Hb as [Hy Hb].
  apply negb_true_iff, Ascii.eqb_neq in Hx, Hy.
  injection E as Exy E. rewrite (IH b Ha Hb E). f_equal.
  destruct (Ascii.eqb_spec x "."), (Ascii.eqb_spec y "."); congruence.
Qed.

Lemma str_of_milli_inj (m m' : nat) :
  m < 1000 -> m' < 1000 -> str_of_milli m = str_of_milli m' -> m = m'.
Proof.
  intros Hm Hm'. unfold str_of_milli.
  rewrite !Nat.div_small by assumption.
  intros E. apply string_app_cancel_l in E.
  injection E as E. apply milli_decimals_inj; assumption.
Qed.

(** X5.  The file name of a candidate identifies its derivation: two
    arithmetic names are equal only for the same ordered triple of parent
    indices, two interpolation names (with factors below 1) only for the
    same ordered pair of parents and the same factor, and an arithmetic
    name is never an interpolation name. *)
Theorem file_names_identify_derivations :
  (forall i0 i1 i2 j0 j1 j2 : nat,
     arithmetic_name i0 i1 i2 = arithmetic_name j0 j1 j2 ->
     i0 = j0 /\ i1 = j1 /\ i2 = j2) /\
  (forall i1 i2 m j1 j2 m' : nat,
     m < 1000 -> m' < 1000 ->
     interpolation_name i1 i2 m = interpolation_name j1 j2 m' ->
     i1 = j1 /\ i2 = j2 /\ m = m') /\
  (forall i0 i1 i2 j1 j2 m : nat,
     arithmetic_name i0 i1 i2 <> interpolation_name j1 j2 m).
Proof.
  split; [| split ].
  - intros i0 i1 i2 j0 j1 j2 E. apply (f_equal split_dunder) in E.
    rewrite !split_arithmetic_name in E. injection E as E0 E1 E2.
    repeat split; [ apply str_of_nat_inj | apply str_of_nat_inj
                  | apply str_of_nat_obj_inj ]; assumption.
  - intros i1 i2 m j1 j2 m' Hm Hm' E. apply (f_equal split_dunder) in E.
    rewrite !split_interpolation_name in E. injection E as E1 E2 E3.
    repeat split; [ apply str_of_nat_inj | apply str_of_nat_inj |];
      try assumption.
    apply str_of_milli_inj; try assumption.
    assert (P : forall n, no_char "-" (str_of_milli n) = true).
    { intros n. unfold str_of_milli. rewrite !no_char_app.
      rewrite no_char_str_of_nat, no_char_milli_decimals; reflexivity. }
    apply dot_to_dash_inj; try apply P.
    revert E3. generalize (dot_to_dash (str_of_milli m)).
    generalize (dot_to_dash (str_of_milli m')). clear.
    intros b a. revert b. induction a as [| x a IH]; intros [| y b] E.
    + reflexivity.
    + destruct b as [| ? [| ? [| ? [| ? ?]]]]; discriminate.
    + destruct a as [| ? [| ? [| ? [| ? ?]]]]; discriminate.
    + cbn [append] in E. injection E as -> E. f_equal. exact (IH b E).
  - intros i0 i1 i2 j1 j2 m E. apply (f_equal split_dunder) in E.
    rewrite split_arithmetic_name, split_interpolation_name in E.
    injection E as _ _ E3. apply (f_equal (no_char "-")) in E3.
    rewrite dash_in_factor_tail, no_char_app, no_char_str_of_nat in E3;
      [ discriminate | reflexivity ].
Qed.

Lemma file_names_identify_derivations_witness :
  (500 < 1000 /\ interpolation_name 0 1 500 = interpolation_name 0 1 500) /\
  (0 = 0 /\ 1 = 1 /\ 500 = 500).
Proof.
  split; [ split; [ lia | reflexivity ] |].
  apply (proj1 (proj2 file_names_identify_derivations) 0 1 500 0 1 500);
    [ lia | lia | reflexivity ].
Defined.

(** ** The run as a whole *)

Section Run.

Variables (R : Reconstructor) (sdf_decoder : SDFdecoder)
          (save_dir : string) (synthesis_count : option nat)
          (resolution : nat) (map_z_to_y check_watertight : bool).

(** What an iteration that returns has done, in full. *)
Lemma iteration_effects (d : Draws) (st st' : LoopState) (o : Outcome) :
  iteration R sdf_decoder save_dir resolution map_z_to_y check_watertight
    d st = Ok (o, st') ->
  (o = Skipped /\ st' = st) \/
  (exists type file_name code parents mesh w,
     o = Extended /\
     candidate_of (ledger st) type file_name parents /\
     path_exists (disk (world st)) (path_join save_dir file_name) = false /\
     synthesize R sdf_decoder code (Some (path_join save_dir file_name))
       resolution true map_z_to_y check_watertight (world st)
     = Ok (mesh, w) /\
     st' = {| ledger := ledger st ++
                        [ {| name := NameStr file_name;
                             index := length (ledger st);
                             synthesis_type := type;
                             latent_code := code |} ];
              world := {| disk := write
                                    (path_join save_dir
                                       synthesized_latent_codes_npz)
                                    (LedgerFile
                                       (ledger st ++
                                        [ {| name := NameStr file_name;
                                             index := length (ledger st);
                                             synthesis_type := type;
                                             latent_code := code |} ]))
                                    (disk w);
                          decoder_calls := decoder_calls w |} |}).
Proof.
  unfold iteration. intros H.
  apply bind_ok in H. destruct H as ([[type file_name] code] & Hc & H).
  destruct (path_exists (disk (world st)) (path_join save_dir file_name))
    eqn:He.
  - injection H as <- <-. left. auto.
  - apply bind_ok in H. destruct H as ([mesh w] & Hs & H).
    injection H as <- <-. right.
    destruct (candidate_ok _ _ _ _ _ _ Hc) as (parents & Hof).
    exists type, file_name, code, parents, mesh, w. auto.
Qed.

(** A property of the state kept by every iteration is kept by the loop. *)
Lemma synthesis_loop_keeps (P : LoopState -> Prop) :
  (forall d st o st',
     P st ->
     iteration R sdf_decoder save_dir resolution map_z_to_y check_watertight
       d st = Ok (o, st') ->
     P st') ->
  forall draws st outcomes st',
    synthesis_loop R sdf_decoder save_dir synthesis_count resolution
      map_z_to_y check_watertight draws st = Ok (outcomes, st') ->
    P st -> P st'.
Proof.
  intros Hstep. induction draws as [| d rest IH]; intros st outcomes st' H HP.
  - injection H as _ <-. exact HP.
  - cbn [synthesis_loop] in H.
    destruct (below_count (length (ledger st)) synthesis_count).
    + apply bind_ok in H. destruct H as ([o st1] & Hit & H).
      apply bind_ok in H. destruct H as ([os st2] & Hrest & H).
      cbn [fst snd] in *. injection H as _ <-.
      exact (IH _ _ _ Hrest (Hstep _ _ _ _ HP Hit)).
    + injection H as _ <-. exact HP.
Qed.

Lemma synthesize_calls (code : Tensor.t) (save_name : option string)
    (normalize : bool) (w w' : World) (mesh : option Mesh) :
  synthesize R sdf_decoder code save_name resolution normalize map_z_to_y
    check_watertight w = Ok (mesh, w') ->
  exists batches,
    torch_split (fst (get_volume_coords R resolution))
      (length (fst (get_volume_coords R resolution)) / 1000) = Ok batches /\
    decoder_calls w' = decoder_calls w + length batches.
Proof.
  unfold synthesize.
  destruct (get_volume_coords R resolution) as [cs g]. cbn [fst].
  intros H. apply bind_ok in H. destruct H as (batches & Hsplit & H).
  exists batches. split; [ exact Hsplit |].
  destruct (extract_mesh R g _ normalize map_z_to_y check_watertight);
    destruct save_name; injection H as _ <-; reflexivity.
Qed.

Lemma iteration_keeps_sync (d : Draws) (st st' : LoopState) (o : Outcome) :
  ledger_in_sync sdf_decoder save_dir st ->
  iteration R sdf_decoder save_dir resolution map_z_to_y check_watertight
    d st = Ok (o, st') ->
  ledger_in_sync sdf_decoder save_dir st'.
Proof.
  intros Hsync H. apply iteration_effects in H.
  destruct H as [(_ & ->) | (ty & fn & code & ps & mesh & w & _ & _ & _ & _ & ->)];
    [ exact Hsync |].
  unfold ledger_in_sync. cbn [world disk ledger].
  rewrite write_same. reflexivity.
Qed.

Lemma loaded_ledger_in_sync (w : World) (data : list SynthesisRecord) :
  match disk w (path_join save_dir synthesized_latent_codes_npz) with
  | None => Ok (seed (latent_codes sdf_decoder))
  | Some (LedgerFile data) => Ok data
  | Some (MeshFile _) => Raise ValueError
  end = Ok data ->
  ledger_in_sync sdf_decoder save_dir {| ledger := data; world := w |}.
Proof.
  unfold ledger_in_sync. cbn [world ledger].
  destruct (disk w (path_join save_dir synthesized_latent_codes_npz))
    as [[m | l] |]; intros H; try discriminate; injection H as <-;
    reflexivity.
Qed.

Lemma iteration_keeps_ledger_file (d : Draws) (st st' : LoopState)
    (o : Outcome) :
  path_exists (disk (world st))
    (path_join save_dir synthesized_latent_codes_npz) = true ->
  iteration R sdf_decoder save_dir resolution map_z_to_y check_watertight
    d st = Ok (o, st') ->
  path_exists (disk (world st'))
    (path_join save_dir synthesized_latent_codes_npz) = true.
Proof.
  intros Hfile H. apply iteration_effects in H.
  destruct H as [(_ & ->) | (ty & fn & code & ps & mesh & w & _ & _ & _ & _ & ->)];
    [ exact Hfile |].
  unfold path_exists. cbn [world disk]. rewrite write_same. reflexivity.
Qed.

Lemma extension_leaves_ledger_file (draws : list Draws) :
  forall (st st' : LoopState) (outcomes : list Outcome),
    synthesis_loop R sdf_decoder save_dir synthesis_count resolution
      map_z_to_y check_watertight draws st = Ok (outcomes, st') ->
    0 < count_extended outcomes ->
    path_exists (disk (world st'))
      (path_join save_dir synthesized_latent_codes_npz) = true.
Proof.
  induction draws as [| d rest IH]; intros st st' outcomes H Hpos.
  - injection H as <- _. cbn in Hpos. lia.
  - cbn [synthesis_loop] in H.
    destruct (below_count (length (ledger st)) synthesis_count).
    + apply bind_ok in H. destruct H as ([o st1] & Hit & H).
      apply bind_ok in H. destruct H as ([os st2] & Hrest & H).
      cbn [fst snd] in *. injection H as <- <-.
      rewrite count_extended_cons in Hpos.
      destruct o.
      * exact (IH _ _ _ Hrest Hpos).
      * eapply (synthesis_loop_keeps
                  (fun s => path_exists (disk (world s))
                              (path_join save_dir
                                 synthesized_latent_codes_npz) = true));
          [| exact Hrest |].
        -- intros d0 s0 o0 s1 HP Hit0.
           exact (iteration_keeps_ledger_file _ _ _ _ HP Hit0).
        -- apply iteration_effects in Hit.
           destruct Hit as [(Habs & _) |
                            (ty & fn & code & ps & mesh & w1 & _ & _ & _ & _ & ->)];
             [ discriminate |].
           unfold path_exists. cbn [world disk]. rewrite write_same.
           reflexivity.
    + injection H as <- _. cbn in Hpos. lia.
Qed.

Lemma run_keeps_sync (draws : list Draws) (w : World)
    (outcomes : list Outcome) (st' : LoopState) :
  infinite_synthesis R sdf_decoder save_dir synthesis_count resolution
    map_z_to_y check_watertight draws w = Ok (outcomes, st') ->
  ledger_in_sync sdf_decoder save_dir st'.
Proof.
  unfold infinite_synthesis. intros H.
  apply bind_ok in H. destruct H as (data & Hload & H).
  eapply (synthesis_loop_keeps (ledger_in_sync sdf_decoder save_dir));
    [| exact H | apply loaded_ledger_in_sync; exact Hload ].
  intros d st o st1 HP Hit. exact (iteration_keeps_sync _ _ _ _ HP Hit).
Qed.

(** X6.  When a run returns, the ledger file holds exactly the ledger in
    memory; the only run without a ledger file is one that started without
    it and appended nothing, its ledger being the seed. *)
Theorem ledger_file_follows_the_ledger (draws : list Draws) (w : World)
    (outcomes : list Outcome) (st' : LoopState) :
  infinite_synthesis R sdf_decoder save_dir synthesis_count resolution
    map_z_to_y check_watertight draws w = Ok (outcomes, st') ->
  ledger_in_sync sdf_decoder save_dir st' /\
  (0 < count_extended outcomes ->
   disk (world st') (path_join save_dir synthesized_latent_codes_npz)
   = Some (LedgerFile (ledger st'))).
Proof.
  intros H. pose proof (run_keeps_sync _ _ _ _ H) as Hsync.
  unfold infinite_synthesis in H.
  apply bind_ok in H. destruct H as (data & Hload & H).
  split; [ exact Hsync |].
  intros Hpos. pose proof (extension_leaves_ledger_file _ _ _ _ H Hpos) as Hf.
  unfold ledger_in_sync in Hsync. unfold path_exists in Hf.
  destruct (disk (world st')
              (path_join save_dir synthesized_latent_codes_npz))
    as [[m | l] |]; [ contradiction | congruence | discriminate ].
Qed.

Lemma synthesis_loop_app (ds1 ds2 : list Draws) :
  forall (st st1 : LoopState) (os1 : list Outcome),
    synthesis_loop R sdf_decoder save_dir synthesis_count resolution
      map_z_to_y check_watertight ds1 st = Ok (os1, st1) ->
    synthesis_loop R sdf_decoder save_dir synthesis_count resolution
      map_z_to_y check_watertight (ds1 ++ ds2) st
    = (r <- synthesis_loop R sdf_decoder save_dir synthesis_count resolution
              map_z_to_y check_watertight ds2 st1 ;;
       Ok (os1 ++ fst r, snd r)).
Proof.
  induction ds1 as [| d rest IH]; intros st st1 os1 H.
  - injection H as <- <-. cbn [app].
    destruct (synthesis_loop R sdf_decoder save_dir synthesis_count
                resolution map_z_to_y check_watertight ds2 st)
      as [[os s] | e]; reflexivity.
  - cbn [synthesis_loop app] in *.
    destruct (below_count (length (ledger st)) synthesis_count) eqn:Eb.
    + apply bind_ok in H. destruct H as ([o sa] & Hit & H).
      apply bind_ok in H. destruct H as ([os sb] & Hrest & H).
      cbn [fst snd] in *. injection H as <- <-.
      rewrite Hit. cbn [bind snd fst]. rewrite (IH _ _ _ Hrest).
      destruct (synthesis_loop R sdf_decoder save_dir synthesis_count
                  resolution map_z_to_y check_watertight ds2 sb)
        as [[os2 s2] | e]; reflexivity.
    + injection H as <- <-.
      destruct ds2 as [| d2 ds2]; cbn [synthesis_loop];
        [| rewrite Eb ]; reflexivity.
Qed.

(** X7.  A run can be resumed: if a run over some draws returns, then
    starting again from the disk it left, with further draws, reaches the
    state and reports the outcomes that one run over all the draws would
    have reached after the first ones. *)
Theorem resumed_run_continues (ds1 ds2 : list Draws) (w : World)
    (os1 : list Outcome) (st1 : LoopState) :
  infinite_synthesis R sdf_decoder save_dir synthesis_count resolution
    map_z_to_y check_watertight ds1 w = Ok (os1, st1) ->
  infinite_synthesis R sdf_decoder save_dir synthesis_count resolution
    map_z_to_y check_watertight (ds1 ++ ds2) w
  = (r <- infinite_synthesis R sdf_decoder save_dir synthesis_count
            resolution map_z_to_y check_watertight ds2 (world st1) ;;
     Ok (os1 ++ fst r, snd r)).
Proof.
  intros H.
  pose proof (run_keeps_sync _ _ _ _ H) as Hsync.
  unfold infinite_synthesis in *.
  apply bind_ok in H. destruct H as (data & Hload & H).
  rewrite Hload. cbn [bind]. rewrite (synthesis_loop_app _ ds2 _ _ _ H).
  assert (Hreload :
    match disk (world st1)
            (path_join save_dir synthesized_latent_codes_npz) with
    | None => Ok (seed (latent_codes sdf_decoder))
    | Some (LedgerFile data) => Ok data
    | Some (MeshFile _) => Raise ValueError
    end = Ok (ledger st1)).
  { unfold ledger_in_sync in Hsync.
    destruct (disk (world st1)
                (path_join save_dir synthesized_latent_codes_npz))
      as [[m | l] |]; [ contradiction | | ]; congruence. }
  rewrite Hreload. cbn [bind]. destruct st1 as [l1 w1]. reflexivity.
Qed.

(** X8.  With a target count [c] the loop never lets the ledger grow
    beyond [c]: a run leaves a ledger no longer than the larger of [c] and
    the length it started with, and a run started with [c] records or more
    does nothing at all. *)
Theorem count_bounds_the_ledger (c : nat) (draws : list Draws)
    (st st' : LoopState) (outcomes : list Outcome) :
  synthesis_count = Some c ->
  synthesis_loop R sdf_decoder save_dir synthesis_count resolution
    map_z_to_y check_watertight draws st = Ok (outcomes, st') ->
  length (ledger st') <= Nat.max (length (ledger st)) c /\
  (c <= length (ledger st) -> outcomes = [] /\ st' = st).
Proof.
  intros Hc. revert st st' outcomes.
  induction draws as [| d rest IH]; intros st st' outcomes H.
  - injection H as <- <-. split; [ lia | auto ].
  - cbn [synthesis_loop] in H. rewrite Hc in H. cbn [below_count] in H.
    rewrite <- Hc in H.
    destruct (Nat.ltb_spec (length (ledger st)) c) as [Hlt | Hge].
    + apply bind_ok in H. destruct H as ([o sa] & Hit & H).
      apply bind_ok in H. destruct H as ([os sb] & Hrest & H).
      cbn [fst snd] in *. injection H as <- <-.
      destruct (IH _ _ _ Hrest) as [Hb _].
      split; [| lia ].
      apply iteration_cases in Hit.
      destruct Hit as (ty & fn & code & _ & [(_ & -> & _) | (_ & _ & E)]).
      * exact Hb.
      * rewrite E, length_app in Hb. cbn [length] in Hb. lia.
    + injection H as <- <-. split; [ lia | auto ].
Qed.

Lemma iteration_keeps_files (d : Draws) (st st' : LoopState) (o : Outcome)
    (p : string) (f : File) :
  p <> path_join save_dir synthesized_latent_codes_npz ->
  disk (world st) p = Some f ->
  iteration R sdf_decoder save_dir resolution map_z_to_y check_watertight
    d st = Ok (o, st') ->
  disk (world st') p = Some f.
Proof.
  intros Hp Hf H. apply iteration_effects in H.
  destruct H as [(_ & ->) |
                 (ty & fn & code & ps & mesh & w & _ & _ & He & Hs & ->)];
    [ exact Hf |].
  cbn [world disk]. rewrite write_other by exact Hp.
  apply synthesize_disk in Hs. rewrite Hs.
  destruct mesh as [m |]; [| exact Hf ].
  rewrite write_other; [ exact Hf |].
  intros ->. unfold path_exists in He. rewrite Hf in He. discriminate.
Qed.

(** X9.  A run never deletes or overwrites a file other than the ledger
    file: whatever stood at another path when the run started stands there
    unchanged when it returns. *)
Theorem files_are_never_overwritten (draws : list Draws) (w : World)
    (outcomes : list Outcome) (st' : LoopState) (p : string) (f : File) :
  infinite_synthesis R sdf_decoder save_dir synthesis_count resolution
    map_z_to_y check_watertight draws w = Ok (outcomes, st') ->
  p <> path_join save_dir synthesized_latent_codes_npz ->
  disk w p = Some f ->
  disk (world st') p = Some f.
Proof.
  unfold infinite_synthesis. intros H Hp Hf.
  apply bind_ok in H. destruct H as (data & _ & H).
  eapply (synthesis_loop_keeps (fun s => disk (world s) p = Some f));
    [| exact H | exact Hf ].
  intros d st o st1 HP Hit. exact (iteration_keeps_files _ _ _ _ _ _ Hp HP Hit).
Qed.

(** X10.  The decoder is called once per batch of the grid in every
    extending iteration and never otherwise: a run adds to the count of
    decoder calls the number of its extending iterations times the number
    of batches.  When the grid cannot be split (1 to 999 points), no
    iteration of any run extends the ledger. *)
Theorem decoder_calls_of_a_run (draws : list Draws) (st st' : LoopState)
    (outcomes : list Outcome) :
  synthesis_loop R sdf_decoder save_dir synthesis_count resolution
    map_z_to_y check_watertight draws st = Ok (outcomes, st') ->
  match torch_split (fst (get_volume_coords R resolution))
          (length (fst (get_volume_coords R resolution)) / 1000) with
  | Ok batches =>
      decoder_calls (world st')
      = decoder_calls (world st) + count_extended outcomes * length batches
  | Raise _ =>
      count_extended outcomes = 0 /\ ledger st' = ledger st /\
      decoder_calls (world st') = decoder_calls (world st)
  end.
Proof.
  revert st st' outcomes.
  induction draws as [| d rest IH]; intros st st' outcomes H.
  - injection H as <- <-.
    destruct (torch_split _ _); cbn; [ lia | auto ].
  - cbn [synthesis_loop] in H.
    destruct (below_count (length (ledger st)) synthesis_count).
    + apply bind_ok in H. destruct H as ([o sa] & Hit & H).
      apply bind_ok in H. destruct H as ([os sb] & Hrest & H).
      cbn [fst snd] in *. injection H as <- <-.
      specialize (IH _ _ _ Hrest). rewrite count_extended_cons.
      apply iteration_effects in Hit.
      destruct Hit as [(-> & ->) |
                       (ty & fn & code & ps & mesh & w & -> & _ & _ & Hs & ->)].
      * exact IH.
      * apply synthesize_calls in Hs. destruct Hs as (batches & Hsplit & Hcalls).
        rewrite Hsplit in *. cbn [world decoder_calls] in IH.
        rewrite IH, Hcalls. lia.
    + injection H as <- <-.
      destruct (torch_split _ _); cbn; [ lia | auto ].
Qed.

End Run.

Lemma ledger_file_follows_the_ledger_witness :
  exists outcomes st',
    infinite_synthesis lattice_reconstructor (plane_decoder three_codes)
      "out" None 10 true true [arithmetic_201; blend_01] fresh_world
    = Ok (outcomes, st') /\
    ledger_in_sync (plane_decoder three_codes) "out" st' /\
    (0 < count_extended outcomes ->
     disk (world st') (path_join "out" synthesized_latent_codes_npz)
     = Some (LedgerFile (ledger st'))).
Proof.
  destruct (infinite_synthesis lattice_reconstructor
              (plane_decoder three_codes) "out" None 10 true true
              [arithmetic_201; blend_01] fresh_world)
    as [[outcomes st'] | e] eqn:E.
  - exists outcomes, st'. split; [ reflexivity |].
    exact (ledger_file_follows_the_ledger lattice_reconstructor
             (plane_decoder three_codes) "out" None 10 true true
             [arithmetic_201; blend_01] fresh_world outcomes st' E).
  - vm_compute in E. discriminate.
Defined.

Lemma resumed_run_continues_witness :
  exists os1 st1,
    infinite_synthesis lattice_reconstructor (plane_decoder three_codes)
      "out" None 10 true true [arithmetic_201] fresh_world
    = Ok (os1, st1) /\
    infinite_synthesis lattice_reconstructor (plane_decoder three_codes)
      "out" None 10 true true ([arithmetic_201] ++ [arithmetic_201; blend_01])
      fresh_world
    = (r <- infinite_synthesis lattice_reconstructor
              (plane_decoder three_codes) "out" None 10 true true
              [arithmetic_201; blend_01] (world st1) ;;
       Ok (os1 ++ fst r, snd r)).
Proof.
  destruct (infinite_synthesis lattice_reconstructor
              (plane_decoder three_codes) "out" None 10 true true
              [arithmetic_201] fresh_world)
    as [[os1 st1] | e] eqn:E.
  - exists os1, st1. split; [ reflexivity |].
    exact (resumed_run_continues lattice_reconstructor
             (plane_decoder three_codes) "out" None 10 true true
             [arithmetic_201] [arithmetic_201; blend_01] fresh_world
             os1 st1 E).
  - vm_compute in E. discriminate.
Defined.

(** A resumed run skips what the first run exported and numbers the next
    record after the ledger it reloads. *)
Example resumed_run_outcomes :
  match infinite_synthesis lattice_reconstructor (plane_decoder three_codes)
          "out" None 10 true true [arithmetic_201] fresh_world with
  | Ok (_, st1) =>
      match infinite_synthesis lattice_reconstructor
              (plane_decoder three_codes) "out" None 10 true true
              [arithmetic_201; blend_01] (world st1) with
      | Ok (os, st2) => Some (os, map index (ledger st2))
      | Raise _ => None
      end
  | Raise _ => None
  end = Some ([Skipped; Extended], [0; 1; 2; 3; 4]).
Proof. vm_compute. reflexivity. Qed.

Lemma count_bounds_the_ledger_witness :
  exists outcomes st',
    synthesis_loop lattice_reconstructor (plane_decoder three_codes) "out"
      (Some 4) 10 true true [arithmetic_201; blend_01; arithmetic_012]
      fresh_state = Ok (outcomes, st') /\
    length (ledger st') <= Nat.max (length (ledger fresh_state)) 4 /\
    (4 <= length (ledger fresh_state) -> outcomes = [] /\ st' = fresh_state).
Proof.
  destruct (synthesis_loop lattice_reconstructor (plane_decoder three_codes)
              "out" (Some 4) 10 true true
              [arithmetic_201; blend_01; arithmetic_012] fresh_state)
    as [[outcomes st'] | e] eqn:E.
  - exists outcomes, st'. split; [ reflexivity |].
    exact (count_bounds_the_ledger lattice_reconstructor
             (plane_decoder three_codes) "out" (Some 4) 10 true true 4
             [arithmetic_201; blend_01; arithmetic_012] fresh_state st'
             outcomes eq_refl E).
  - vm_compute in E. discriminate.
Defined.

Example count_stops_the_loop :
  match synthesis_loop lattice_reconstructor (plane_decoder three_codes)
          "out" (Some 4) 10 true true
          [arithmetic_201; blend_01; arithmetic_012] fresh_state with
  | Ok (os, st) => Some (os, length (ledger st))
  | Raise _ => None
  end = Some ([Extended], 4).
Proof. vm_compute. reflexivity. Qed.

Lemma files_are_never_overwritten_witness :
  exists outcomes st',
    infinite_synthesis lattice_reconstructor (plane_decoder three_codes)
      "out" None 10 true true [arithmetic_201; blend_01]
      (world state_with_file) = Ok (outcomes, st') /\
    disk (world st') "out/2__0__1.obj"%string
    = Some (MeshFile unit_tetrahedron).
Proof.
  destruct (infinite_synthesis lattice_reconstructor
              (plane_decoder three_codes) "out" None 10 true true
              [arithmetic_201; blend_01] (world state_with_file))
    as [[outcomes st'] | e] eqn:E.
  - exists outcomes, st'. split; [ reflexivity |].
    apply (files_are_never_overwritten lattice_reconstructor
             (plane_decoder three_codes) "out" None 10 true true
             [arithmetic_201; blend_01] (world state_with_file) outcomes st'
             "out/2__0__1.obj"%string (MeshFile unit_tetrahedron) E).
    + vm_compute. discriminate.
    + reflexivity.
  - vm_compute in E. discriminate.
Defined.

Lemma decoder_calls_of_a_run_witness :
  exists outcomes st',
    synthesis_loop lattice_reconstructor (plane_decoder three_codes) "out"
      None 10 true true [arithmetic_201; arithmetic_201; blend_01]
      fresh_state = Ok (outcomes, st') /\
    match torch_split (fst (get_volume_coords lattice_reconstructor 10))
            (length (fst (get_volume_coords lattice_reconstructor 10))
             / 1000) with
    | Ok batches =>
        decoder_calls (world st')
        = decoder_calls (world fresh_state)
          + count_extended outcomes * length batches
    | Raise _ =>
        count_extended outcomes = 0 /\ ledger st' = ledger fresh_state /\
        decoder_calls (world st') = decoder_calls (world fresh_state)
    end.
Proof.
  destruct (synthesis_loop lattice_reconstructor (plane_decoder three_codes)
              "out" None 10 true true
              [arithmetic_201; arithmetic_201; blend_01] fresh_state)
    as [[outcomes st'] | e] eqn:E.
  - exists outcomes, st'. split; [ reflexivity |].
    exact (decoder_calls_of_a_run lattice_reconstructor
             (plane_decoder three_codes) "out" None 10 true true
             [arithmetic_201; arithmetic_201; blend_01] fresh_state st'
             outcomes E).
  - vm_compute in E. discriminate.
Defined.

(** ** The restricted pool of a run *)

Lemma filter_keeps_all {A : Type} (keep : A -> bool) (l : list A) :
  Forall (fun x => keep x = true) l -> filter keep l = l.
Proof.
  induction 1 as [| x l Hx _ IH]; cbn [filter];
    [ reflexivity | rewrite Hx, IH; reflexivity ].
Qed.

Lemma seed_is_initial (codes : list Tensor.t) :
  Forall (fun r => synthesis_type r = initial) (seed codes).
Proof.
  apply Forall_forall. intros r Hin. apply In_nth_error in Hin.
  destruct Hin as (k & Hk). apply seed_from_nth in Hk. tauto.
Qed.

(** X11.  At any point of a run started without a ledger file, a
    selection whose coin restricts the pool draws among the seeded records
    of the trained codes only, whatever has been synthesized since. *)
Theorem restricted_pool_is_the_seed (R : Reconstructor)
    (sdf_decoder : SDFdecoder) (save_dir : string)
    (synthesis_count : option nat) (resolution : nat)
    (map_z_to_y check_watertight : bool) (draws : list Draws) (w : World)
    (outcomes : list Outcome) (st' : LoopState) (excluded : SynthesisType) :
  disk w (path_join save_dir synthesized_latent_codes_npz) = None ->
  infinite_synthesis R sdf_decoder save_dir synthesis_count resolution
    map_z_to_y check_watertight draws w = Ok (outcomes, st') ->
  excluded <> initial ->
  candidate_pool excluded (length (latent_codes sdf_decoder)) true
    (ledger st')
  = seed (latent_codes sdf_decoder).
Proof.
  intros Hfresh H Hex. unfold infinite_synthesis in H. rewrite Hfresh in H.
  cbn [bind] in H. apply synthesis_loop_appends in H.
  destruct H as (appended & E & _). cbn [ledger] in E.
  unfold candidate_pool. rewrite E.
  rewrite <- (seed_length (latent_codes sdf_decoder)) at 1.
  rewrite firstn_app, Nat.sub_diag, firstn_all. cbn [firstn].
  rewrite app_nil_r. apply filter_keeps_all.
  eapply Forall_impl; [| apply seed_is_initial ].
  cbn. intros r ->. destruct excluded; [ congruence | reflexivity .. ].
Qed.

Lemma restricted_pool_is_the_seed_witness :
  exists outcomes st',
    infinite_synthesis lattice_reconstructor (plane_decoder three_codes)
      "out" None 10 true true [arithmetic_201; blend_01] fresh_world
    = Ok (outcomes, st') /\
    candidate_pool arithmetic (length (latent_codes (plane_decoder three_codes)))
      true (ledger st')
    = seed (latent_codes (plane_decoder three_codes)).
Proof.
  destruct (infinite_synthesis lattice_reconstructor
              (plane_decoder three_codes) "out" None 10 true true
              [arithmetic_201; blend_01] fresh_world)
    as [[outcomes st'] | e] eqn:E.
  - exists outcomes, st'. split; [ reflexivity |].
    apply (restricted_pool_is_the_seed lattice_reconstructor
             (plane_decoder three_codes) "out" None 10 true true
             [arithmetic_201; blend_01] fresh_world outcomes st' arithmetic);
      [ reflexivity | exact E | discriminate ].
  - vm_compute in E. discriminate.
Defined.

(** ** Tracing the ledger of a run *)

Lemma level_order_below (data : list SynthesisRecord) (bound : Z) :
  provenance_ok data ->
  (bound <= Z.of_nat (length data))%Z ->
  forall (depth : nat) (frontier : list Z),
    Forall (fun p => (0 <= p < bound)%Z) frontier ->
    Forall (fun p => (0 <= p < bound)%Z) (level_order depth data frontier).
Proof.
  intros Hdata Hb. induction depth as [| d IH]; intros frontier Hall;
    cbn [level_order]; [ constructor |].
  apply Forall_app. split; [ exact Hall |].
  apply IH. eapply Forall_impl;
    [| exact (next_frontier_below data Hdata bound frontier Hb Hall) ].
  cbn. intros p; lia.
Qed.

Lemma records_at_in_range (data : list SynthesisRecord) (bound : Z)
    (positions : list Z) :
  index_is_position data ->
  (bound <= Z.of_nat (length data))%Z ->
  Forall (fun p => (0 <= p < bound)%Z) positions ->
  Forall (fun r => nth_error data (index r) = Some r
                   /\ (Z.of_nat (index r) < bound)%Z)
         (records_at data positions).
Proof.
  intros Hi Hb. induction 1 as [| p ps Hp _ IH]; cbn [records_at flat_map];
    [ constructor |].
  destruct (py_index_in_range data p) as (r & Hr & Hn); [ lia |].
  rewrite Hr. cbn [app]. constructor; [| exact IH ].
  rewrite (Hi _ _ Hn). split; [ exact Hn | lia ].
Qed.

(** X12.  On the ledger of a run started without a ledger file, the
    trace from any index of the ledger returns without error once the fuel
    suffices; it starts with the record asked for, and every record in it
    is a record of the ledger standing at its own index, not after the
    record asked for. *)
Theorem trace_of_a_run_returns (R : Reconstructor) (sdf_decoder : SDFdecoder)
    (save_dir : string) (synthesis_count : option nat) (resolution : nat)
    (map_z_to_y check_watertight : bool) (draws : list Draws) (w : World)
    (outcomes : list Outcome) (st' : LoopState) (i : Z) :
  disk w (path_join save_dir synthesized_latent_codes_npz) = None ->
  infinite_synthesis R sdf_decoder save_dir synthesis_count resolution
    map_z_to_y check_watertight draws w = Ok (outcomes, st') ->
  (0 <= i < Z.of_nat (length (ledger st')))%Z ->
  exists enough, forall fuel, enough <= fuel ->
    exists rs,
      trace_back_to_origin fuel (ledger st') i = Some (Ok rs) /\
      hd_error rs = nth_error (ledger st') (Z.to_nat i) /\
      Forall (fun r => nth_error (ledger st') (index r) = Some r
                       /\ index r <= Z.to_nat i) rs.
Proof.
  intros Hfresh H Hi.
  pose proof (infinite_synthesis_provenance _ _ _ _ _ _ _ _ _ _ _ Hfresh H)
    as Hprov.
  assert (Hpos : index_is_position (ledger st')).
  { unfold infinite_synthesis in H. rewrite Hfresh in H. cbn [bind] in H.
    apply synthesis_loop_appends in H. destruct H as (app & _ & _ & Hkeep).
    apply Hkeep. apply seed_index_is_position. }
  set (data := ledger st') in *.
  destruct (trace_loop_level_order data Hprov (S (Z.to_nat i)) (i + 1)%Z [i])
    as (enough & Henough);
    [ lia | constructor; [ lia | constructor ] | lia |].
  exists enough. intros fuel Hfuel.
  exists (records_at data (level_order (S (Z.to_nat i)) data [i])).
  split; [| split ].
  - unfold trace_back_to_origin.
    replace fuel with (enough + (fuel - enough)) by lia.
    apply trace_loop_more_fuel. apply (Henough []).
  - cbn [level_order app records_at flat_map].
    destruct (py_index_in_range data i Hi) as (r & Hr & Hn).
    rewrite Hr, Hn. reflexivity.
  - assert (Hall : Forall (fun p => (0 <= p < i + 1)%Z)
                          (level_order (S (Z.to_nat i)) data [i])).
    { apply level_order_below; [ exact Hprov | lia |].
      constructor; [ lia | constructor ]. }
    eapply Forall_impl;
      [| exact (records_at_in_range data (i + 1)%Z _ Hpos ltac:(lia) Hall) ].
    cbn. intros r [Hn Hlt]. split; [ exact Hn | lia ].
Qed.

Lemma trace_of_a_run_returns_witness :
  exists outcomes st',
    infinite_synthesis lattice_reconstructor (plane_decoder three_codes)
      "out" None 10 true true [arithmetic_201; blend_01] fresh_world
    = Ok (outcomes, st') /\
    exists enough, forall fuel, enough <= fuel ->
      exists rs,
        trace_back_to_origin fuel (ledger st') 3 = Some (Ok rs) /\
        hd_error rs = nth_error (ledger st') (Z.to_nat 3) /\
        Forall (fun r => nth_error (ledger st') (index r) = Some r
                         /\ index r <= Z.to_nat 3) rs.
Proof.
  destruct (infinite_synthesis lattice_reconstructor
              (plane_decoder three_codes) "out" None 10 true true
              [arithmetic_201; blend_01] fresh_world)
    as [[outcomes st'] | e] eqn:E.
  - exists outcomes, st'. split; [ reflexivity |].
    assert (Hl : length (ledger st') = 5).
    { change (length (ledger (snd (outcomes, st'))) = 5).
      rewrite <- (f_equal
                    (fun r => match r with
                              | Ok p => length (ledger (snd p))
                              | Raise _ => 0
                              end) E : _ = length (ledger (snd (outcomes, st')))).
      vm_compute. reflexivity. }
    apply (trace_of_a_run_returns lattice_reconstructor
             (plane_decoder three_codes) "out" None 10 true true
             [arithmetic_201; blend_01] fresh_world outcomes st' 3%Z);
      [ reflexivity | exact E | rewrite Hl; cbn; lia ].
  - vm_compute in E. discriminate.
Defined.

(** ** The start index of a trace *)

Lemma py_index_out_of_range {A : Type} (l : list A) (i : Z) :
  (i < - Z.of_nat (length l) \/ Z.of_nat (length l) <= i)%Z ->
  py_index l i = Raise IndexError.
Proof.
  intros H. unfold py_index. cbv zeta.
  destruct (Z.ltb_spec i 0) as [Hneg | Hpos].
  - assert (E : (i + Z.of_nat (length l) <? 0)%Z = true)
      by (apply Z.ltb_lt; lia).
    rewrite E. reflexivity.
  - assert (E : (Z.of_nat (length l) <=? i)%Z = true)
      by (apply Z.leb_le; lia).
    rewrite E, orb_true_r. reflexivity.
Qed.

Lemma py_index_negative {A : Type} (l : list A) (i : Z) :
  (- Z.of_nat (length l) <= i < 0)%Z ->
  py_index l i = py_index l (i + Z.of_nat (length l)).
Proof.
  intros H. unfold py_index. cbv zeta.
  assert (E1 : (i <? 0)%Z = true) by (apply Z.ltb_lt; lia).
  assert (E2 : (i + Z.of_nat (length l) <? 0)%Z = false)
    by (apply Z.ltb_ge; lia).
  rewrite E1, !E2. reflexivity.
Qed.

(** X13.  A trace asked from an index outside the ledger (at or beyond
    its length, or below minus its length) raises [IndexError] at its first
    step; asked from a negative index [-k] within the ledger it is the
    trace from the [k]-th record from the end. *)
Theorem trace_start_index (data : list SynthesisRecord) :
  (forall (fuel : nat) (i : Z),
     (i < - Z.of_nat (length data) \/ Z.of_nat (length data) <= i)%Z ->
     trace_back_to_origin (S fuel) data i = Some (Raise IndexError)) /\
  (forall (fuel : nat) (i : Z),
     (- Z.of_nat (length data) <= i < 0)%Z ->
     trace_back_to_origin fuel data i
     = trace_back_to_origin fuel data (i + Z.of_nat (length data))).
Proof.
  split.
  - intros fuel i H. unfold trace_back_to_origin. cbn [trace_loop].
    rewrite (py_index_out_of_range data i H). reflexivity.
  - intros fuel i H. unfold trace_back_to_origin.
    destruct fuel as [| fuel]; [ reflexivity |].
    cbn [trace_loop]. rewrite (py_index_negative data i H). reflexivity.
Qed.

Lemma trace_start_index_witness :
  trace_back_to_origin 1 diamond 5 = Some (Raise IndexError) /\
  trace_back_to_origin 10 diamond (-2)
  = trace_back_to_origin 10 diamond (-2 + Z.of_nat (length diamond)).
Proof.
  destruct (trace_start_index diamond) as [Hout Hneg]. split.
  - apply (Hout 0 5%Z). right. vm_compute. discriminate.
  - apply (Hneg 10 (-2)%Z). vm_compute. split; [ discriminate | reflexivity ].
Defined.

(** ** The parents read by the graph *)





Lemma py_int_not_negative (s : string) (z : Z) :
  py_int s = Ok z -> (0 <= z)%Z.
Proof.
  unfold py_int. destruct (NilZero.uint_of_string s); [| discriminate ].
  intros H. injection H as <-. lia.
Qed.

Lemma all_digits_all_isdigit (s : string) :
  all_digits s = true -> all_isdigit s = true.
Proof.
  induction s as [| c s IH]; [ reflexivity |]. cbn [all_digits all_isdigit].
  intros H. apply andb_true_iff in H. destruct H as [Hc Hs].
  rewrite Hc, (IH Hs). reflexivity.
Qed.

Lemma all_digits_uint (d : Decimal.uint) :
  all_digits (NilEmpty.string_of_uint d) = true.
Proof. induction d; cbn; auto. Qed.

Lemma isdigit_str_of_nat (n : nat) : isdigit (str_of_nat n) = true.
Proof.
  rewrite str_of_nat_digits. pose proof (to_uint_nonnil n) as Hn.
  pose proof (all_digits_all_isdigit _ (all_digits_uint (Nat.to_uint n)))
    as Hd.
  destruct (Nat.to_uint n); [ congruence | exact Hd .. ].
Qed.

Lemma all_isdigit_no_dash (s : string) :
  all_isdigit s = true -> no_char "-" s = true.
Proof.
  induction s as [| c s IH]; cbn [all_isdigit no_char]; [ reflexivity |].
  intros H. apply andb_true_iff in H. destruct H as [Hc Hs].
  rewrite (IH Hs), andb_true_r.
  apply negb_true_iff, Ascii.eqb_neq. intros ->. discriminate Hc.
Qed.

Lemma no_dot_after_dot_to_dash (s : string) :
  no_char "." (dot_to_dash s) = true.
Proof.
  induction s as [| c s IH]; cbn [dot_to_dash no_char]; [ reflexivity |].
  rewrite IH, andb_true_r.
  destruct (Ascii.eqb_spec c ".") as [-> | Hc]; [ reflexivity |].
  apply negb_true_iff, Ascii.eqb_neq. exact Hc.
Qed.

Lemma factor_text_is_no_number (m : nat) :
  isdigit (remove_obj (dot_to_dash (str_of_milli m) ++ ".obj")) = false.
Proof.
  destruct (remove_obj_plain (dot_to_dash (str_of_milli m))) as [_ E];
    [ apply no_dot_after_dot_to_dash |].
  rewrite E.
  destruct (isdigit (dot_to_dash (str_of_milli m))) eqn:H; [| reflexivity ].
  assert (Hd : all_isdigit (dot_to_dash (str_of_milli m)) = true)
    by (unfold isdigit in H; destruct (dot_to_dash (str_of_milli m));
        [ discriminate | exact H ]).
  apply all_isdigit_no_dash in Hd.
  pose proof (dash_in_factor_tail m) as Hdash.
  rewrite no_char_app, Hd in Hdash. discriminate.
Qed.


Lemma map_result_ok {A B : Type} (f : A -> Result B) (l : list A) :
  forall ys, map_result f l = Ok ys -> Forall2 (fun x y => f x = Ok y) l ys.
Proof.
  induction l as [| x l IH]; cbn [map_result]; intros ys H.
  - injection H as <-. constructor.
  - apply bind_ok in H. destruct H as (y & Hy & H).
    apply bind_ok in H. destruct H as (ys' & Hys & H).
    injection H as <-. constructor; [ exact Hy | apply IH; exact Hys ].
Qed.


(** The indices of the graph, when there are any, are not negative. *)
Lemma graph_indices_not_negative (data : SynthesisRecord)
    (indices : list Z) :
  graph_indices data = Ok indices -> Forall (fun p => (0 <= p)%Z) indices.
Proof.
  unfold graph_indices. destruct (name data) as [n | s]; [ discriminate |].
  intros H. apply map_result_ok in H.
  induction H as [| c z cs zs Hc _ IH]; constructor; [| exact IH ].
  exact (py_int_not_negative _ _ Hc).
Qed.




(** On such a name the trace fails where the graph goes on. *)
Example graph_reads_what_the_trace_refuses :
  graph_indices {| name := NameStr "3__x__7.obj__"; index := 9;
                   synthesis_type := arithmetic; latent_code := [] |}
  = Ok [3; 7]%Z /\
  parent_indices {| name := NameStr "3__x__7.obj__"; index := 9;
                    synthesis_type := arithmetic; latent_code := [] |}
  = Raise ValueError.
Proof. split; reflexivity. Qed.

(** X15.  On the names the loop writes, the graph reads the same parents
    as the trace: the three indices of an arithmetic name, and the two
    indices of an interpolation name, whose factor component is no
    number. *)
Theorem graph_and_trace_agree (data : list SynthesisRecord)
    (type : SynthesisType) (file_name : string) (parents : list nat)
    (k : nat) (code : Tensor.t) :
  candidate_of data type file_name parents ->
  graph_indices {| name := NameStr file_name; index := k;
                   synthesis_type := type; latent_code := code |}
  = Ok (map Z.of_nat parents) /\
  graph_indices {| name := NameStr file_name; index := k;
                   synthesis_type := type; latent_code := code |}
  = parent_indices {| name := NameStr file_name; index := k;
                      synthesis_type := type; latent_code := code |}.
Proof.
  intros Hc.
  destruct (candidate_of_parents _ _ _ _ k code Hc) as (Hpar & _ & _).
  rewrite Hpar. split.
  all: destruct Hc as [e0 e1 e2 _ _ _ | e1 e2 m _ _];
    unfold graph_indices; cbn [name].
  all: try rewrite split_arithmetic_name;
    try rewrite split_interpolation_name; cbn [filter].
  all: try (destruct (remove_obj_plain (str_of_nat (index e0))) as [E0 _];
            [ apply no_char_str_of_nat; reflexivity |]).
  all: destruct (remove_obj_plain (str_of_nat (index e1))) as [E1 E1'];
    [ apply no_char_str_of_nat; reflexivity |].
  all: destruct (remove_obj_plain (str_of_nat (index e2))) as [E2 E2'];
    [ apply no_char_str_of_nat; reflexivity |].
  all: rewrite ?E0, ?E1, ?E2, ?E2', ?factor_text_is_no_number,
         ?isdigit_str_of_nat.
  all: cbn [map_result]; rewrite ?E0, ?E1, ?E2, ?E2', !py_int_str_of_nat;
    reflexivity.
Qed.

Lemma graph_and_trace_agree_witness :
  graph_indices {| name := NameStr (interpolation_name 0 1 500); index := 3;
                   synthesis_type := interpolation;
                   latent_code := [1; 1]%Q |}
  = Ok (map Z.of_nat [0; 1]) /\
  graph_indices {| name := NameStr (interpolation_name 0 1 500); index := 3;
                   synthesis_type := interpolation;
                   latent_code := [1; 1]%Q |}
  = parent_indices {| name := NameStr (interpolation_name 0 1 500);
                      index := 3; synthesis_type := interpolation;
                      latent_code := [1; 1]%Q |}.
Proof.
  apply (graph_and_trace_agree (seed three_codes) interpolation
           (interpolation_name 0 1 500) [0; 1] 3 [1; 1]%Q).
  exact (candidate_interpolation (seed three_codes)
           {| name := NameInt 0; index := 0; synthesis_type := initial;
              latent_code := [0; 0]%Q |}
           {| name := NameInt 1; index := 1; synthesis_type := initial;
              latent_code := [2; 2]%Q |}
           500
           (or_introl eq_refl) (or_intror (or_introl eq_refl))).
Defined.

(** ** The graph of a trace *)

Lemma has_node_in (g : DiGraph) (n : Z) :
  has_node g n = true <-> In n (map fst (nodes g)).
Proof.
  unfold has_node. rewrite existsb_exists, in_map_iff. split.
  - intros (p & Hp & E). apply Z.eqb_eq in E. eauto.
  - intros (p & E & Hp). exists p. split; [ exact Hp | apply Z.eqb_eq, E ].
Qed.

Lemma has_edge_in (g : DiGraph) (u v : Z) :
  has_edge g u v = true <-> In (u, v) (edges g).
Proof.
  unfold has_edge. rewrite existsb_exists. split.
  - intros ([a b] & Hp & E). cbn in E. apply andb_true_iff in E.
    destruct E as [Ea Eb]. apply Z.eqb_eq in Ea, Eb. subst. exact Hp.
  - intros H. exists (u, v). cbn. rewrite !Z.eqb_refl. auto.
Qed.

Lemma add_node_names (g : DiGraph) (n l : Z) :
  map fst (nodes (add_node g n l))
  = if has_node g n then map fst (nodes g) else map fst (nodes g) ++ [n].
Proof.
  unfold add_node. destruct (has_node g n); cbn [nodes].
  - rewrite map_map. apply map_ext. intros [a b]. cbn.
    destruct (Z.eqb_spec a n); cbn; congruence.
  - rewrite map_app. reflexivity.
Qed.

Lemma add_edge_names (g : DiGraph) (u v : Z) :
  map fst (nodes (add_edge g u v))
  = map fst (nodes g)
    ++ (if has_node g u then [] else [u])
    ++ (if (has_node g v || Z.eqb u v)%bool then [] else [v]).
Proof.
  unfold add_edge. cbn [nodes]. fold (has_node g u).
  destruct (has_node g u) eqn:Eu.
  - fold (has_node g v). destruct (has_node g v) eqn:Ev; cbn [orb app].
    + rewrite app_nil_r. reflexivity.
    + destruct (Z.eqb_spec u v) as [-> | Hne]; [ congruence |].
      rewrite map_app. reflexivity.
  - rewrite existsb_app. fold (has_node g v). cbn [existsb fst].
    rewrite orb_false_r.
    destruct (has_node g v) eqn:Ev; cbn [orb].
    + rewrite map_app. reflexivity.
    + destruct (Z.eqb_spec u v) as [-> | Hne].
      * rewrite map_app. reflexivity.
      * rewrite !map_app. cbn. rewrite <- app_assoc. reflexivity.
Qed.

(** Both operations only add nodes at the end, each at most once. *)
Lemma add_node_ok (g : DiGraph) (n l : Z) :
  graph_ok g ->
  graph_ok (add_node g n l) /\
  (exists extra, map fst (nodes (add_node g n l))
                 = map fst (nodes g) ++ extra) /\
  In n (map fst (nodes (add_node g n l))) /\
  edges (add_node g n l) = edges g.
Proof.
  intros (Hn & He & Hends). rewrite add_node_names.
  assert (Hedges : edges (add_node g n l) = edges g)
    by (unfold add_node; destruct (has_node g n); reflexivity).
  destruct (has_node g n) eqn:E.
  - apply has_node_in in E.
    split; [| split; [ exists []; rewrite app_nil_r; reflexivity | auto ] ].
    unfold graph_ok. rewrite add_node_names.
    rewrite (proj2 (has_node_in g n) E), Hedges. auto.
  - split; [| split; [ eauto | split; [ apply in_or_app; right; left;
                                        reflexivity | exact Hedges ] ] ].
    unfold graph_ok. rewrite add_node_names, E, Hedges.
    split; [| split; [ exact He |] ].
    + apply NoDup_app; [ exact Hn | repeat constructor; intros [] |].
      intros x Hx [<- | []]. apply has_node_in in Hx. congruence.
    + intros u v Huv. destruct (Hends u v Huv).
      split; apply in_or_app; left; assumption.
Qed.

Lemma add_edge_ok (g : DiGraph) (u v : Z) :
  graph_ok g ->
  graph_ok (add_edge g u v) /\
  (exists extra, map fst (nodes (add_edge g u v))
                 = map fst (nodes g) ++ extra /\
                 Forall (fun x => x = u \/ x = v) extra) /\
  (forall a b, In (a, b) (edges (add_edge g u v))
               <-> In (a, b) (edges g) \/ (a, b) = (u, v)).
Proof.
  intros (Hn & He & Hends).
  assert (Hed : forall a b, In (a, b) (edges (add_edge g u v))
                            <-> In (a, b) (edges g) \/ (a, b) = (u, v)).
  { intros a b. unfold add_edge. cbn [edges].
    destruct (has_edge g u v) eqn:E.
    - apply has_edge_in in E. split; [ auto | intros [H | H]; congruence ].
    - rewrite in_app_iff. cbn. split; intros [H | H]; auto.
      + destruct H as [H | []]. auto.
  }
  assert (Hnames := add_edge_names g u v).
  set (extra := (if has_node g u then [] else [u])
                ++ (if (has_node g v || Z.eqb u v)%bool then [] else [v]))
    in *.
  assert (Hextra : Forall (fun x => x = u \/ x = v) extra
                   /\ NoDup extra
                   /\ (forall x, In x extra -> ~ In x (map fst (nodes g)))
                   /\ In u (map fst (nodes g) ++ extra)
                   /\ In v (map fst (nodes g) ++ extra)).
  { subst extra.
    destruct (has_node g u) eqn:Eu, (has_node g v) eqn:Ev,
             (Z.eqb_spec u v) as [Euv | Euv]; cbn [orb app];
      try (subst; congruence);
      (split; [| split; [| split; [| split ] ] ]).
    all: try (repeat constructor; auto; fail).
    all: try (intros x []; fail).
    all: try (apply has_node_in in Eu; apply in_or_app; left; exact Eu).
    all: try (apply has_node_in in Ev; apply in_or_app; left; exact Ev).
    all: try (apply in_or_app; right; left; reflexivity).
    all: try (apply in_or_app; right; right; left; reflexivity).
    all: try (subst v; apply in_or_app; right; left; reflexivity).
    all: try (intros x [<- | []] Hx; apply has_node_in in Hx; congruence).
    all: try (intros x [<- | [<- | []]] Hx; apply has_node_in in Hx;
              congruence).
    all: try (repeat constructor; cbn; intuition congruence).
  }
  destruct Hextra as (Huv & Hnd & Hfresh & Hu & Hv).
  split; [| split; [ exists extra; auto | exact Hed ] ].
  unfold graph_ok. rewrite Hnames.
  split; [| split ].
  - apply NoDup_app; [ exact Hn | exact Hnd |].
    intros x Hx Hx'. exact (Hfresh x Hx' Hx).
  - unfold add_edge. cbn [edges].
    destruct (has_edge g u v) eqn:E; [ exact He |].
    apply NoDup_app; [ exact He | repeat constructor; intros [] |].
    intros x Hx [<- | []]. apply has_edge_in in Hx. congruence.
  - intros a b Hab. apply Hed in Hab. destruct Hab as [Hab | Hab].
    + destruct (Hends a b Hab). split; apply in_or_app; left; assumption.
    + injection Hab as -> ->. auto.
Qed.

Lemma add_edges_ok (c : Z) (idxs : list Z) :
  forall g : DiGraph,
    graph_ok g ->
    graph_ok (fold_left (fun g idx => add_edge g idx c) idxs g) /\
    (exists extra,
       map fst (nodes (fold_left (fun g idx => add_edge g idx c) idxs g))
       = map fst (nodes g) ++ extra /\
       Forall (fun x => In x idxs \/ x = c) extra) /\
    (forall a b,
       In (a, b) (edges (fold_left (fun g idx => add_edge g idx c) idxs g))
       <-> In (a, b) (edges g) \/ (In a idxs /\ b = c)).
Proof.
  induction idxs as [| i idxs IH]; intros g Hg; cbn [fold_left].
  - split; [ exact Hg |]. split.
    + exists []. rewrite app_nil_r. split; [ reflexivity | constructor ].
    + intros a b. split; [ auto | intros [H | [[] _]]; exact H ].
  - destruct (add_edge_ok g i c Hg) as (Hg1 & (ex1 & En1 & Hex1) & Hed1).
    destruct (IH _ Hg1) as (Hg2 & (ex2 & En2 & Hex2) & Hed2).
    split; [ exact Hg2 |]. split.
    + exists (ex1 ++ ex2). rewrite En2, En1, app_assoc.
      split; [ reflexivity |]. apply Forall_app. split.
      * eapply Forall_impl; [| exact Hex1 ]. cbn. intros x [-> | ->]; auto.
      * eapply Forall_impl; [| exact Hex2 ]. cbn. intros x [H | ->]; auto.
    + intros a b. rewrite Hed2, Hed1. cbn [In]. split.
      * intros [[H | H] | [H ->]]; auto. injection H as -> ->. auto.
      * intros [H | [[-> | H] ->]]; auto.
Qed.

Lemma build_graph_ok (traced : list SynthesisRecord) :
  forall g g' : DiGraph,
    build_graph traced g = Ok g' ->
    graph_ok g ->
    graph_ok g' /\
    (exists extra, map fst (nodes g') = map fst (nodes g) ++ extra /\
                   Forall (fun x => (0 <= x)%Z) extra) /\
    (forall r, In r traced -> In (Z.of_nat (index r)) (map fst (nodes g'))) /\
    (forall a b,
       In (a, b) (edges g')
       <-> In (a, b) (edges g) \/
           exists r idxs,
             In r traced /\ synthesis_type r <> initial /\
             graph_indices r = Ok idxs /\ In a idxs /\
             b = Z.of_nat (index r)).
Proof.
  induction traced as [| r rest IH]; intros g g' H Hg.
  - injection H as <-. split; [ exact Hg |]. split.
    + exists []. rewrite app_nil_r. split; [ reflexivity | constructor ].
    + split; [ intros r [] |].
      intros a b. split; [ auto | intros [H | (r & _ & [] & _)]; exact H ].
  - cbn [build_graph] in H.
    set (c := Z.of_nat (index r)) in *.
    destruct (add_node_ok g c c Hg) as (Hg1 & (ex1 & En1) & Hin1 & Hed1).
    assert (Hex1 : Forall (fun x => (0 <= x)%Z) ex1).
    { rewrite add_node_names in En1.
      destruct (has_node g c).
      - rewrite <- (app_nil_r (map fst (nodes g))) in En1 at 1.
        apply app_inv_head in En1. subst ex1. constructor.
      - apply app_inv_head in En1. subst ex1. repeat constructor.
        subst c. lia. }
    assert (Hstep : exists idxs,
              (synthesis_type r = initial /\ idxs = [] \/
               synthesis_type r <> initial /\ graph_indices r = Ok idxs) /\
              Forall (fun p => (0 <= p)%Z) idxs /\
              build_graph rest
                (fold_left (fun g idx => add_edge g idx c) idxs
                           (add_node g c c)) = Ok g').
    { destruct (synthesis_type r) eqn:Ety.
      - exists []. split; [ left; auto |]. split; [ constructor | exact H ].
      - apply bind_ok in H. destruct H as (idxs & Hi & H).
        exists idxs. split; [ right; split; [ discriminate | exact Hi ] |].
        split; [| exact H ].
        exact (graph_indices_not_negative r idxs Hi).
      - apply bind_ok in H. destruct H as (idxs & Hi & H).
        exists idxs. split; [ right; split; [ discriminate | exact Hi ] |].
        split; [| exact H ].
        exact (graph_indices_not_negative r idxs Hi). }
    destruct Hstep as (idxs & Hcase & Hpos & Hrest).
    destruct (add_edges_ok c idxs _ Hg1) as (Hg2 & (ex2 & En2 & Hex2) & Hed2).
    destruct (IH _ _ Hrest Hg2) as (Hg3 & (ex3 & En3 & Hex3) & Hin3 & Hed3).
    split; [ exact Hg3 |]. split; [| split ].
    + exists (ex1 ++ ex2 ++ ex3). rewrite En3, En2, En1, <- !app_assoc.
      split; [ reflexivity |].
      apply Forall_app. split; [ exact Hex1 |].
      apply Forall_app. split; [| exact Hex3 ].
      rewrite Forall_forall in *. intros x Hx.
      destruct (Hex2 x Hx) as [Hxi | ->]; [ apply Hpos; exact Hxi |].
      subst c. lia.
    + intros r' [<- | Hr']; [| exact (Hin3 r' Hr') ].
      rewrite En3, En2. apply in_or_app. left. apply in_or_app. left.
      exact Hin1.
    + intros a b. rewrite Hed3, Hed2, Hed1. split.
      * intros [[H0 | [Ha ->]] | (r' & idxs' & Hr' & Hrest')].
        -- auto.
        -- right. destruct Hcase as [[_ ->] | [Hty Hgi]]; [ destruct Ha |].
           exists r, idxs. cbn [In]. auto.
        -- right. exists r', idxs'. cbn [In]. tauto.
      * intros [H0 | (r' & idxs' & [<- | Hr'] & Hty & Hgi & Ha & ->)].
        -- auto.
        -- left. right. destruct Hcase as [[Hini _] | [_ Hgi']];
             [ contradiction |].
           split; [ congruence | reflexivity ].
        -- right. exists r', idxs'. auto.
Qed.

Lemma empty_graph_ok : graph_ok empty_graph.
Proof.
  repeat split; try constructor; destruct H.
Qed.

Lemma trace_loop_extends (data : list SynthesisRecord) (fuel : nat) :
  forall (queue : list Z) (traced rs : list SynthesisRecord),
    trace_loop fuel data queue traced = Some (Ok rs) ->
    exists more, rs = traced ++ more.
Proof.
  induction fuel as [| fuel IH]; intros queue traced rs H.
  - destruct queue; [| discriminate ]. injection H as <-.
    exists []. rewrite app_nil_r. reflexivity.
  - destruct queue as [| i queue];
      [ injection H as <-; exists []; rewrite app_nil_r; reflexivity |].
    cbn [trace_loop] in H.
    destruct (py_index data i) as [r | e]; [| discriminate ].
    assert (Hnext : exists q, trace_loop fuel data q (traced ++ [r])
                              = Some (Ok rs)).
    { destruct (synthesis_type r); [ eauto | | ];
        (destruct (parent_indices r); [ eauto | discriminate ]). }
    destruct Hnext as (q & Hq). destruct (IH _ _ _ Hq) as (more & ->).
    exists (r :: more). rewrite <- app_assoc. reflexivity.
Qed.

Lemma trace_starts_with_the_record (data : list SynthesisRecord)
    (fuel : nat) (i : Z) (rs : list SynthesisRecord) :
  trace_back_to_origin fuel data i = Some (Ok rs) ->
  exists r more, py_index data i = Ok r /\ rs = r :: more.
Proof.
  unfold trace_back_to_origin. destruct fuel as [| fuel]; [ discriminate |].
  cbn [trace_loop]. destruct (py_index data i) as [r | e]; [| discriminate ].
  intros H.
  assert (Hnext : exists q, trace_loop fuel data q ([] ++ [r]) = Some (Ok rs)).
  { destruct (synthesis_type r); [ eauto | | ];
      (destruct (parent_indices r); [ eauto | discriminate ]). }
  destruct Hnext as (q & Hq). apply trace_loop_extends in Hq.
  destruct Hq as (more & ->). exists r, more. auto.
Qed.

(** X16.  When the graph of a trace is built, it has no node and no edge
    twice, every edge joins two of its nodes, the index of every traced
    record is a node, and there is an edge from [p] to [c] exactly when
    [c] is the index of a traced record that is not initial and [p] is one
    of the indices read from its name; colours and sizes are given node by
    node. *)
Theorem graph_of_a_trace (fuel : nat) (data : list SynthesisRecord)
    (start : Z) (d : Drawing) :
  visualize_traced_data_as_graph fuel data start = Some (Ok d) ->
  exists traced,
    trace_back_to_origin fuel data start = Some (Ok traced) /\
    graph_ok (drawn_graph d) /\
    (forall r, In r traced ->
       In (Z.of_nat (index r)) (map fst (nodes (drawn_graph d)))) /\
    (forall p c,
       In (p, c) (edges (drawn_graph d))
       <-> exists r idxs,
             In r traced /\ synthesis_type r <> initial /\
             graph_indices r = Ok idxs /\ In p idxs /\
             c = Z.of_nat (index r)) /\
    length (node_colors d) = length (nodes (drawn_graph d)) /\
    length (node_sizes d) = length (nodes (drawn_graph d)).
Proof.
  unfold visualize_traced_data_as_graph.
  destruct (trace_back_to_origin fuel data start) as [[traced | e] |];
    try discriminate.
  intros H. injection H as H. apply bind_ok in H.
  destruct H as (g & Hg & H). injection H as <-. cbn [drawn_graph node_colors
                                                      node_sizes].
  exists traced. split; [ reflexivity |].
  destruct (build_graph_ok traced _ _ Hg empty_graph_ok)
    as (Hok & _ & Hin & Hed).
  split; [ exact Hok |]. split; [ exact Hin |].
  split; [| rewrite !length_map; auto ].
  intros p c. rewrite Hed. cbn [edges empty_graph In]. tauto.
Qed.

Lemma graph_of_a_trace_witness :
  exists d traced,
    visualize_traced_data_as_graph 10 diamond 4 = Some (Ok d) /\
    trace_back_to_origin 10 diamond 4 = Some (Ok traced) /\
    graph_ok (drawn_graph d) /\
    (forall r, In r traced ->
       In (Z.of_nat (index r)) (map fst (nodes (drawn_graph d)))) /\
    (forall p c,
       In (p, c) (edges (drawn_graph d))
       <-> exists r idxs,
             In r traced /\ synthesis_type r <> initial /\
             graph_indices r = Ok idxs /\ In p idxs /\
             c = Z.of_nat (index r)) /\
    length (node_colors d) = length (nodes (drawn_graph d)) /\
    length (node_sizes d) = length (nodes (drawn_graph d)).
Proof.
  destruct (visualize_traced_data_as_graph 10 diamond 4)
    as [[d | e] |] eqn:E.
  - exists d.
    destruct (graph_of_a_trace 10 diamond 4%Z d E) as (traced & H).
    exists traced. split; [ reflexivity | exact H ].
  - vm_compute in E. discriminate.
  - vm_compute in E. discriminate.
Defined.

(** The graph of [diamond] from record 4: five nodes, seven edges, though
    the trace makes ten visits. *)
Example graph_of_diamond :
  match visualize_traced_data_as_graph 10 diamond 4 with
  | Some (Ok d) =>
      Some (map fst (nodes (drawn_graph d)), edges (drawn_graph d),
            labels d, node_colors d, node_sizes d)
  | _ => None
  end
  = Some ([4; 3; 2; 0; 1]%Z,
          [(3, 4); (2, 4); (0, 4); (0, 3); (2, 3); (0, 2); (1, 2)]%Z,
          [(4, 4); (3, 3); (2, 2); (0, 0); (1, 1)]%Z,
          ["red"; "gray"; "gray"; "gray"; "gray"]%string,
          [600; 300; 300; 300; 300]).
Proof. vm_compute. reflexivity. Qed.

Lemma colours_of_nodes (index : Z) (l : list (Z * option Z)) :
  NoDup (map fst l) ->
  (In index (map fst l) ->
   count_occ string_dec
     (map (fun p => if Z.eqb (fst p) index
                    then "red"%string else "gray"%string) l)
     "red"%string = 1) /\
  (~ In index (map fst l) ->
   Forall (fun c => c = "gray"%string)
     (map (fun p => if Z.eqb (fst p) index
                    then "red"%string else "gray"%string) l) /\
   Forall (fun s => s = node_base_size)
     (map (fun p => if Z.eqb (fst p) index
                    then node_base_size * 2 else node_base_size) l)).
Proof.
  induction l as [| [n a] l IH]; cbn [map fst]; intros Hnd.
  - split; [ intros [] | intros _; split; constructor ].
  - inversion Hnd as [| ? ? Hn Hnd']; subst.
    destruct (IH Hnd') as [IHin IHout]. split.
    + intros [-> | Hin].
      * rewrite Z.eqb_refl. cbn [count_occ].
        destruct (string_dec "red" "red"); [| congruence ].
        destruct (IHout Hn) as [Hgray _]. f_equal.
        apply count_occ_not_In. intros Hred.
        rewrite Forall_forall in Hgray. specialize (Hgray _ Hred).
        discriminate.
      * destruct (Z.eqb_spec n index) as [-> | Hne]; [ contradiction |].
        cbn [count_occ].
        destruct (string_dec "gray" "red"); [ discriminate |].
        exact (IHin Hin).
    + intros Hout.
      destruct (Z.eqb_spec n index) as [-> | Hne];
        [ exfalso; apply Hout; left; reflexivity |].
      destruct IHout as [Hc Hs]; [ intros H; apply Hout; right; exact H |].
      split; constructor; auto.
Qed.

(** X17.  In a drawing, exactly the node equal to the index asked for is
    red and of double size.  Asked with an index that is not negative, on
    a ledger whose indices are the positions, the first node is that one
    and it is the only red one.  Asked with a negative index, which the
    trace accepts as a position from the end, no node is red: every node
    is gray and of base size. *)
Theorem highlight_of_a_drawing (fuel : nat) (data : list SynthesisRecord)
    (start : Z) (d : Drawing) :
  visualize_traced_data_as_graph fuel data start = Some (Ok d) ->
  ((0 <= start)%Z -> index_is_position data ->
   hd_error (map fst (nodes (drawn_graph d))) = Some start /\
   hd_error (node_colors d) = Some "red"%string /\
   hd_error (node_sizes d) = Some (node_base_size * 2) /\
   count_occ string_dec (node_colors d) "red"%string = 1) /\
  ((start < 0)%Z ->
   Forall (fun c => c = "gray"%string) (node_colors d) /\
   Forall (fun s => s = node_base_size) (node_sizes d)).
Proof.
  unfold visualize_traced_data_as_graph.
  destruct (trace_back_to_origin fuel data start) as [[traced | e] |] eqn:Et;
    try discriminate.
  intros H. injection H as H. apply bind_ok in H.
  destruct H as (g & Hg & H). injection H as <-.
  cbn [drawn_graph node_colors node_sizes].
  destruct (build_graph_ok traced _ _ Hg empty_graph_ok)
    as ((Hnd & _) & (extra & Hnames & Hpos) & Hin & _).
  cbn [empty_graph nodes map app] in Hnames.
  destruct (colours_of_nodes start (nodes g) Hnd) as [Hred Hgray].
  split.
  - intros Hi Hdata.
    destruct (trace_starts_with_the_record _ _ _ _ Et)
      as (r & more & Hr & ->).
    assert (Hidx : Z.of_nat (index r) = start).
    { unfold py_index in Hr. cbv zeta in Hr.
      destruct (Z.ltb_spec start 0) as [| _]; [ lia |].
      destruct ((start <? 0)%Z || (Z.of_nat (length data) <=? start)%Z)%bool;
        [ discriminate |].
      destruct (nth_error data (Z.to_nat start)) as [x |] eqn:En;
        [| discriminate ].
      injection Hr as ->. rewrite (Hdata _ _ En). lia. }
    assert (Hhead : hd_error (map fst (nodes g)) = Some start).
    { cbn [build_graph] in Hg. rewrite Hidx in Hg.
      assert (Hfirst : exists g1, build_graph more g1 = Ok g /\
                hd_error (map fst (nodes g1)) = Some start /\ graph_ok g1).
      { destruct (add_node_ok empty_graph start start empty_graph_ok)
          as (Hok1 & _ & _ & _).
        assert (H1 : hd_error (map fst (nodes (add_node empty_graph start
                                                 start))) = Some start)
          by reflexivity.
        destruct (synthesis_type r).
        - eauto.
        - apply bind_ok in Hg. destruct Hg as (idxs & _ & Hg).
          destruct (add_edges_ok start idxs _ Hok1)
            as (Hok2 & (ex & En & _) & _).
          eexists. split; [ exact Hg |]. split; [| exact Hok2 ].
          rewrite En. reflexivity.
        - apply bind_ok in Hg. destruct Hg as (idxs & _ & Hg).
          destruct (add_edges_ok start idxs _ Hok1)
            as (Hok2 & (ex & En & _) & _).
          eexists. split; [ exact Hg |]. split; [| exact Hok2 ].
          rewrite En. reflexivity. }
      destruct Hfirst as (g1 & Hg1 & Hh1 & Hok1).
      destruct (build_graph_ok more _ _ Hg1 Hok1) as (_ & (ex & En & _) & _).
      rewrite En. destruct (map fst (nodes g1)); [ discriminate | exact Hh1 ]. }
    split; [ exact Hhead |].
    assert (Hin' : In start (map fst (nodes g))).
    { destruct (map fst (nodes g)); [ discriminate |].
      injection Hhead as ->. left. reflexivity. }
    split; [| split; [| exact (Hred Hin') ] ].
    + destruct (nodes g) as [| [n a] l]; [ discriminate |].
      cbn in Hhead. injection Hhead as ->. cbn. rewrite Z.eqb_refl.
      reflexivity.
    + destruct (nodes g) as [| [n a] l]; [ discriminate |].
      cbn in Hhead. injection Hhead as ->. cbn [map hd_error fst].
      rewrite Z.eqb_refl. reflexivity.
  - intros Hneg. apply Hgray. rewrite Hnames. intros Hin'.
    rewrite Forall_forall in Hpos. specialize (Hpos _ Hin'). lia.
Qed.

Lemma highlight_of_a_drawing_witness :
  exists d,
    visualize_traced_data_as_graph 10 diamond (-1) = Some (Ok d) /\
    Forall (fun c => c = "gray"%string) (node_colors d) /\
    Forall (fun s => s = node_base_size) (node_sizes d).
Proof.
  destruct (visualize_traced_data_as_graph 10 diamond (-1))
    as [[d | e] |] eqn:E.
  - exists d. split; [ reflexivity |].
    apply (proj2 (highlight_of_a_drawing 10 diamond (-1)%Z d E)).
    reflexivity.
  - vm_compute in E. discriminate.
  - vm_compute in E. discriminate.
Defined.

Example drawing_from_the_end :
  match visualize_traced_data_as_graph 10 diamond (-1) with
  | Some (Ok d) => Some (map fst (nodes (drawn_graph d)), node_colors d)
  | _ => None
  end
  = Some ([4; 3; 2; 0; 1]%Z,
          ["gray"; "gray"; "gray"; "gray"; "gray"]%string).
Proof. vm_compute. reflexivity. Qed.

(** ** Sampling inside the bounding box *)

Lemma fold_min_le_max (l : list Q) :
  forall a b, (a <= b)%Q -> (fold_left Qmin l a <= fold_left Qmax l b)%Q.
Proof.
  induction l as [| x l IH]; intros a b H; cbn [fold_left]; [ exact H |].
  apply IH. apply Qle_trans with a; [ apply Q.le_min_l |].
  apply Qle_trans with b; [ exact H | apply Q.le_max_l ].
Qed.

Lemma bounds_ordered (m : Mesh) (lo hi : Vec3) :
  bounds m = Some (lo, hi) ->
  (vx lo <= vx hi /\ vy lo <= vy hi /\ vz lo <= vz hi)%Q.
Proof.
  unfold bounds. destruct (vertices m) as [| v vs]; [ discriminate |].
  intros H. injection H as <- <-.
  assert (Z : forall f : Vec3 -> Q,
             (forall a b, f (vmin a b) = Qmin (f a) (f b)) ->
             (forall a b, f (vmax a b) = Qmax (f a) (f b)) ->
             (f (fold_left vmin vs v) <= f (fold_left vmax vs v))%Q).
  { intros f Hmin Hmax.
    assert (A : forall l a, f (fold_left vmin l a)
                            = fold_left Qmin (map f l) (f a)).
    { induction l as [| w ws IH]; intros a; cbn [fold_left map];
        [ reflexivity | rewrite IH, Hmin; reflexivity ]. }
    assert (B : forall l a, f (fold_left vmax l a)
                            = fold_left Qmax (map f l) (f a)).
    { induction l as [| w ws IH]; intros a; cbn [fold_left map];
        [ reflexivity | rewrite IH, Hmax; reflexivity ]. }
    rewrite A, B. apply fold_min_le_max. apply Qle_refl. }
  repeat split; apply Z; reflexivity.
Qed.

Lemma uniform_row_in_box (lo hi r : Vec3) :
  (vx lo <= vx hi /\ vy lo <= vy hi /\ vz lo <= vz hi)%Q ->
  in_unit_cube r ->
  within_box lo hi (vadd lo (vmul (vsub hi lo) r)).
Proof.
  intros (Hx & Hy & Hz) ((X0 & X1) & (Y0 & Y1) & (Z0 & Z1)).
  unfold within_box. cbn [vadd vmul vsub vx vy vz].
  repeat split; nra.
Qed.

(** X18.  For a sampler honouring its contract, every point of the
    bounding-box block of [sample_pts] lies inside the bounding box of the
    mesh, bounds included, whatever the generator draws. *)
Theorem bbox_points_in_the_box (S : Sampler) (mesh : Mesh)
    (n_surface n_bbox n_volume : nat) (sigma : Q) (noise : bool)
    (s : rng S) (b : SampledBlocks S) (lo hi : Vec3) :
  sampler_ok S ->
  bounds mesh = Some (lo, hi) ->
  sample_blocks S mesh n_surface n_bbox n_volume sigma noise s = Ok b ->
  Forall (within_box lo hi) (bbox_block b).
Proof.
  intros HS Hb. unfold sample_blocks.
  destruct (sample_surface S mesh n_surface s) as [surf s1].
  destruct (random_normal S _ (length surf) s1) as [nz s2].
  rewrite Hb. unfold random_uniform.
  pose proof (random_sample3_range HS n_bbox s2) as R.
  destruct (random_sample3 S n_bbox s2) as [u s3]. cbn [fst] in R.
  destruct (random_sample3 S n_volume s3) as [vol s4].
  intros E. injection E as <-. cbn [bbox_block].
  apply Forall_forall. intros p Hp. apply in_map_iff in Hp.
  destruct Hp as (r & <- & Hr).
  apply uniform_row_in_box; [ exact (bounds_ordered mesh lo hi Hb) |].
  rewrite Forall_forall in R. apply R. exact Hr.
Qed.

Lemma bbox_points_in_the_box_witness :
  exists b,
    sample_blocks counting_sampler lopsided 2 3 1 (1 # 100)%Q true 0 = Ok b /\
    Forall (within_box {| vx := 0; vy := 0; vz := 0 |}%Q
                       {| vx := 4; vy := 0; vz := 0 |}%Q)
           (bbox_block b).
Proof.
  eexists. split; [ reflexivity |].
  apply (bbox_points_in_the_box counting_sampler lopsided 2 3 1 (1 # 100)%Q
           true 0 _ _ _ counting_sampler_ok); reflexivity.
Defined.

(** ** Surface points without noise *)

Lemma add_rows_of_zeros (a z : list Vec3) :
  length z = length a -> Forall (veq vzero) z ->
  Forall2 veq (add_rows a z) a.
Proof.
  revert z; induction a as [| x a IH]; intros [| y z] L Hz;
    cbn [add_rows]; try discriminate; [ constructor |].
  inversion Hz as [| ? ? (Hx & Hy & Hzz) Hz' ]; subst.
  constructor.
  - unfold veq in *. cbn [vadd vzero vx vy vz] in *. repeat split; lra.
  - apply IH; [ simpl in L; lia | assumption ].
Qed.

(** X19.  With [with_surface_points_noise=False] the noise is drawn with
    standard deviation 0 whatever [sigma] was passed: for a normal kernel
    that returns zeros at deviation 0, the surface block is the sampled
    surface points themselves. *)
Theorem surface_points_without_noise (S : Sampler) (mesh : Mesh)
    (n_surface n_bbox n_volume : nat) (sigma : Q) (s : rng S)
    (b : SampledBlocks S) :
  sampler_ok S ->
  (forall n s0, Forall (veq vzero) (fst (random_normal S 0%Q n s0))) ->
  sample_blocks S mesh n_surface n_bbox n_volume sigma false s = Ok b ->
  Forall2 veq (surface_block b) (fst (sample_surface S mesh n_surface s)).
Proof.
  intros HS Hzero. unfold sample_blocks. cbn [negb].
  destruct (sample_surface S mesh n_surface s) as [surf s1].
  pose proof (random_normal_count HS 0%Q (length surf) s1) as L.
  pose proof (Hzero (length surf) s1) as Z.
  destruct (random_normal S 0%Q (length surf) s1) as [nz s2].
  cbn [fst] in *.
  destruct (bounds mesh) as [[lo hi] |]; [| discriminate ].
  destruct (random_uniform S lo hi n_bbox s2) as [bb s3].
  destruct (random_sample3 S n_volume s3) as [vol s4].
  intros E. injection E as <-. cbn [surface_block].
  apply add_rows_of_zeros; assumption.
Qed.

Lemma surface_points_without_noise_witness :
  exists b,
    sample_blocks counting_sampler lopsided 2 3 1 (1 # 100)%Q false 0 = Ok b /\
    Forall2 veq (surface_block b)
      (fst (sample_surface counting_sampler lopsided 2 0)).
Proof.
  eexists. split; [ reflexivity |].
  apply (surface_points_without_noise counting_sampler lopsided 2 3 1
           (1 # 100)%Q 0 _ counting_sampler_ok); [| reflexivity ].
  intros n s0. cbn [counting_sampler random_normal fst].
  apply Forall_forall. intros p Hp. apply repeat_spec in Hp. subst p.
  unfold veq, vzero. cbn [vx vy vz]. repeat split; lra.
Defined.

(** ** The largest vertex norm *)

Lemma fold_max_ge_init (l : list Q) :
  forall a, (a <= fold_left Qmax l a)%Q.
Proof.
  induction l as [| y l IH]; intros a; cbn [fold_left]; [ apply Qle_refl |].
  apply Qle_trans with (Qmax a y); [ apply Q.le_max_l | apply IH ].
Qed.

Lemma fold_max_ge (l : list Q) :
  forall a x, In x l -> (x <= fold_left Qmax l a)%Q.
Proof.
  induction l as [| y l IH]; intros a x H; [ destruct H |].
  cbn [fold_left]. destruct H as [-> | H].
  - apply Qle_trans with (Qmax a x); [ apply Q.le_max_r |].
    apply fold_max_ge_init.
  - apply IH. exact H.
Qed.

Lemma fold_max_attained (l : list Q) :
  forall a, fold_left Qmax l a = a \/ In (fold_left Qmax l a) l.
Proof.
  induction l as [| y l IH]; intros a; cbn [fold_left]; [ left; reflexivity |].
  destruct (IH (Qmax a y)) as [E | H].
  - rewrite E. unfold Qmax, GenericMinMax.gmax.
    destruct (Qcompare a y); [ left | right; left | left ]; reflexivity.
  - right. right. exact H.
Qed.

Lemma fold_max_scaled (k : Q) (l l' : list Q) :
  (0 <= k)%Q ->
  Forall2 (fun x y => (y == x * k)%Q) l l' ->
  forall a a', (a' == a * k)%Q ->
    (fold_left Qmax l' a' == fold_left Qmax l a * k)%Q.
Proof.
  intros Hk H. induction H as [| x y l l' Hxy H IH]; intros a a' Ha;
    cbn [fold_left]; [ exact Ha |].
  apply IH.
  destruct (Q.max_spec a x) as [[H1 H2] | [H1 H2]];
    destruct (Q.max_spec a' y) as [[H3 H4] | [H3 H4]];
    rewrite H2, H4; try assumption; nra.
Qed.

Lemma max_norm_bounds (G : Geometry) (m : Mesh) (L : Q) :
  max_norm G m = Ok L ->
  Forall (fun v => (linalg_norm G v <= L)%Q) (vertices m) /\
  exists v, In v (vertices m) /\ linalg_norm G v = L.
Proof.
  unfold max_norm. destruct (vertices m) as [| v vs]; [ discriminate |].
  cbn [map]. intros E. injection E as <-. split.
  - constructor; [ apply fold_max_ge_init |].
    apply Forall_forall. intros w Hw. apply fold_max_ge.
    apply in_map. exact Hw.
  - destruct (fold_max_attained (map (linalg_norm G) vs) (linalg_norm G v))
      as [E | H].
    + exists v. split; [ left; reflexivity | symmetry; exact E ].
    + apply in_map_iff in H. destruct H as (w & E & Hw).
      exists w. split; [ right; exact Hw | exact E ].
Qed.

Lemma max_norm_scaled (G : Geometry) (m : Mesh) (k L : Q) :
  norm_ok G -> (0 <= k)%Q -> max_norm G m = Ok L ->
  exists L',
    max_norm G (with_vertices m (map (fun v => vscale v k) (vertices m)))
    = Ok L' /\ (L' == L * k)%Q.
Proof.
  intros HG Hk. unfold max_norm. cbn [with_vertices vertices].
  destruct (vertices m) as [| v vs]; [ discriminate |].
  cbn [map]. intros E. injection E as <-.
  eexists. split; [ reflexivity |].
  apply fold_max_scaled; [ exact Hk | | apply (norm_scale HG); exact Hk ].
  clear v. induction vs as [| w vs IH]; cbn [map]; constructor;
    [ apply (norm_scale HG); exact Hk | exact IH ].
Qed.

Lemma same_positions_unit_scale (m : Mesh) (l : Q) :
  (l == 1)%Q ->
  same_positions m
    (with_vertices m (map (fun v => vscale v (1 / l)%Q) (vertices m))).
Proof.
  intros Hl. unfold same_positions. cbn [with_vertices vertices].
  assert (K : (1 / l == 1)%Q) by (rewrite Hl; reflexivity).
  induction (vertices m) as [| v vs IH]; cbn [map]; constructor;
    [| exact IH ].
  unfold veq. cbn [vscale vx vy vz]. rewrite K. repeat split; ring.
Qed.

(** X20.  With no [max_length] given, [get_normalized_mesh] scales by the
    mesh's own largest vertex norm: for a norm that is not negative and
    follows scaling, the result has largest norm 1, every vertex within
    norm 1, and normalising it again leaves every position where it is. *)
Theorem self_normalization (G : Geometry) (m m1 : Mesh) :
  norm_ok G ->
  get_normalized_mesh G m None = Ok m1 ->
  (exists l, max_norm G m1 = Ok l /\ (l == 1)%Q) /\
  Forall (fun v => (linalg_norm G v <= 1)%Q) (vertices m1) /\
  exists m2, get_normalized_mesh G m1 None = Ok m2 /\ same_positions m1 m2.
Proof.
  intros HG. unfold get_normalized_mesh at 1.
  destruct (max_norm G m) as [L | e] eqn:EL; [| discriminate ].
  cbn [bind]. destruct (Qeq_bool L 0) eqn:EZ; [ discriminate |].
  intros E. injection E as <-.
  assert (NZ : ~ (L == 0)%Q).
  { intros H. apply Qeq_bool_iff in H. congruence. }
  assert (Pos : (0 < L)%Q).
  { destruct (max_norm_bounds G m L EL) as (_ & v & _ & Hv).
    pose proof (norm_nonneg HG v) as N. rewrite Hv in N.
    apply Qle_lteq in N. destruct N as [N | N]; [ exact N |].
    exfalso. apply NZ. symmetry. exact N. }
  assert (K : (0 <= 1 / L)%Q).
  { apply Qlt_le_weak. unfold Qdiv. rewrite Qmult_1_l.
    apply Qinv_lt_0_compat. exact Pos. }
  destruct (max_norm_scaled G m (1 / L)%Q L HG K EL) as (l & El & Hl).
  assert (One : (l == 1)%Q) by (rewrite Hl; field; exact NZ).
  split; [ exists l; split; assumption |]. split.
  - destruct (max_norm_bounds G _ l El) as (B & _).
    eapply Forall_impl; [| exact B ]. cbn beta. intros v Hv.
    rewrite One in Hv. exact Hv.
  - unfold get_normalized_mesh. rewrite El. cbn [bind].
    destruct (Qeq_bool l 0) eqn:EZ'.
    + apply Qeq_bool_iff in EZ'. rewrite One in EZ'. discriminate.
    + eexists. split; [ reflexivity |].
      apply same_positions_unit_scale. exact One.
Qed.

Lemma magnitude_nonneg (q : Q) : (0 <= magnitude q)%Q.
Proof.
  unfold magnitude. destruct (Q.max_spec q (- q)) as [[H1 H2] | [H1 H2]];
    rewrite H2; lra.
Qed.

Lemma magnitude_scale (q s : Q) :
  (0 <= s)%Q -> (magnitude (q * s) == magnitude q * s)%Q.
Proof.
  intros Hs. unfold magnitude.
  destruct (Q.max_spec q (- q)) as [[H1 H2] | [H1 H2]];
    destruct (Q.max_spec (q * s) (- (q * s))) as [[H3 H4] | [H3 H4]];
    rewrite H2, H4; nra.
Qed.

Lemma taxicab_norm_ok (G : Geometry) :
  (forall v, linalg_norm G v
             = (magnitude (vx v) + magnitude (vy v) + magnitude (vz v))%Q) ->
  norm_ok G.
Proof.
  intros H. constructor.
  - intros v. rewrite H.
    pose proof (magnitude_nonneg (vx v)). pose proof (magnitude_nonneg (vy v)).
    pose proof (magnitude_nonneg (vz v)). lra.
  - intros v s Hs. rewrite !H. cbn [vscale vx vy vz].
    rewrite !magnitude_scale by exact Hs. ring.
Qed.

Lemma self_normalization_witness :
  exists m1,
    get_normalized_mesh (geometry_of lopsided) lopsided None = Ok m1 /\
    (exists l, max_norm (geometry_of lopsided) m1 = Ok l /\ (l == 1)%Q) /\
    Forall (fun v => (linalg_norm (geometry_of lopsided) v <= 1)%Q)
           (vertices m1) /\
    exists m2, get_normalized_mesh (geometry_of lopsided) m1 None = Ok m2 /\
               same_positions m1 m2.
Proof.
  eexists. split; [ reflexivity |].
  apply (self_normalization (geometry_of lopsided) lopsided);
    [ apply taxicab_norm_ok; reflexivity | reflexivity ].
Defined.

(** ** Loading the corpus *)

Lemma ends_with_spec (suffix s : string) :
  ends_with suffix s = true <-> exists pre, s = (pre ++ suffix)%string.
Proof.
  split.
  - induction s as [| c s IH]; cbn [ends_with]; intros H;
      apply orb_true_iff in H; destruct H as [H | H]; try discriminate.
    + apply String.eqb_eq in H. exists EmptyString. exact H.
    + apply String.eqb_eq in H. exists EmptyString. exact H.
    + destruct (IH H) as (pre & ->). exists (String c pre). reflexivity.
  - intros (pre & ->). induction pre as [| c pre IH].
    + cbn [append]. destruct suffix; cbn [ends_with];
        rewrite String.eqb_refl; reflexivity.
    + cbn [append ends_with]. rewrite IH. apply orb_true_r.
Qed.

(** What a successful load of the corpus returns: one result per [.obj]
    name, in the order of the listing, and the largest of their lengths. *)
Lemma load_meshes_results (G : Geometry) (listing : list string)
    (dir : string) (mz cw : bool) (mode : string) (meshes : list Mesh)
    (L : Q) :
  load_meshes_and_compute_max_norm G listing dir mz cw mode
  = Ok (meshes, L) ->
  exists results,
    Forall2 (fun file r =>
               load_mesh_and_compute_max_norm G (path_join dir file) mz cw
                 mode = Ok r)
            (filter (ends_with ".obj") listing) results /\
    meshes = map fst results /\
    Forall (fun r => (snd r <= L)%Q) results /\
    In L (map snd results).
Proof.
  unfold load_meshes_and_compute_max_norm. intros H.
  apply bind_ok in H. destruct H as (results & Hr & H).
  apply map_result_ok in Hr. exists results.
  split.
  { clear H. revert results Hr.
    induction (filter (ends_with ".obj") listing) as [| file fs IH];
      cbn [map]; intros results Hr; inversion Hr; subst; constructor;
      [ assumption | apply IH; assumption ]. }
  destruct results as [| [m0 l0] rest]; [ discriminate |].
  injection H as <- <-. split; [ reflexivity |]. split.
  - constructor; [ apply fold_max_ge_init |].
    apply Forall_forall. intros r Hr'. apply fold_max_ge.
    apply in_map. exact Hr'.
  - cbn [map snd].
    destruct (fold_max_attained (map snd rest) l0) as [E | E];
      [ left; symmetry; exact E | right; exact E ].
Qed.

Lemma loaded_length (G : Geometry) (p : string) (mz cw : bool)
    (mode : string) (mesh : Mesh) (l : Q) :
  load_mesh_and_compute_max_norm G p mz cw mode = Ok (mesh, l) ->
  load_mesh G p false mz cw None mode = Ok mesh /\ max_norm G mesh = Ok l.
Proof.
  unfold load_mesh_and_compute_max_norm. intros H.
  apply bind_ok in H. destruct H as (m & Hm & H).
  apply bind_ok in H. destruct H as (l' & Hl & H).
  injection H as <- <-. split; assumption.
Qed.

Lemma forall2_in_r {A B : Type} (P : A -> B -> Prop) (l : list A)
    (l' : list B) (y : B) :
  Forall2 P l l' -> In y l' -> exists x, In x l /\ P x y.
Proof.
  induction 1 as [| a b l l' Hab _ IH]; intros Hy; [ destruct Hy |].
  destruct Hy as [<- | Hy].
  - exists a. split; [ left; reflexivity | exact Hab ].
  - destruct (IH Hy) as (x & Hx & Px). exists x.
    split; [ right; exact Hx | exact Px ].
Qed.

(** X21.  When [_load_meshes_and_compute_max_norm] returns, the meshes are
    those of the names ending in [.obj], one each and in the order of the
    directory listing, loaded without normalisation; [max_length] bounds
    the largest vertex norm of every mesh and is the largest vertex norm of
    one of them. *)
Theorem corpus_is_loaded_in_order (G : Geometry) (listing : list string)
    (dir : string) (mz cw : bool) (mode : string) (meshes : list Mesh)
    (L : Q) :
  load_meshes_and_compute_max_norm G listing dir mz cw mode
  = Ok (meshes, L) ->
  Forall2 (fun file mesh =>
             load_mesh G (path_join dir file) false mz cw None mode = Ok mesh
             /\ exists l, max_norm G mesh = Ok l /\ (l <= L)%Q)
          (filter (ends_with ".obj") listing) meshes /\
  (exists mesh, In mesh meshes /\ max_norm G mesh = Ok L).
Proof.
  intros H. destruct (load_meshes_results _ _ _ _ _ _ _ _ H)
    as (results & F & -> & B & A).
  split.
  - clear A H. revert B.
    induction F as [| file [m l] fs rs Hr F IH]; cbn [map]; intros B;
      constructor.
    + apply loaded_length in Hr. destruct Hr as (Hm & Hl).
      split; [ exact Hm |]. exists l. split; [ exact Hl |].
      inversion B as [| ? ? Hb Hbs ]; subst. exact Hb.
    + apply IH. inversion B as [| ? ? Hb Hbs ]; subst. exact Hbs.
  - apply in_map_iff in A. destruct A as ([m l] & El & Hin).
    cbn [snd] in El. subst l. exists m. split.
    + apply in_map_iff. exists (m, L). split; [ reflexivity | exact Hin ].
    + destruct (forall2_in_r _ _ _ _ F Hin) as (file & _ & Hr).
      apply loaded_length in Hr. apply Hr.
Qed.

Lemma corpus_is_loaded_in_order_witness :
  exists meshes L,
    load_meshes_and_compute_max_norm two_meshes raw_listing "raw" true true
      MIN_BOUND = Ok (meshes, L) /\
    Forall2 (fun file mesh =>
               load_mesh two_meshes (path_join "raw" file) false true true
                 None MIN_BOUND = Ok mesh
               /\ exists l, max_norm two_meshes mesh = Ok l /\ (l <= L)%Q)
            (filter (ends_with ".obj") raw_listing) meshes /\
    (exists mesh, In mesh meshes /\ max_norm two_meshes mesh = Ok L).
Proof.
  destruct (load_meshes_and_compute_max_norm two_meshes raw_listing "raw"
              true true MIN_BOUND) as [[meshes L] | e] eqn:E.
  - exists meshes, L. split; [ reflexivity |].
    apply (corpus_is_loaded_in_order two_meshes raw_listing "raw" true true
             MIN_BOUND meshes L E).
  - vm_compute in E. discriminate.
Defined.

Example raw_listing_loaded :
  match load_meshes_and_compute_max_norm two_meshes raw_listing "raw" true
          true MIN_BOUND with
  | Ok (meshes, L) => Some (map path meshes, L)
  | Raise _ => None
  end = Some ([Some "raw/a.obj"; Some "raw/b.obj"]%string, 4%Q).
Proof. vm_compute. reflexivity. Qed.

(** X22.  Scaling by the [max_length] of the corpus, as [create] does,
    brings every vertex of every mesh of the corpus within norm 1, and some
    vertex of some mesh to norm exactly 1 (for a norm that is not negative
    and follows scaling). *)
Theorem corpus_normalization (G : Geometry) (listing : list string)
    (dir : string) (mz cw : bool) (mode : string) (meshes : list Mesh)
    (L : Q) :
  norm_ok G ->
  load_meshes_and_compute_max_norm G listing dir mz cw mode
  = Ok (meshes, L) ->
  ~ (L == 0)%Q ->
  (forall mesh, In mesh meshes ->
     exists nm, get_normalized_mesh G mesh (Some L) = Ok nm /\
       Forall (fun v => (linalg_norm G v <= 1)%Q) (vertices nm)) /\
  (exists mesh nm v, In mesh meshes /\
     get_normalized_mesh G mesh (Some L) = Ok nm /\
     In v (vertices nm) /\ (linalg_norm G v == 1)%Q).
Proof.
  intros HG H NZ.
  destruct (load_meshes_results _ _ _ _ _ _ _ _ H)
    as (results & F & -> & B & A).
  apply in_map_iff in A. destruct A as ([m0 l0] & E0 & Hin0).
  cbn [snd] in E0. subst l0.
  destruct (forall2_in_r _ _ _ _ F Hin0) as (file0 & _ & Hr0).
  apply loaded_length in Hr0. destruct Hr0 as (_ & HL0).
  destruct (max_norm_bounds G m0 L HL0) as (_ & v0 & Hv0 & Nv0).
  assert (Pos : (0 < L)%Q).
  { pose proof (norm_nonneg HG v0) as N. rewrite Nv0 in N.
    apply Qle_lteq in N. destruct N as [N | N]; [ exact N |].
    exfalso. apply NZ. symmetry. exact N. }
  assert (K : (0 <= 1 / L)%Q).
  { apply Qlt_le_weak. unfold Qdiv. rewrite Qmult_1_l.
    apply Qinv_lt_0_compat. exact Pos. }
  split.
  - intros mesh Hin. apply in_map_iff in Hin.
    destruct Hin as ([m l] & <- & Hin). cbn [fst].
    rewrite get_normalized_mesh_given by exact NZ.
    eexists. split; [ reflexivity |].
    cbn [with_vertices vertices].
    destruct (forall2_in_r _ _ _ _ F Hin) as (file & _ & Hr).
    apply loaded_length in Hr. destruct Hr as (_ & Hl).
    destruct (max_norm_bounds G m l Hl) as (Bl & _).
    rewrite Forall_forall in B. pose proof (B _ Hin) as BL. cbn [snd] in BL.
    apply Forall_forall. intros w Hw. apply in_map_iff in Hw.
    destruct Hw as (v & <- & Hv).
    rewrite Forall_forall in Bl. pose proof (Bl v Hv) as Nv.
    rewrite (norm_scale HG v K).
    assert (U : (L * (1 / L) == 1)%Q) by (field; exact NZ).
    apply Qle_trans with (L * (1 / L))%Q; [| rewrite U; apply Qle_refl ].
    apply Qmult_le_compat_r; [| exact K ].
    apply Qle_trans with l; assumption.
  - exists m0. rewrite get_normalized_mesh_given by exact NZ.
    eexists. exists (vscale v0 (1 / L)%Q).
    split; [ apply in_map_iff; exists (m0, L); split;
             [ reflexivity | exact Hin0 ] |].
    split; [ reflexivity |]. split.
    + cbn [with_vertices vertices]. apply in_map_iff. exists v0.
      split; [ reflexivity | exact Hv0 ].
    + rewrite (norm_scale HG v0 K). rewrite Nv0. field. exact NZ.
Qed.

Lemma corpus_normalization_witness :
  exists meshes L,
    load_meshes_and_compute_max_norm two_meshes raw_listing "raw" true true
      MIN_BOUND = Ok (meshes, L) /\
    (forall mesh, In mesh meshes ->
       exists nm, get_normalized_mesh two_meshes mesh (Some L) = Ok nm /\
         Forall (fun v => (linalg_norm two_meshes v <= 1)%Q) (vertices nm)) /\
    (exists mesh nm v, In mesh meshes /\
       get_normalized_mesh two_meshes mesh (Some L) = Ok nm /\
       In v (vertices nm) /\ (linalg_norm two_meshes v == 1)%Q).
Proof.
  destruct (load_meshes_and_compute_max_norm two_meshes raw_listing "raw"
              true true MIN_BOUND) as [[meshes L] | e] eqn:E.
  - exists meshes, L. split; [ reflexivity |].
    apply (corpus_normalization two_meshes raw_listing "raw" true true
             MIN_BOUND meshes L);
      [ apply taxicab_norm_ok; reflexivity | exact E |].
    vm_compute in E. injection E as _ EL. subst L.
    intros Z. vm_compute in Z. discriminate Z.
  - vm_compute in E. discriminate.
Defined.

(** X23.  On a directory without any name ending in [.obj] the corpus
    cannot be unpacked: [_load_meshes_and_compute_max_norm], and [create]
    with it, raise [ValueError] before any archive is written. *)
Theorem corpus_without_meshes (G : Geometry) (S : Sampler) (C : Corpus)
    (self : DataCreator) (listing : list string) (s : rng S) :
  (forall file stem, In file listing -> file <> (stem ++ ".obj")%string) ->
  load_meshes_and_compute_max_norm G listing (raw_data_path self) true true
    (translate_mode self) = Raise ValueError /\
  create G S C self listing s = Raise ValueError.
Proof.
  intros H.
  assert (E : filter (ends_with ".obj") listing = []).
  { induction listing as [| file l IH]; [ reflexivity |].
    cbn [filter]. destruct (ends_with ".obj" file) eqn:Ef.
    - apply ends_with_spec in Ef. destruct Ef as (stem & Ef).
      exfalso. apply (H file stem); [ left; reflexivity | exact Ef ].
    - apply IH. intros f st Hf. apply H. right. exact Hf. }
  assert (R : load_meshes_and_compute_max_norm G listing (raw_data_path self)
                true true (translate_mode self) = Raise ValueError).
  { unfold load_meshes_and_compute_max_norm. rewrite E. reflexivity. }
  split; [ exact R |]. unfold create. rewrite R. reflexivity.
Qed.

Lemma corpus_without_meshes_witness :
  load_meshes_and_compute_max_norm two_meshes ["notes.txt"; "a.objx"]%string
    (raw_data_path (small_creator false)) true true
    (translate_mode (small_creator false)) = Raise ValueError /\
  create two_meshes counting_sampler height_corpus (small_creator false)
    ["notes.txt"; "a.objx"]%string 0 = Raise ValueError.
Proof.
  apply (corpus_without_meshes two_meshes counting_sampler height_corpus
           (small_creator false) ["notes.txt"; "a.objx"]%string 0).
  intros file stem Hin E.
  assert (Z : ends_with ".obj" file = true)
    by (apply ends_with_spec; exists stem; exact E).
  destruct Hin as [<- | [<- | []]]; vm_compute in Z; discriminate Z.
Defined.

(** ** The archives of [create] *)

Lemma sample_pts_length (S : Sampler) (mesh : Mesh)
    (n_surface n_bbox n_volume : nat) (sigma : Q) (noise : bool)
    (s s' : rng S) (points : list Vec3) :
  sampler_ok S ->
  sample_pts S mesh n_surface n_bbox n_volume sigma noise s
  = Ok (points, s') ->
  length points = n_surface + n_bbox + n_volume.
Proof.
  intros HS E. destruct (vertices mesh) as [| v vs] eqn:Ev.
  - exfalso. revert E. unfold sample_pts, sample_blocks, bounds. rewrite Ev.
    destruct (sample_surface S mesh n_surface s) as [surf s1].
    destruct (random_normal S _ (length surf) s1) as [nz s2].
    discriminate.
  - assert (Hne : vertices mesh <> []) by (rewrite Ev; discriminate).
    destruct (sample_pts_on_vertices S mesh n_surface n_bbox n_volume sigma
                noise s HS Hne)
      as (xyz0 & s0 & _ & _ & _ & E0 & _ & _ & _ & _ & L & _).
    rewrite E0 in E. injection E as <- _. exact L.
Qed.

Lemma archived_same (C : Corpus) (c1 c2 : DataCreator) (k : nat)
    (mesh : Mesh) (w : string * Archive) :
  save_path c2 = save_path c1 ->
  dynamic_sampling c2 = dynamic_sampling c1 ->
  (dynamic_sampling c1 = false -> c2 = c1) ->
  archived C c2 k mesh w -> archived C c1 k mesh w.
Proof.
  intros Hs Hd Hc (p & Hp & Hw & Hk & Hn & Hx & Hl).
  exists p. rewrite <- Hs. repeat split; try assumption.
  rewrite Hx. unfold sampling_total. rewrite Hd.
  destruct (dynamic_sampling c1); [ reflexivity |].
  rewrite Hc; reflexivity.
Qed.

Lemma create_step_effect (G : Geometry) (S : Sampler) (C : Corpus) (L : Q)
    (st st' : CreateState S) (mesh : Mesh) :
  sampler_ok S -> distance_ok C ->
  create_step G C L st mesh = Ok st' ->
  (exists w, saved st' = saved st ++ [w] /\
             archived C (creator st) (next_cls st) mesh w) /\
  next_cls st' = next_cls st + 1 /\
  save_path (creator st') = save_path (creator st) /\
  dynamic_sampling (creator st') = dynamic_sampling (creator st) /\
  (dynamic_sampling (creator st) = false -> creator st' = creator st).
Proof.
  intros HS HC. unfold create_step. intros H.
  apply bind_ok in H. destruct H as (nm & _ & H).
  apply bind_ok in H. destruct H as ([points s'] & Hp & H).
  destruct (path mesh) as [p |] eqn:Ep; [| discriminate ].
  injection H as <-. cbn [saved next_cls creator].
  apply sample_pts_length in Hp; [| exact HS ].
  assert (Hsave : save_path
                    (if dynamic_sampling (creator st)
                     then with_sampling (creator st)
                            (get_dynamic_sampling_size C
                               (length (vertices mesh)))
                     else creator st) = save_path (creator st))
    by (destruct (dynamic_sampling (creator st)); reflexivity).
  split; [| split; [ reflexivity | split; [ exact Hsave | split ] ] ].
  - eexists. split; [ reflexivity |].
    exists p. cbn [fst snd cls cls_name xyz sdf]. rewrite Hsave.
    repeat split; try assumption; try reflexivity.
    + rewrite Hp. unfold sampling_total.
      destruct (dynamic_sampling (creator st)); reflexivity.
    + apply HC.
  - destruct (dynamic_sampling (creator st)) eqn:D; exact D.
  - intros D. rewrite D. reflexivity.
Qed.

Lemma create_loop_effect (G : Geometry) (S : Sampler) (C : Corpus) (L : Q)
    (meshes : list Mesh) :
  sampler_ok S -> distance_ok C ->
  forall st st' : CreateState S,
    create_loop G C L meshes st = Ok st' ->
    exists added,
      saved st' = saved st ++ added /\
      length added = length meshes /\
      map (fun w => cls (snd w)) added
      = seq (next_cls st) (length meshes) /\
      forall k mesh, nth_error meshes k = Some mesh ->
        exists w, nth_error added k = Some w /\
                  archived C (creator st) (next_cls st + k) mesh w.
Proof.
  intros HS HC. induction meshes as [| mesh rest IH]; intros st st' H.
  - cbn [create_loop] in H. injection H as <-. exists [].
    rewrite app_nil_r. repeat split; try reflexivity.
    intros [| k] m Hk; discriminate Hk.
  - cbn [create_loop] in H. apply bind_ok in H.
    destruct H as (st1 & H1 & H).
    destruct (create_step_effect G S C L st st1 mesh HS HC H1)
      as ((w & Hw & Aw) & Hn & Hs & Hd & Hc).
    destruct (IH st1 st' H) as (added & Ha & Hl & Hm & Hk).
    exists (w :: added). split; [| split; [| split ] ].
    + rewrite Ha, Hw, <- app_assoc. reflexivity.
    + cbn [length]. rewrite Hl. reflexivity.
    + cbn [map length seq]. rewrite Hm, Hn, Nat.add_1_r.
      destruct Aw as (_ & _ & _ & -> & _). reflexivity.
    + intros [| k] m Hm'.
      * cbn [nth_error] in *. injection Hm' as <-. exists w.
        split; [ reflexivity |]. rewrite Nat.add_0_r. exact Aw.
      * cbn [nth_error] in *. destruct (Hk k m Hm') as (w' & Hw' & Aw').
        exists w'. split; [ exact Hw' |].
        replace (next_cls st + Datatypes.S k) with (next_cls st1 + k)
          by (rewrite Hn; lia).
        apply (archived_same C (creator st) (creator st1)); assumption.
Qed.

(** X24.  When [create] returns it has saved one archive per mesh of the
    corpus, in the order of the corpus: the archive of the mesh at position
    [k] has class [k], is named after the text of the mesh's file name
    before its first dot, and holds as many distances as points, their
    number being the sum of the three sampling sizes (those of the policy
    for the mesh's vertex count under dynamic sampling, the configured ones
    otherwise).  The classes saved are [0, 1, ..., n-1]. *)
Theorem create_archives (G : Geometry) (S : Sampler) (C : Corpus)
    (self : DataCreator) (listing : list string) (s : rng S)
    (st : CreateState S) :
  sampler_ok S -> distance_ok C ->
  create G S C self listing s = Ok st ->
  exists meshes max_length,
    load_meshes_and_compute_max_norm G listing (raw_data_path self) true
      true (translate_mode self) = Ok (meshes, max_length) /\
    length (saved st) = length meshes /\
    map (fun w => cls (snd w)) (saved st) = seq 0 (length meshes) /\
    forall k mesh, nth_error meshes k = Some mesh ->
      exists w, nth_error (saved st) k = Some w /\
                archived C self k mesh w.
Proof.
  intros HS HC. unfold create. intros H. apply bind_ok in H.
  destruct H as ([meshes L] & Hl & H). exists meshes, L.
  split; [ exact Hl |].
  destruct (create_loop_effect G S C L meshes HS HC _ _ H)
    as (added & Ha & Hlen & Hm & Hk).
  cbn [saved next_cls creator app] in *. subst added.
  split; [ exact Hlen |]. split; [ exact Hm |]. exact Hk.
Qed.

Lemma create_archives_witness :
  exists st meshes max_length,
    create two_meshes counting_sampler height_corpus (small_creator true)
      raw_listing 0 = Ok st /\
    load_meshes_and_compute_max_norm two_meshes raw_listing
      (raw_data_path (small_creator true)) true true
      (translate_mode (small_creator true)) = Ok (meshes, max_length) /\
    length (saved st) = length meshes /\
    map (fun w => cls (snd w)) (saved st) = seq 0 (length meshes) /\
    forall k mesh, nth_error meshes k = Some mesh ->
      exists w, nth_error (saved st) k = Some w /\
                archived height_corpus (small_creator true) k mesh w.
Proof.
  destruct (create two_meshes counting_sampler height_corpus
              (small_creator true) raw_listing 0) as [st | e] eqn:E.
  - exists st.
    destruct (create_archives two_meshes counting_sampler height_corpus
                (small_creator true) raw_listing 0 st counting_sampler_ok)
      as (meshes & L & H);
      [ | exact E | exists meshes, L; split; [ reflexivity | exact H ] ].
    intros points mesh. apply length_map.
  - vm_compute in E. discriminate.
Defined.

Example archives_of_the_small_corpus :
  match create two_meshes counting_sampler height_corpus
          (small_creator true) raw_listing 0 with
  | Ok st =>
      Some (map (fun w => (fst w, cls (snd w), cls_name (snd w),
                           length (xyz (snd w)), length (sdf (snd w))))
                (saved st))
  | Raise _ => None
  end
  = Some [ ("out/a.npz", 0, "a", 10, 10); ("out/b.npz", 1, "b", 4, 4) ]%string.
Proof. vm_compute. reflexivity. Qed.

(** ** The name of an archive *)

Lemma basename_from_app (x y : string) :
  forall cur,
    basename_from cur (x ++ y) = basename_from (basename_from cur x) y.
Proof.
  induction x as [| c x IH]; intros cur; cbn [append basename_from];
    [ reflexivity |].
  destruct (Ascii.eqb c "/"); apply IH.
Qed.

Lemma basename_from_plain (y : string) :
  no_char "/" y = true ->
  forall cur, basename_from cur y = (cur ++ y)%string.
Proof.
  induction y as [| c y IH]; cbn [no_char basename_from]; intros H cur.
  - clear H. induction cur as [| d cur IHc]; cbn [append];
      [ reflexivity | rewrite <- IHc; reflexivity ].
  - apply andb_true_iff in H. destruct H as (Hc & Hy).
    apply negb_true_iff in Hc. rewrite Hc, (IH Hy), string_app_assoc.
    reflexivity.
Qed.

Lemma basename_of_directory (a : string) :
  ends_with_slash a = true -> forall cur, basename_from cur a = EmptyString.
Proof.
  induction a as [| c a IH]; [ discriminate |].
  intros H cur. cbn [basename_from]. destruct a as [| d a].
  - cbn [ends_with_slash] in H. rewrite H. reflexivity.
  - assert (H' : ends_with_slash (String d a) = true) by exact H.
    destruct (Ascii.eqb c "/"); apply IH; exact H'.
Qed.

Lemma basename_of_join (dir file : string) :
  no_char "/" file = true -> basename (path_join dir file) = file.
Proof.
  intros H. unfold basename, path_join.
  assert (S0 : starts_with_slash file = false).
  { destruct file as [| c f]; [ reflexivity |].
    cbn [no_char] in H. apply andb_true_iff in H. destruct H as (Hc & _).
    apply negb_true_iff in Hc. apply Ascii.eqb_neq in Hc.
    unfold starts_with_slash.
    destruct (Ascii.eqb_spec c "/") as [-> | N]; [ congruence |].
    destruct c as [[] [] [] [] [] [] [] []]; try reflexivity. congruence. }
  rewrite S0. destruct (String.eqb dir "") eqn:Ed; cbn [orb].
  - apply String.eqb_eq in Ed. subst dir. cbn [append].
    rewrite basename_from_plain by exact H. reflexivity.
  - destruct (ends_with_slash dir) eqn:Es.
    + rewrite basename_from_app, (basename_of_directory dir Es).
      rewrite basename_from_plain by exact H. reflexivity.
    + rewrite basename_from_app.
      change ("/" ++ file)%string with (String "/" file).
      cbn [basename_from]. rewrite Ascii.eqb_refl.
      rewrite basename_from_plain by exact H. reflexivity.
Qed.

Lemma before_first_dot_of_name (stem rest : string) :
  no_char "." stem = true ->
  before_first_dot (stem ++ "." ++ rest) = stem.
Proof.
  induction stem as [| c stem IH]; cbn [no_char append]; intros H.
  - reflexivity.
  - apply andb_true_iff in H. destruct H as (Hc & Hs).
    apply negb_true_iff in Hc. cbn [before_first_dot]. rewrite Hc.
    f_equal. apply IH. exact Hs.
Qed.

(** X25.  For a file [stem.ext] in the corpus directory, with neither dot
    nor slash in [stem] and no slash in [ext], the class name that [create]
    derives from the mesh's path is [stem]. *)
Theorem archive_name_of_a_file (dir stem ext : string) :
  no_char "/" stem = true -> no_char "." stem = true ->
  no_char "/" ext = true ->
  before_first_dot (basename (path_join dir (stem ++ "." ++ ext))) = stem.
Proof.
  intros H1 H2 H3. rewrite basename_of_join.
  - apply before_first_dot_of_name. exact H2.
  - rewrite !no_char_app, H1, H3. reflexivity.
Qed.

Lemma archive_name_of_a_file_witness :
  before_first_dot (basename (path_join "raw" ("tower_1" ++ "." ++ "obj")))
  = "tower_1"%string.
Proof.
  apply (archive_name_of_a_file "raw" "tower_1" "obj"); reflexivity.
Defined.

(** A second dot in the file name is cut with all that follows it, so two
    files can claim the same archive. *)
Example archive_names_can_collide :
  before_first_dot (basename (path_join "raw" "tower.v2.obj"))
  = before_first_dot (basename (path_join "raw" "tower.obj")).
Proof. reflexivity. Qed.

(** ** What [load_mesh] refuses and what it keeps *)

Lemma bounds_of_no_vertex (m : Mesh) : vertices m = [] -> bounds m = None.
Proof. unfold bounds. intros ->. reflexivity. Qed.

(** X26.  [load_mesh] raises [ValueError] for a translate mode that is none
    of the three, whatever the mesh and the other options.  On a mesh
    without vertices the modes fail apart: [min_bound] raises [TypeError],
    [center_without_z] raises [AttributeError], and [center] passes, so
    that [load_mesh_and_compute_max_norm] fails only at the maximum of no
    norm, with [ValueError]. *)
Theorem load_mesh_failures (G : Geometry) (p : string) (normalize : bool)
    (mz cw : bool) (max_length : option Q) (mode : string) :
  (mode <> MIN_BOUND -> mode <> CENTER -> mode <> CENTER_WITHOUT_Z ->
   load_mesh G p normalize mz cw max_length mode = Raise ValueError) /\
  (vertices (load_and_repair G p mz cw) = [] ->
   load_mesh G p normalize mz cw max_length MIN_BOUND = Raise TypeError /\
   load_mesh G p normalize mz cw max_length CENTER_WITHOUT_Z
   = Raise AttributeError /\
   load_mesh_and_compute_max_norm G p mz cw CENTER = Raise ValueError).
Proof.
  split.
  - intros H1 H2 H3. unfold load_mesh, translation_vector.
    apply String.eqb_neq in H1, H2, H3. rewrite H1, H2, H3. reflexivity.
  - intros Hv. pose proof (bounds_of_no_vertex _ Hv) as Hb.
    split; [| split ].
    + unfold load_mesh, translation_vector. rewrite String.eqb_refl, Hb.
      reflexivity.
    + unfold load_mesh, translation_vector.
      change (String.eqb CENTER_WITHOUT_Z MIN_BOUND) with false.
      change (String.eqb CENTER_WITHOUT_Z CENTER) with false.
      rewrite String.eqb_refl, Hb. reflexivity.
    + unfold load_mesh_and_compute_max_norm, load_mesh, translation_vector.
      change (String.eqb CENTER MIN_BOUND) with false.
      rewrite String.eqb_refl. cbn [bind].
      unfold max_norm, translate.
      cbn [with_path with_vertices vertices]. rewrite Hv. reflexivity.
Qed.

Lemma load_mesh_failures_witness :
  load_mesh (geometry_of (mesh_of [])) "a.obj" true true true None "top"
  = Raise ValueError /\
  load_mesh (geometry_of (mesh_of [])) "a.obj" true true true None MIN_BOUND
  = Raise TypeError /\
  load_mesh (geometry_of (mesh_of [])) "a.obj" true true true None
    CENTER_WITHOUT_Z = Raise AttributeError /\
  load_mesh_and_compute_max_norm (geometry_of (mesh_of [])) "a.obj" true
    true CENTER = Raise ValueError.
Proof.
  destruct (load_mesh_failures (geometry_of (mesh_of [])) "a.obj" true true
              true None "top") as (H1 & H2).
  split.
  - apply H1; intros E; vm_compute in E; discriminate E.
  - apply H2. reflexivity.
Defined.

(** X27.  Whatever the options, a mesh that [load_mesh] returns carries the
    path it was loaded from, and has the faces and the number of vertices
    of the mesh as loaded and repaired: translation and normalisation move
    vertices and do nothing else. *)
Theorem load_mesh_keeps_the_topology (G : Geometry) (p : string)
    (normalize : bool) (mz cw : bool) (max_length : option Q)
    (mode : string) (mesh : Mesh) :
  load_mesh G p normalize mz cw max_length mode = Ok mesh ->
  path mesh = Some p /\
  faces mesh = faces (load_and_repair G p mz cw) /\
  length (vertices mesh) = length (vertices (load_and_repair G p mz cw)).
Proof.
  unfold load_mesh. intros H.
  apply bind_ok in H. destruct H as (vector & _ & H).
  apply bind_ok in H. destruct H as (m & Hm & H).
  injection H as <-. cbn [with_path path faces vertices].
  split; [ reflexivity |].
  destruct normalize.
  - unfold get_normalized_mesh in Hm. apply bind_ok in Hm.
    destruct Hm as (l & _ & Hm).
    destruct (Qeq_bool l 0); [ discriminate |]. injection Hm as <-.
    unfold translate. cbn [with_vertices faces vertices].
    rewrite !length_map. split; reflexivity.
  - injection Hm as <-. unfold translate.
    cbn [with_vertices faces vertices]. rewrite length_map.
    split; reflexivity.
Qed.

Lemma load_mesh_keeps_the_topology_witness :
  exists mesh,
    load_mesh (geometry_of unit_tetrahedron) "t.obj" true true true None
      CENTER = Ok mesh /\
    path mesh = Some "t.obj"%string /\
    faces mesh
    = faces (load_and_repair (geometry_of unit_tetrahedron) "t.obj" true
               true) /\
    length (vertices mesh)
    = length (vertices (load_and_repair (geometry_of unit_tetrahedron)
                          "t.obj" true true)).
Proof.
  destruct (load_mesh (geometry_of unit_tetrahedron) "t.obj" true true true
              None CENTER) as [mesh | e] eqn:E.
  - exists mesh. split; [ reflexivity |].
    apply (load_mesh_keeps_the_topology (geometry_of unit_tetrahedron)
             "t.obj" true true true None CENTER mesh E).
  - vm_compute in E. discriminate.
Defined.

(** ** Arithmetic needs three trained codes *)

Lemma filter_firstn_le {A : Type} (keep : A -> bool) (n : nat) (l : list A) :
  length (filter keep (firstn n l)) <= length (filter keep l).
Proof.
  rewrite <- (firstn_skipn n l) at 2. rewrite filter_app, length_app. lia.
Qed.

Lemma arithmetic_pick_fails (sdf_decoder : SDFdecoder)
    (data : list SynthesisRecord) (d : Draws) :
  length (candidate_pool interpolation (length (latent_codes sdf_decoder))
            false data) < 3 ->
  pick_arithmetic d = true ->
  candidate sdf_decoder data d = Raise ValueError.
Proof.
  intros Hlt Hd. unfold candidate. rewrite Hd.
  unfold random_arithmetic_operations_synthesis, random_sample.
  assert (Hp : length (candidate_pool interpolation
                         (length (latent_codes sdf_decoder))
                         (restrict_to_trained (selection d)) data) < 3).
  { destruct (restrict_to_trained (selection d)); [| exact Hlt ].
    unfold candidate_pool in *.
    eapply Nat.le_lt_trans; [ apply filter_firstn_le | exact Hlt ]. }
  apply Nat.ltb_lt in Hp. rewrite Hp. reflexivity.
Qed.

Lemma candidate_type (sdf_decoder : SDFdecoder)
    (data : list SynthesisRecord) (d : Draws) (type : SynthesisType)
    (file_name : string) (code : Tensor.t) :
  candidate sdf_decoder data d = Ok (type, file_name, code) ->
  type = if pick_arithmetic d then arithmetic else interpolation.
Proof.
  unfold candidate. destruct (pick_arithmetic d); intros H;
    apply bind_ok in H; destruct H as (r & _ & H).
  - destruct r as [ids c]. injection H as <- _ _. reflexivity.
  - destruct r as [[ids f] c]. injection H as <- _ _. reflexivity.
Qed.

(** X28.  A decoder with fewer than three trained codes never gets an
    arithmetic shape: in a run started without a ledger file the ledger
    holds no arithmetic record at any point, and every iteration whose coin
    picks the arithmetic synthesis raises [ValueError], since the
    interpolated records added meanwhile are no candidates for it. *)
Theorem arithmetic_needs_three_codes (R : Reconstructor)
    (sdf_decoder : SDFdecoder) (save_dir : string)
    (synthesis_count : option nat) (resolution : nat)
    (map_z_to_y check_watertight : bool) (draws : list Draws) (w : World)
    (outcomes : list Outcome) (st' : LoopState) :
  length (latent_codes sdf_decoder) < 3 ->
  disk w (path_join save_dir synthesized_latent_codes_npz) = None ->
  infinite_synthesis R sdf_decoder save_dir synthesis_count resolution
    map_z_to_y check_watertight draws w = Ok (outcomes, st') ->
  Forall (fun rd => synthesis_type rd <> arithmetic) (ledger st') /\
  forall d,
    pick_arithmetic d = true ->
    iteration R sdf_decoder save_dir resolution map_z_to_y check_watertight
      d st' = Raise ValueError.
Proof.
  intros Hfew Hnone. unfold infinite_synthesis. rewrite Hnone. cbn [bind].
  intros H.
  set (P := fun st : LoopState =>
              Forall (fun rd => synthesis_type rd <> arithmetic) (ledger st) /\
              length (candidate_pool interpolation
                        (length (latent_codes sdf_decoder)) false (ledger st))
              < 3).
  assert (HP : P st').
  { apply (synthesis_loop_keeps R sdf_decoder save_dir synthesis_count
             resolution map_z_to_y check_watertight P) in H; [ exact H | |].
    - intros d st o st1 (Hno & Hlt) Hit.
      destruct (iteration_cases R sdf_decoder save_dir resolution map_z_to_y
                  check_watertight d st st1 o Hit)
        as (type & file_name & code & Hc & [(_ & -> & _) | (_ & _ & Hl)]);
        [ split; assumption |].
      pose proof (candidate_type _ _ _ _ _ _ Hc) as Ht.
      destruct (pick_arithmetic d) eqn:Hd.
      + rewrite (arithmetic_pick_fails sdf_decoder (ledger st) d Hlt Hd) in Hc.
        discriminate Hc.
      + subst type. unfold P. rewrite Hl. split.
        * apply Forall_app. split; [ exact Hno |].
          constructor; [ cbn; discriminate | constructor ].
        * unfold candidate_pool in *. rewrite filter_app, length_app.
          cbn. lia.
    - unfold P. cbn [ledger]. split.
      + eapply Forall_impl; [| apply seed_is_initial ].
        cbn beta. intros rd ->. discriminate.
      + unfold candidate_pool. rewrite filter_keeps_all.
        * rewrite seed_length. exact Hfew.
        * eapply Forall_impl; [| apply seed_is_initial ].
          cbn beta. intros rd ->. reflexivity. }
  destruct HP as (Hno & Hlt). split; [ exact Hno |].
  intros d Hd. unfold iteration.
  rewrite (arithmetic_pick_fails sdf_decoder (ledger st') d Hlt Hd).
  reflexivity.
Qed.

Lemma arithmetic_needs_three_codes_witness :
  exists outcomes st',
    infinite_synthesis lattice_reconstructor
      (plane_decoder [[0; 0]; [2; 2]]%Q) "out" None 10 true true
      [blend_01; blend_01] fresh_world = Ok (outcomes, st') /\
    Forall (fun rd => synthesis_type rd <> arithmetic) (ledger st') /\
    forall d,
      pick_arithmetic d = true ->
      iteration lattice_reconstructor (plane_decoder [[0; 0]; [2; 2]]%Q)
        "out" 10 true true d st' = Raise ValueError.
Proof.
  destruct (infinite_synthesis lattice_reconstructor
              (plane_decoder [[0; 0]; [2; 2]]%Q) "out" None 10 true true
              [blend_01; blend_01] fresh_world)
    as [[outcomes st'] | e] eqn:E.
  - exists outcomes, st'. split; [ reflexivity |].
    apply (arithmetic_needs_three_codes lattice_reconstructor
             (plane_decoder [[0; 0]; [2; 2]]%Q) "out" None 10 true true
             [blend_01; blend_01] fresh_world outcomes st');
      [ cbn; lia | reflexivity | exact E ].
  - vm_compute in E. discriminate.
Defined.

Example two_codes_run :
  match infinite_synthesis lattice_reconstructor
          (plane_decoder [[0; 0]; [2; 2]]%Q) "out" None 10 true true
          [blend_01; blend_01; arithmetic_012] fresh_world with
  | Ok _ => None
  | Raise e => Some e
  end = Some ValueError.
Proof. vm_compute. reflexivity. Qed.

